(** * Data-collection endpoints: verification of the collection core

    Shallow embedding of the backend's orchestration code:
    - [utils/rateLimiter.js]         ([apiCallWithRetry], [RateLimiter]),
    - [services/maliciousPackageService.js] ([deduplicatePackages],
      [collectFromGitHubAdvisories]),
    - [services/benignPackageService.js]    ([collectAllBenignPackages]),
    - [services/dependenciesService.js]     ([fetchDependencies],
      [resolveVersion], [buildDependencyTree]),
    - [services/collectionOrchestrator.js]  ([collectPackageData],
      [collectLabeledTrainingData], [batchCollectPackages]),
    - [controllers/collectionController.js] (the batch endpoint).

    Conventions.  JavaScript numbers that hold millisecond counts, HTTP
    status codes, indices and depths are integers in the code paths
    modelled here and are represented by [Z].  Network collaborators are
    oracles: Section variables giving the outcome of each call.  A [while]
    or [for] loop whose exit is not structural takes a [fuel] argument and
    answers [None] when the fuel runs out.  Async bodies that are started
    together (the group of a [Promise.allSettled], the callers of a shared
    limiter) run interleaved at their [await]s: the order is an oracle too,
    a schedule or a list of events. *)

From Stdlib Require Import ZArith Lia Ascii String List Permutation Sorted.
From stdpp Require Import base option list strings pretty gmap.

Local Open Scope Z_scope.

(** ** JavaScript values shared by the modules *)

(** A thrown [Error]: only [message] is read by the callers. *)
Record JsError := mkError { message : string }.

Inductive Settled (A : Type) :=
| Fulfilled (value : A)
| Rejected (reason : JsError).
Arguments Fulfilled {A} value.
Arguments Rejected {A} reason.

(** A number that may be [NaN] (result of [parseInt]). *)
Inductive jsnum :=
| Num (z : Z)
| NaN.

(** [Array.prototype.slice(start, end)], negative indices counting from
    the end of the array. *)
Definition js_slice {A} (start stop : Z) (l : list A) : list A :=
  let len := Z.of_nat (length l) in
  let k := if start <? 0 then Z.max (len + start) 0 else Z.min start len in
  let final := if stop <? 0 then Z.max (len + stop) 0 else Z.min stop len in
  take (Z.to_nat (final - k)) (drop (Z.to_nat k) l).

(** Truthiness of a string-valued property that may be absent. *)
Definition truthy_string (o : option string) : bool :=
  match o with
  | Some s => negb (String.eqb s "")
  | None => false
  end.

(** [a || b] on optional numbers: [undefined] and [0] are falsy. *)
Definition js_or_num (a b : option Z) : option Z :=
  match a with
  | Some z => if z =? 0 then b else Some z
  | None => b
  end.

(** *** [parseInt(string)] without a radix argument *)

Definition is_space (c : ascii) : bool :=
  let n := nat_of_ascii c in
  (Nat.eqb n 9 || Nat.eqb n 10 || Nat.eqb n 11 || Nat.eqb n 12
   || Nat.eqb n 13 || Nat.eqb n 32)%bool.

Fixpoint skip_spaces (s : string) : string :=
  match s with
  | String c s' => if is_space c then skip_spaces s' else s
  | EmptyString => s
  end.

Definition digit_value (radix : Z) (c : ascii) : option Z :=
  let n := Z.of_nat (nat_of_ascii c) in
  let v :=
    if (48 <=? n) && (n <=? 57) then Some (n - 48)
    else if (97 <=? n) && (n <=? 122) then Some (n - 87)
    else if (65 <=? n) && (n <=? 90) then Some (n - 55)
    else None in
  match v with
  | Some d => if d <? radix then Some d else None
  | None => None
  end.

(** Longest prefix of digits; [None] when there is no digit at all. *)
Fixpoint parse_digits (radix : Z) (s : string) (acc : option Z) : option Z :=
  match s with
  | String c s' =>
      match digit_value radix c with
      | Some d => parse_digits radix s' (Some (radix * default 0 acc + d))
      | None => acc
      end
  | EmptyString => acc
  end.

Definition strip_sign (s : string) : Z * string :=
  match s with
  | String "-"%char s' => (-1, s')
  | String "+"%char s' => (1, s')
  | _ => (1, s)
  end.

Definition strip_hex_prefix (s : string) : Z * string :=
  match s with
  | String "0"%char (String "x"%char s') => (16, s')
  | String "0"%char (String "X"%char s') => (16, s')
  | _ => (10, s)
  end.

Definition parseInt (s : string) : jsnum :=
  let '(sign, s1) := strip_sign (skip_spaces s) in
  let '(radix, s2) := strip_hex_prefix s1 in
  match parse_digits radix s2 None with
  | Some n => Num (sign * n)
  | None => NaN
  end.

Definition jsnum_mul (a : jsnum) (k : Z) : jsnum :=
  match a with
  | Num z => Num (z * k)
  | NaN => NaN
  end.

(** ** utils/rateLimiter.js *)

Module RateLimiterJs.

(** *** [apiCallWithRetry] *)

Record Response := mkResponse {
  resp_status : option Z;
  resp_headers : gmap string string
}.

(** The rejection value of an API call (an axios error): [error.message],
    [error.response] and [error.status]. *)
Record ApiError := mkApiError {
  err_message : string;
  err_response : option Response;
  err_status : option Z
}.

Record RetryOptions := mkRetryOptions {
  opt_maxRetries : option Z;
  opt_baseDelay : option Z;
  opt_maxDelay : option Z;
  opt_shouldRetry : option (ApiError -> bool)
}.

(** The default [shouldRetry]: 429 or 5xx. *)
Definition defaultShouldRetry (error : ApiError) : bool :=
  match js_or_num (err_response error ≫= resp_status) (err_status error) with
  | Some status => (status =? 429) || ((500 <=? status) && (status <? 600))
  | None => false
  end.

Definition maxRetries (o : RetryOptions) : Z := default 3 (opt_maxRetries o).
Definition baseDelay (o : RetryOptions) : Z := default 1000 (opt_baseDelay o).
Definition maxDelay (o : RetryOptions) : Z := default 30000 (opt_maxDelay o).
Definition shouldRetry (o : RetryOptions) : ApiError -> bool :=
  default defaultShouldRetry (opt_shouldRetry o).

(** What the executor can observe and cause: how many times the callable
    has been invoked, and the arguments of the [sleep] calls, oldest
    first. *)
Record RetryWorld := mkRetryWorld {
  calls : nat;
  sleeps : list jsnum
}.

Inductive Completion (V : Type) :=
| Returned (v : V)
| Thrown (e : option ApiError).
Arguments Returned {V} v.
Arguments Thrown {V} e.

Section Retry.
Context {V : Type}.
(** The callable: its outcome at the n-th invocation (counted from 0). *)
Variable apiCall : nat -> ApiError + V.
Variable options : RetryOptions.

Definition invoke (w : RetryWorld) : (ApiError + V) * RetryWorld :=
  (apiCall (calls w), mkRetryWorld (S (calls w)) (sleeps w)).

Definition sleep (ms : jsnum) (w : RetryWorld) : RetryWorld :=
  mkRetryWorld (calls w) (sleeps w ++ [ms]).

(** [Math.min(baseDelay * Math.pow(2, attempt - 1), maxDelay)] *)
Definition backoffDelay (attempt : Z) : Z :=
  Z.min (baseDelay options * 2 ^ (attempt - 1)) (maxDelay options).

(** [error.response?.headers['retry-after']] *)
Definition retryAfterHeader (error : ApiError) : option string :=
  err_response error ≫= λ r, resp_headers r !! "retry-after"%string.

Definition finalDelay (attempt : Z) (error : ApiError) : jsnum :=
  let delay := backoffDelay attempt in
  let retryAfter := retryAfterHeader error in
  if truthy_string retryAfter
  then jsnum_mul (parseInt (default ""%string retryAfter)) 1000
  else Num delay.

(** The [for (attempt = 1; attempt <= maxRetries; attempt++)] loop; the
    trailing [throw lastError] is the exit of the loop condition. *)
Fixpoint retryLoop (fuel : nat) (attempt : Z) (lastError : option ApiError)
    (w : RetryWorld) : option (Completion V * RetryWorld) :=
  match fuel with
  | O => None
  | S fuel' =>
      if attempt <=? maxRetries options then
        let '(r, w1) := invoke w in
        match r with
        | inr v => Some (Returned v, w1)
        | inl error =>
            if negb (shouldRetry options error) || (maxRetries options <=? attempt)
            then Some (Thrown (Some error), w1)
            else retryLoop fuel' (attempt + 1) (Some error)
                   (sleep (finalDelay attempt error) w1)
        end
      else Some (Thrown lastError, w)
  end.

Definition apiCallWithRetry (fuel : nat) : option (Completion V * RetryWorld) :=
  retryLoop fuel 1 None (mkRetryWorld 0 []).
End Retry.

(** Order on the arguments of [sleep]; a [NaN] is comparable to nothing. *)
Definition jsnum_le (a b : jsnum) : Prop :=
  match a, b with
  | Num x, Num y => x <= y
  | _, _ => False
  end.

Definition nondecreasing (ds : list jsnum) : Prop :=
  ∀ (i j : nat) a b, (i <= j)%nat → ds !! i = Some a → ds !! j = Some b → jsnum_le a b.

Definition bounded_by (m : Z) (ds : list jsnum) : Prop :=
  ∀ d, d ∈ ds → jsnum_le d (Num m).

(** The callable fails with the errors [es], one per invocation, and then
    succeeds with [v]. *)
Definition failsThenSucceeds {V} (apiCall : nat -> ApiError + V)
    (es : list ApiError) (v : V) : Prop :=
  (∀ (i : nat) e, es !! i = Some e → apiCall i = inl e)
  ∧ apiCall (length es) = inr v.

(** *** [class RateLimiter] *)

(** The limiter object together with the clock read by [Date.now()] and
    the durations handed to [sleep], oldest first.  Only [sleep] lets time
    pass inside the limiter's methods. *)
Record Limiter := mkLimiter {
  requestsPerWindow : Z;
  windowMs : Z;
  requests : list Z;
  clock : Z;
  slept : list Z
}.

Definition newRateLimiter (perWindow window now : Z) : Limiter :=
  mkLimiter perWindow window [] now [].

Definition set_requests (rs : list Z) (l : Limiter) : Limiter :=
  mkLimiter (requestsPerWindow l) (windowMs l) rs (clock l) (slept l).

Definition canMakeRequest (l : Limiter) : bool * Limiter :=
  let now := clock l in
  let kept := List.filter (λ timestamp, now - timestamp <? windowMs l) (requests l) in
  (Z.of_nat (length kept) <? requestsPerWindow l, set_requests kept l).

Definition recordRequest (l : Limiter) : Limiter :=
  set_requests (requests l ++ [clock l]) l.

(** [Math.min(...xs)]; [None] stands for [Infinity] (empty argument list). *)
Definition Math_min (xs : list Z) : option Z :=
  match xs with
  | [] => None
  | x :: xs' => Some (fold_left Z.min xs' x)
  end.

(** [None] stands for an infinite wait. *)
Definition getTimeUntilNextRequest (l : Limiter) : option Z * Limiter :=
  let '(ok, l1) := canMakeRequest l in
  if ok then (Some 0, l1)
  else
    match Math_min (requests l1) with
    | Some oldestRequest =>
        let windowEnd := oldestRequest + windowMs l1 in
        (Some (Z.max 0 (windowEnd - clock l1)), l1)
    | None => (None, l1)
    end.

Definition limiterSleep (ms : Z) (l : Limiter) : Limiter :=
  mkLimiter (requestsPerWindow l) (windowMs l) (requests l)
            (clock l + ms) (slept l ++ [ms]).

(** The [while (!this.canMakeRequest())] loop.  An infinite wait never
    completes. *)
Fixpoint waitUntilCanRequest (fuel : nat) (l : Limiter) : option Limiter :=
  match fuel with
  | O => None
  | S fuel' =>
      let '(ok, l1) := canMakeRequest l in
      if ok then Some l1
      else
        let '(waitTime, l2) := getTimeUntilNextRequest l1 in
        match waitTime with
        | Some ms =>
            if 0 <? ms then waitUntilCanRequest fuel' (limiterSleep ms l2)
            else waitUntilCanRequest fuel' l2
        | None => None
        end
  end.

(** [makeRequest] up to the point where [apiCall] is invoked: the
    admission of one request, for a caller that is alone on the limiter
    from its test to its record (no other [makeRequest] on the same limiter
    runs in between, as when each call is awaited before the next is
    issued).  Callers that share a limiter are the matter of
    [RateLimiterShared]. *)
Definition acquireSlot (fuel : nat) (l : Limiter) : option Limiter :=
  recordRequest <$> waitUntilCanRequest fuel l.

Definition makeRequest {R} (fuel : nat) (apiCall : Limiter -> R * Limiter)
    (l : Limiter) : option (R * Limiter) :=
  apiCall <$> acquireSlot fuel l.

(** Time passing outside the limiter, between two admissions. *)
Definition elapse (ms : Z) (l : Limiter) : Limiter :=
  mkLimiter (requestsPerWindow l) (windowMs l) (requests l)
            (clock l + ms) (slept l).



End RateLimiterJs.

(** ** services/metadataService.js: the shape of what it returns *)

Module metadataService.

(** One entry of [packageData.versions]. [Object.entries] keeps the order
    of the dependency maps, hence association lists. *)
Record VersionData := mkVersionData {
  vd_dependencies : option (list (string * string));
  vd_devDependencies : option (list (string * string));
  vd_dist_tarball : option string
}.

(** [repository] is a string or an object in the registry's answers. *)
Inductive RepositoryField :=
| RepoString (s : string)
| RepoObject (type url : string).

Record Metadata := mkMetadata {
  md_name : string;
  md_version : string;
  md_repository : option RepositoryField;
  md_versions : gmap string VersionData
}.

Definition truthy_repository (r : option RepositoryField) : bool :=
  match r with
  | Some (RepoString s) => negb (String.eqb s "")
  | Some (RepoObject _ _) => true
  | None => false
  end.

End metadataService.

(** ** services/maliciousPackageService.js *)

Module maliciousPackageService.

(** The string literals ["low"], ["medium"], ["high"], ["very-high"]. *)
Inductive Confidence := Low | Medium | High | VeryHigh.

Definition rank (c : Confidence) : nat :=
  match c with
  | Low => 0
  | Medium => 1
  | High => 2
  | VeryHigh => 3
  end%nat.

(** A package record as the collectors build it.  [sources] is absent
    ([None]) until [deduplicatePackages] sets it; [details] holds the
    remaining properties (advisory ids, summary, dates). *)
Record Package := mkPackage {
  name : string;
  version : string;
  label : string;
  source : string;
  confidence : Confidence;
  sources : option (list string);
  details : list (string * string)
}.

Definition set_sources (s : list string) (p : Package) : Package :=
  mkPackage (name p) (version p) (label p) (source p) (confidence p)
            (Some s) (details p).

Definition set_confidence (c : Confidence) (p : Package) : Package :=
  mkPackage (name p) (version p) (label p) (source p) c
            (sources p) (details p).

(** [`${pkg.name}@${pkg.version}`] *)
Definition key (pkg : Package) : string :=
  (name pkg +:+ "@" +:+ version pkg)%string.

(** A [Map] keeps its entries in insertion order. *)
Fixpoint map_has (k : string) (m : list (string * Package)) : bool :=
  match m with
  | [] => false
  | (k', _) :: m' => if String.eqb k k' then true else map_has k m'
  end.

(** Mutation of the object stored under [k]. *)
Fixpoint map_update (k : string) (f : Package -> Package)
    (m : list (string * Package)) : list (string * Package) :=
  match m with
  | [] => []
  | (k', v) :: m' =>
      if String.eqb k k' then (k', f v) :: m' else (k', v) :: map_update k f m'
  end.

Definition includes (s : string) (l : list string) : bool :=
  existsb (String.eqb s) l.

(** The [else] branch of the loop body, on the stored record. *)
Definition absorb (pkg existing : Package) : Package :=
  let srcs := default [] (sources existing) in
  let srcs' := if includes (source pkg) srcs then srcs else srcs ++ [source pkg] in
  let existing' := set_sources srcs' existing in
  if (1 <? length srcs')%nat then set_confidence High existing' else existing'.

Definition dedup_step (map : list (string * Package)) (pkg : Package)
    : list (string * Package) :=
  let key := key pkg in
  if negb (map_has key map)
  then map ++ [(key, set_sources [source pkg] pkg)]
  else map_update key (absorb pkg) map.

Definition deduplicatePackages (packages : list Package) : list Package :=
  (fold_left dedup_step packages []).*2.

(** [collectAllMaliciousPackages], given what the three collectors return. *)
Definition collectAllMaliciousPackages (github osv research : list Package)
    : list Package :=
  let combined := github ++ osv ++ research in
  deduplicatePackages combined.

(** *** Vocabulary of the statements about the merge *)

(** [map.get(key)] *)
Fixpoint map_get (k : string) (m : list (string * Package)) : option Package :=
  match m with
  | [] => None
  | (k', v) :: m' => if String.eqb k k' then Some v else map_get k m'
  end.

Definition add_source (ss : list string) (s : string) : list string :=
  if includes s ss then ss else ss ++ [s].

(** The input records filed under one key, in input order. *)
Definition records_of (k : string) (l : list Package) : list Package :=
  List.filter (λ p, String.eqb (key p) k) l.

(** What the merge keeps under one key: the first record, which absorbs
    the later ones. *)
Definition merged (k : string) (l : list Package) : option Package :=
  match records_of k l with
  | [] => None
  | p :: qs => Some (fold_left (λ e q, absorb q e) qs (set_sources [source p] p))
  end.

(** A record as a second merge re-inserts it. *)
Definition reset_sources (r : Package) : Package := set_sources [source r] r.

(** Records that agree on key and source agree on confidence. *)
Definition consistent (l : list Package) : Prop :=
  ∀ p q, p ∈ l → q ∈ l → key p = key q → source p = source q →
         confidence p = confidence q.

(** No key is reported by two different sources. *)
Definition single_sourced (l : list Package) : Prop :=
  ∀ p q, p ∈ l → q ∈ l → key p = key q → source p = source q.

(** [p] is the first record of [l] filed under its key. *)
Definition first_of_key (p : Package) (l : list Package) : Prop :=
  ∃ pre post, l = pre ++ p :: post ∧ ∀ q, q ∈ pre → key q ≠ key p.

End maliciousPackageService.

(** ** services/dependenciesService.js *)

Module dependenciesService.
Import metadataService.

Record Dependency := mkDependency {
  dep_name : string;
  dep_version : string;
  dep_type : string;
  dep_resolved : option string
}.

Record DependenciesResult := mkDependenciesResult {
  package : string * string;
  dependencies : list Dependency;
  devDependencies : list Dependency;
  totalDependencies : nat;
  totalDevDependencies : nat;
  directDependencies : nat;
  transitiveDependencies : nat
}.

Record TransitiveDependency := mkTransitive {
  t_name : string;
  t_version : string;
  t_type : string;
  t_depth : Z;
  t_parent : string
}.

Definition is_digit (c : ascii) : bool :=
  let n := nat_of_ascii c in (Nat.leb 48 n && Nat.leb n 57)%bool.

(** Skips [\d*]; returns how many digits were read and the rest. *)
Fixpoint span_digits (s : string) : nat * string :=
  match s with
  | String c s' =>
      if is_digit c then let '(n, r) := span_digits s' in (S n, r) else (O, s)
  | EmptyString => (O, s)
  end.

Definition expect_dot (s : string) : option string :=
  match s with
  | String "."%char s' => Some s'
  | _ => None
  end.

(** [versionRange.match(/^\d+\.\d+\.\d+$/)] *)
Definition is_exact_version (versionRange : string) : bool :=
  let '(n1, r1) := span_digits versionRange in
  match expect_dot r1 with
  | Some r1' =>
      let '(n2, r2) := span_digits r1' in
      match expect_dot r2 with
      | Some r2' =>
          let '(n3, r3) := span_digits r2' in
          (Nat.ltb 0 n1 && Nat.ltb 0 n2 && Nat.ltb 0 n3 && String.eqb r3 "")%bool
      | None => false
      end
  | None => false
  end.

Section Dependencies.
(** The registry, as seen through [metadataService.fetchFromNpmRegistry]. *)
Variable fetchFromNpmRegistry : string -> string -> JsError + Metadata.

Definition fetchDependencies (packageName version : string)
    : JsError + DependenciesResult :=
  match fetchFromNpmRegistry packageName version with
  | inl error => inl error
  | inr metadata =>
      match md_versions metadata !! md_version metadata with
      | None =>
          inl (mkError ("Version " +:+ md_version metadata
                        +:+ " not found for package " +:+ packageName))
      | Some versionData =>
          let dependencies :=
            (λ '(depName, depVersion),
               mkDependency depName depVersion "direct"
                 (Some ("https://registry.npmjs.org/" +:+ depName +:+ "/-/"
                        +:+ depName +:+ "-" +:+ depVersion +:+ ".tgz")))
              <$> default [] (vd_dependencies versionData) in
          let devDependencies :=
            (λ '(depName, depVersion), mkDependency depName depVersion "dev" None)
              <$> default [] (vd_devDependencies versionData) in
          inr (mkDependenciesResult (packageName, md_version metadata)
                 dependencies devDependencies
                 (length dependencies) (length devDependencies)
                 (length dependencies) 0)
      end
  end.

Definition resolveVersion (packageName versionRange : string) : string :=
  match fetchFromNpmRegistry packageName "latest" with
  | inr metadata =>
      if is_exact_version versionRange then versionRange else md_version metadata
  | inl _ => versionRange
  end.

(** [visited] is a [Set] of keys; each recursive call receives a copy
    ([new Set(visited)]), so a value is passed down. *)
Fixpoint buildDependencyTree (fuel : nat) (packageName version : string)
    (maxDepth currentDepth : Z) (visited : gset string)
    : option (list TransitiveDependency) :=
  match fuel with
  | O => None
  | S fuel' =>
      if maxDepth <=? currentDepth then Some []
      else
        let key := (packageName +:+ "@" +:+ version)%string in
        if bool_decide (key ∈ visited) then Some []
        else
          let visited := {[ key ]} ∪ visited in
          match fetchDependencies packageName version with
          | inl error => Some []
          | inr deps =>
              fold_left
                (λ acc dep,
                   transitiveDeps ← acc;
                   let resolvedVersion :=
                     resolveVersion (dep_name dep) (dep_version dep) in
                   let transitiveDeps :=
                     transitiveDeps ++
                       [mkTransitive (dep_name dep) resolvedVersion "transitive"
                          (currentDepth + 1) packageName] in
                   if currentDepth + 1 <? maxDepth then
                     subDeps ← buildDependencyTree fuel' (dep_name dep)
                                 resolvedVersion maxDepth (currentDepth + 1)
                                 visited;
                     Some (transitiveDeps ++ subDeps)
                   else Some transitiveDeps)
                (dependencies deps) (Some [])
          end
  end.
End Dependencies.

End dependenciesService.

(** ** services/collectionOrchestrator.js *)

Module Orchestrator.
Import metadataService.

(** The answer of a collaborator service, kept opaque (serialised). *)
Definition Payload : Type := string.

Inductive DataValue :=
| MetadataValue (metadata : Metadata)
| PayloadValue (payload : Payload)
| ErrorDescriptor (error : string).

Record CollectionResult := mkCollectionResult {
  packageName : string;
  version : string;
  collectedAt : string;
  data : gmap string DataValue
}.

(** [collectionResults.data[k] = v] *)
Definition set_data (k : string) (v : DataValue) (r : CollectionResult)
    : CollectionResult :=
  mkCollectionResult (packageName r) (version r) (collectedAt r)
                     (<[k := v]> (data r)).

(** The [options] argument before destructuring: absent properties take
    the defaults of the destructuring pattern. *)
Record CollectOptions := mkCollectOptions {
  opt_includeStaticAnalysis : option bool;
  opt_includeGitHubData : option bool;
  opt_includeVulnerabilities : option bool;
  opt_includeDependencies : option bool
}.

Definition includeStaticAnalysis (o : CollectOptions) : bool :=
  default false (opt_includeStaticAnalysis o).
Definition includeGitHubData (o : CollectOptions) : bool :=
  default true (opt_includeGitHubData o).
Definition includeVulnerabilities (o : CollectOptions) : bool :=
  default true (opt_includeVulnerabilities o).
Definition includeDependencies (o : CollectOptions) : bool :=
  default true (opt_includeDependencies o).

(** Calls that leave the orchestrator, in the order they are issued. *)
Inductive Call :=
| FetchFromNpmRegistry (packageName version : string)
| FetchDependencies (packageName version : string)
| GetVulnerabilities (packageName version mode : string)
| GetPackageGitHubData (metadata : Metadata)
| ExtractStaticAnalysisFeatures (packageName version tarballUrl : string)
| SaveToDatabase
| CollectAllMaliciousPackages
| CollectAllBenignPackages (count : Z).

(** An [async] body: it may throw, and it appends to the trace of calls. *)
Definition M (A : Type) : Type := list Call -> (JsError + A) * list Call.

Definition ret {A} (a : A) : M A := λ t, (inr a, t).
Definition throw {A} (e : JsError) : M A := λ t, (inl e, t).
Definition bind {A B} (m : M A) (k : A -> M B) : M B :=
  λ t, match m t with
       | (inr a, t') => k a t'
       | (inl e, t') => (inl e, t')
       end.
Definition try_catch {A} (m : M A) (handler : JsError -> M A) : M A :=
  λ t, match m t with
       | (inr a, t') => (inr a, t')
       | (inl e, t') => handler e t'
       end.
(** [await service.method(args)]: the call is traced, the oracle answers. *)
Definition await {A} (c : Call) (outcome : JsError + A) : M A :=
  λ t, (outcome, t ++ [c]).

Notation "'let!' x ':=' m 'in' k" := (bind m (λ x, k))
  (at level 10, x name, m at level 100, k at level 200).

(** The four optional aspects and the keys they are stored under. *)
Inductive Aspect := Dependencies | Vulnerabilities | GitHub | StaticAnalysis.

Definition aspect_key (a : Aspect) : string :=
  match a with
  | Dependencies => "dependencies"
  | Vulnerabilities => "vulnerabilities"
  | GitHub => "github"
  | StaticAnalysis => "staticAnalysis"
  end.

(** [metadata.versions?.[metadata.version]?.dist?.tarball] *)
Definition tarball_of (metadata : Metadata) : option string :=
  md_versions metadata !! md_version metadata ≫= vd_dist_tarball.

(** A package of the training set: a record of the package services,
    to which the orchestrator may add the property [fullData]. *)
Record TrainingPackage := mkTrainingPackage {
  pkg : maliciousPackageService.Package;
  fullData : option CollectionResult
}.

Record TrainingOptions := mkTrainingOptions {
  opt_maliciousCount : option Z;
  opt_benignCount : option Z
}.

Record TrainingSummary := mkTrainingSummary {
  totalMalicious : nat;
  totalBenign : nat;
  totalWithFullData : nat
}.

Record TrainingResult := mkTrainingResult {
  tr_collectedAt : string;
  malicious : list TrainingPackage;
  benign : list TrainingPackage;
  tr_summary : TrainingSummary
}.

Record Item := mkItem { item_name : string; item_version : string }.

Record BatchOptions := mkBatchOptions {
  opt_concurrency : option Z;
  collectOptions : CollectOptions
}.

(** [{ package: batch[index], error: result.reason.message }]; [batch[index]]
    is [None] when the index is out of range. *)
Record BatchError := mkBatchError {
  be_package : option Item;
  be_error : string
}.

Record BatchSummary := mkBatchSummary {
  total : nat;
  successful : nat;
  failed : nat
}.

Record BatchResult := mkBatchResult {
  results : list CollectionResult;
  errors : list BatchError;
  summary : BatchSummary
}.

Definition has_fullData (p : TrainingPackage) : bool :=
  match fullData p with Some _ => true | None => false end.

Section Orchestrator.
(** Collaborators. *)
Variable fetchFromNpmRegistry : string -> string -> JsError + Metadata.
Variable fetchDependencies : string -> string -> JsError + Payload.
Variable getVulnerabilities : string -> string -> string -> JsError + Payload.
Variable getPackageGitHubData : Metadata -> JsError + Payload.
Variable extractStaticAnalysisFeatures :
  string -> string -> string -> JsError + Payload.
Variable collectAllMaliciousPackages :
  JsError + list maliciousPackageService.Package.
Variable collectAllBenignPackages :
  Z -> JsError + list maliciousPackageService.Package.
(** [new Date().toISOString()] *)
Variable now : string.
(** Whether [this.db] is set. *)
Variable db : bool.

Definition saveToDatabase (collectionResults : CollectionResult) : M unit :=
  if negb db then ret tt
  else try_catch (await SaveToDatabase (inr tt)) (λ error, ret tt).

(** One optional step: [if (gate) { try { r.data[k] = await call } catch
    (error) { r.data[k] = { error: error.message } } }]. *)
Definition collectAspect (gate : bool) (a : Aspect) (c : Call)
    (outcome : JsError + Payload) (r : CollectionResult) : M CollectionResult :=
  if gate then
    try_catch
      (let! payload := await c outcome in
       ret (set_data (aspect_key a) (PayloadValue payload) r))
      (λ error, ret (set_data (aspect_key a) (ErrorDescriptor (message error)) r))
  else ret r.

Definition collectPackageData (packageName version : string)
    (options : CollectOptions) : M CollectionResult :=
  let collectionResults := mkCollectionResult packageName version now ∅ in
  try_catch
    (let! metadata :=
       await (FetchFromNpmRegistry packageName version)
             (fetchFromNpmRegistry packageName version) in
     let r := set_data "metadata" (MetadataValue metadata) collectionResults in
     let! r :=
       collectAspect (includeDependencies options) Dependencies
         (FetchDependencies packageName (md_version metadata))
         (fetchDependencies packageName (md_version metadata)) r in
     let! r :=
       collectAspect (includeVulnerabilities options) Vulnerabilities
         (GetVulnerabilities packageName (md_version metadata) "all")
         (getVulnerabilities packageName (md_version metadata) "all") r in
     let! r :=
       collectAspect
         (includeGitHubData options && truthy_repository (md_repository metadata))
         GitHub (GetPackageGitHubData metadata)
         (getPackageGitHubData metadata) r in
     let! r :=
       collectAspect
         (includeStaticAnalysis options && truthy_string (tarball_of metadata))
         StaticAnalysis
         (ExtractStaticAnalysisFeatures packageName (md_version metadata)
            (default ""%string (tarball_of metadata)))
         (extractStaticAnalysisFeatures packageName (md_version metadata)
            (default ""%string (tarball_of metadata))) r in
     let! _ := (if db then saveToDatabase r else ret tt) in
     ret r)
    (λ error, throw error).

(** *** [collectLabeledTrainingData] *)

Definition maliciousCount (o : TrainingOptions) : Z :=
  default 1000 (opt_maliciousCount o).
Definition benignCount (o : TrainingOptions) : Z :=
  default 10000 (opt_benignCount o).

Definition fullDataOptions : CollectOptions :=
  mkCollectOptions (Some false) (Some true) (Some true) None.

(** Body of both [for (const pkg of ...)] loops: [pkg.fullData] is set
    on the object itself when the collection succeeds. *)
Definition attachFullData (p : TrainingPackage) : M TrainingPackage :=
  try_catch
    (let! packageData :=
       collectPackageData (maliciousPackageService.name (pkg p))
         (maliciousPackageService.version (pkg p)) fullDataOptions in
     ret (mkTrainingPackage (pkg p) (Some packageData)))
    (λ error, ret p).

Fixpoint forOf {A} (body : A -> M A) (l : list A) : M (list A) :=
  match l with
  | [] => ret []
  | x :: l' =>
      let! x' := body x in
      let! rest := forOf body l' in
      ret (x' :: rest)
  end.

(** [for (const pkg of xs.slice(0, n))]: the slice holds the very
    objects of [xs], so the loop updates the first elements of [xs].  The
    package services build one object per package, so no object occurs
    twice in [xs]. *)
Definition enrichFirst (n : Z) (xs : list TrainingPackage)
    : M (list TrainingPackage) :=
  let head := js_slice 0 n xs in
  let! head' := forOf attachFullData head in
  ret (head' ++ drop (length head) xs).

Definition collectLabeledTrainingData (options : TrainingOptions)
    : M TrainingResult :=
  try_catch
    (let! maliciousPackages :=
       await CollectAllMaliciousPackages collectAllMaliciousPackages in
     let malicious :=
       (λ p, mkTrainingPackage p None)
         <$> js_slice 0 (maliciousCount options) maliciousPackages in
     let! benignPackages :=
       await (CollectAllBenignPackages (benignCount options))
             (collectAllBenignPackages (benignCount options)) in
     let benign := (λ p, mkTrainingPackage p None) <$> benignPackages in
     let! malicious := enrichFirst 10 malicious in
     let! benign := enrichFirst 50 benign in
     let summary :=
       mkTrainingSummary (length malicious) (length benign)
         (length (List.filter has_fullData malicious
                  ++ List.filter has_fullData benign)) in
     ret (mkTrainingResult now malicious benign summary))
    (λ error, throw error).

(** *** [batchCollectPackages] *)

Definition concurrency (o : BatchOptions) : Z := default 5 (opt_concurrency o).

Definition settle {A} (o : JsError + A) : Settled A :=
  match o with
  | inr v => Fulfilled v
  | inl e => Rejected e
  end.

(** The calls of the bodies of one group, which run interleaved.
    [batch.map] starts every body in turn, and each runs up to its first
    [await]: its first call is issued then.  From there a body proceeds, one
    call at a time, whenever the answer it awaits arrives; [schedule] lists
    the positions of the bodies in the order in which they are resumed, and
    what the schedule leaves out is run at the end. *)
Fixpoint weave (schedule : list nat) (pending : list (list Call)) : list Call :=
  match schedule with
  | [] => concat pending
  | i :: schedule' =>
      match pending !! i with
      | Some (c :: rest) => c :: weave schedule' (<[i := rest]> pending)
      | _ => weave schedule' pending
      end
  end.

Definition interleaved (schedule : list nat) (bodies : list (list Call))
    : list Call :=
  concat (take 1 <$> bodies) ++ weave schedule (drop 1 <$> bodies).

(** [Promise.allSettled]: every promise is run to its outcome and the
    combined promise never rejects, so that nothing in the body of
    [batchCollectPackages] throws.  An async body only appends to the
    trace and the oracles are functions of their arguments: the outcome and
    the calls of a body are those of the body run on its own, and only the
    order of the calls of the group depends on the schedule. *)
Definition allSettled {A} (schedule : list nat) (promises : list (M A))
    (t : list Call) : list (Settled A) * list Call :=
  let runs := (λ promise : M A, promise []) <$> promises in
  ((λ run, settle run.1) <$> runs, t ++ interleaved schedule (snd <$> runs)).

(** [batchResults.forEach((result, index) => ...)] *)
Fixpoint forEachResult (batch : list Item) (index : nat)
    (batchResults : list (Settled CollectionResult))
    (acc : list CollectionResult * list BatchError)
    : list CollectionResult * list BatchError :=
  match batchResults with
  | [] => acc
  | result :: rest =>
      let acc' :=
        match result with
        | Fulfilled value => (acc.1 ++ [value], acc.2)
        | Rejected reason =>
            (acc.1, acc.2 ++ [mkBatchError (batch !! index) (message reason)])
        end in
      forEachResult batch (S index) rest acc'
  end.

(** The order in which the awaited answers arrive within the group that
    starts at index [i]: it is the network's choice. *)
Variable schedule : Z -> list nat.

Fixpoint batchLoop (fuel : nat) (packageList : list Item) (options : BatchOptions)
    (i : Z) (acc : list CollectionResult * list BatchError) (t : list Call)
    : option ((list CollectionResult * list BatchError) * list Call) :=
  match fuel with
  | O => None
  | S fuel' =>
      if i <? Z.of_nat (length packageList) then
        let batch := js_slice i (i + concurrency options) packageList in
        let '(batchResults, t1) :=
          allSettled (schedule i)
            ((λ item, collectPackageData (item_name item) (item_version item)
                        (collectOptions options)) <$> batch) t in
        batchLoop fuel' packageList options (i + concurrency options)
          (forEachResult batch 0 batchResults acc) t1
      else Some (acc, t)
  end.

Definition batchCollectPackages (fuel : nat) (packageList : list Item)
    (options : BatchOptions) (t : list Call)
    : option (BatchResult * list Call) :=
  match batchLoop fuel packageList options 0 ([], []) t with
  | Some ((results, errors), t') =>
      Some (mkBatchResult results errors
              (mkBatchSummary (length packageList) (length results)
                              (length errors)), t')
  | None => None
  end.

(** *** Vocabulary of the statements about the orchestrator *)

(** The option that asks for an aspect. *)
Definition aspect_requested (options : CollectOptions) (a : Aspect) : bool :=
  match a with
  | Dependencies => includeDependencies options
  | Vulnerabilities => includeVulnerabilities options
  | GitHub => includeGitHubData options
  | StaticAnalysis => includeStaticAnalysis options
  end.

(** The condition of the [if] that guards the step of an aspect. *)
Definition aspect_enabled (options : CollectOptions) (metadata : Metadata)
    (a : Aspect) : bool :=
  match a with
  | Dependencies => includeDependencies options
  | Vulnerabilities => includeVulnerabilities options
  | GitHub => includeGitHubData options && truthy_repository (md_repository metadata)
  | StaticAnalysis =>
      includeStaticAnalysis options && truthy_string (tarball_of metadata)
  end.

Definition aspect_call (packageName : string) (metadata : Metadata) (a : Aspect)
    : Call :=
  match a with
  | Dependencies => FetchDependencies packageName (md_version metadata)
  | Vulnerabilities => GetVulnerabilities packageName (md_version metadata) "all"
  | GitHub => GetPackageGitHubData metadata
  | StaticAnalysis =>
      ExtractStaticAnalysisFeatures packageName (md_version metadata)
        (default ""%string (tarball_of metadata))
  end.

(** What the collaborator of an aspect answers for this package. *)
Definition aspect_outcome (packageName : string) (metadata : Metadata) (a : Aspect)
    : JsError + Payload :=
  match a with
  | Dependencies => fetchDependencies packageName (md_version metadata)
  | Vulnerabilities => getVulnerabilities packageName (md_version metadata) "all"
  | GitHub => getPackageGitHubData metadata
  | StaticAnalysis =>
      extractStaticAnalysisFeatures packageName (md_version metadata)
        (default ""%string (tarball_of metadata))
  end.

(** The payload, or the descriptor [{ error: error.message }]. *)
Definition recorded (o : JsError + Payload) : DataValue :=
  match o with
  | inr payload => PayloadValue payload
  | inl error => ErrorDescriptor (message error)
  end.

(** An aspect that is not enabled leaves the result as it is. *)
Definition store (gate : bool) (a : Aspect) (o : JsError + Payload)
    (r : CollectionResult) : CollectionResult :=
  if gate then set_data (aspect_key a) (recorded o) r else r.

Definition issued (gate : bool) (c : Call) : list Call :=
  if gate then [c] else [].

(** The result and the calls of a collection whose metadata step succeeded. *)
Definition collected (packageName version : string) (options : CollectOptions)
    (metadata : Metadata) : CollectionResult :=
  let stored a :=
    store (aspect_enabled options metadata a) a (aspect_outcome packageName metadata a) in
  stored StaticAnalysis
    (stored GitHub
       (stored Vulnerabilities
          (stored Dependencies
             (set_data "metadata" (MetadataValue metadata)
                (mkCollectionResult packageName version now ∅))))).

Definition callsAfterMetadata (packageName : string) (options : CollectOptions)
    (metadata : Metadata) : list Call :=
  let call a :=
    issued (aspect_enabled options metadata a) (aspect_call packageName metadata a) in
  call Dependencies ++ call Vulnerabilities ++ call GitHub ++ call StaticAnalysis
  ++ issued db SaveToDatabase.

(** What one item settles to, and the calls it issues, on its own. *)
Definition outcomeOf (options : BatchOptions) (item : Item)
    : Settled CollectionResult :=
  settle (collectPackageData (item_name item) (item_version item)
            (collectOptions options) []).1.

Definition callsOf (options : BatchOptions) (item : Item) : list Call :=
  (collectPackageData (item_name item) (item_version item)
     (collectOptions options) []).2.

(** The fulfilled items and the rejected items, each in input order. *)
Definition successesOf (options : BatchOptions) (items : list Item)
    : list CollectionResult :=
  omap (λ item, match outcomeOf options item with
                | Fulfilled value => Some value
                | Rejected _ => None
                end) items.

Definition failuresOf (options : BatchOptions) (items : list Item)
    : list BatchError :=
  omap (λ item, match outcomeOf options item with
                | Fulfilled _ => None
                | Rejected reason => Some (mkBatchError (Some item) (message reason))
                end) items.

(** [pkg.fullData] after the loop body ran on it. *)
Definition fullDataOf (p : maliciousPackageService.Package)
    : option CollectionResult :=
  match (collectPackageData (maliciousPackageService.name p)
           (maliciousPackageService.version p) fullDataOptions []).1 with
  | inr packageData => Some packageData
  | inl _ => None
  end.

Definition fullDataCalls (p : maliciousPackageService.Package) : list Call :=
  (collectPackageData (maliciousPackageService.name p)
     (maliciousPackageService.version p) fullDataOptions []).2.

(** A list of packages whose first [n] went through the loop body. *)
Definition enriched (n : nat) (ps : list maliciousPackageService.Package)
    : list TrainingPackage :=
  ((λ p, mkTrainingPackage p (fullDataOf p)) <$> take n ps)
  ++ ((λ p, mkTrainingPackage p None) <$> drop n ps).
End Orchestrator.

End Orchestrator.

(** ** utils/rateLimiter.js: the times at which a caller is admitted *)

Module RateLimiterLog.
Import RateLimiterJs.

(** A completion of [apiCallWithRetry] is the outcome of the last
    invocation of the callable; [undefined] is thrown when there was none. *)
Definition ends_with {V} (apiCall : nat -> ApiError + V)
    (r : Completion V) (w : RetryWorld) : Prop :=
  match r with
  | Returned v => (0 < calls w)%nat ∧ apiCall (calls w - 1)%nat = inr v
  | Thrown (Some e) => (0 < calls w)%nat ∧ apiCall (calls w - 1)%nat = inl e
  | Thrown None => calls w = 0%nat
  end.

(** The caller of [admissions], noting [Date.now()] as pushed by each
    [recordRequest]: the admissions are issued one after the other. *)
Fixpoint admissionTimes (fuel : nat) (pauses : list Z) (l : Limiter)
    : option (list Z) :=
  match pauses with
  | [] => Some []
  | pause :: rest =>
      match acquireSlot fuel (elapse pause l) with
      | Some l' => (clock l' ::.) <$> admissionTimes fuel rest l'
      | None => None
      end
  end.

(** Admission times that never decrease, and of which any [c + 1]
    consecutive ones span at least [W] milliseconds. *)
Definition ascending (times : list Z) : Prop :=
  ∀ (i j : nat) a b, (i <= j)%nat → times !! i = Some a → times !! j = Some b → a <= b.

Definition spaced (c : nat) (W : Z) (times : list Z) : Prop :=
  ∀ (i : nat) a b, times !! i = Some a → times !! (i + c)%nat = Some b → W <= b - a.

End RateLimiterLog.

(** ** utils/rateLimiter.js: callers that share a limiter *)

Module RateLimiterShared.
Import RateLimiterJs.

(** Where a call of [makeRequest] stands.  [makeRequest] awaits
    [waitUntilCanRequest] before it calls [recordRequest], and the limiters
    of [rateLimiters] are shared: between the test that lets a caller pass
    and its record, and while it sleeps, other callers run. *)
Inductive Caller :=
| Checking
| Sleeping (wake : option Z)
| Passed
| Recorded.

Record Shared := mkShared {
  limiter : Limiter;
  callers : list Caller
}.

(** [sleep(ms)] is called: the timer is set, no time has passed yet. *)
Definition noteSleep (ms : Z) (l : Limiter) : Limiter :=
  mkLimiter (requestsPerWindow l) (windowMs l) (requests l)
            (clock l) (slept l ++ [ms]).

(** One turn of the [while] loop of [waitUntilCanRequest], up to its
    [await] or to the exit of the loop.  The timer of [sleep] is due at
    [wake]; an infinite wait has no such time. *)
Definition check (l : Limiter) : Caller * Limiter :=
  let '(ok, l1) := canMakeRequest l in
  if ok then (Passed, l1)
  else
    let '(waitTime, l2) := getTimeUntilNextRequest l1 in
    match waitTime with
    | Some ms =>
        if 0 <? ms then (Sleeping (Some (clock l2 + ms)), noteSleep ms l2)
        else (Checking, l2)
    | None => (Sleeping None, l2)
    end.

(** What happens next: the event loop runs caller [i] up to its next
    [await], or time goes by. *)
Inductive Event :=
| Resume (i : nat)
| Elapse (ms : Z).

Definition enter (i : nat) (s : Shared) : Shared :=
  let '(c, l) := check (limiter s) in
  mkShared l (<[i := c]> (callers s)).

Definition step (s : Shared) (e : Event) : Shared :=
  match e with
  | Elapse ms => mkShared (elapse ms (limiter s)) (callers s)
  | Resume i =>
      match callers s !! i with
      | Some Checking => enter i s
      | Some (Sleeping (Some wake)) =>
          if wake <=? clock (limiter s) then enter i s else s
      | Some Passed =>
          mkShared (recordRequest (limiter s)) (<[i := Recorded]> (callers s))
      | _ => s
      end
  end.

Definition run (events : list Event) (s : Shared) : Shared :=
  fold_left step events s.

(** [k] calls of [makeRequest] issued in the same tick, as [Promise.all]
    over a [map] does: each runs its test at once, and the records follow
    when the awaits resume. *)
Definition issuedTogether (k : nat) : list Event :=
  (Resume <$> seq 0 k) ++ (Resume <$> seq 0 k).

End RateLimiterShared.

(** ** services/maliciousPackageService.js: order of the merge, and the
    GitHub advisory collector *)

Module maliciousCollectors.
Import maliciousPackageService.

(** The keys of a list without their repetitions, each at the place of its
    first occurrence; [seen] holds the keys met so far. *)
Fixpoint distinct_in_order (seen ks : list string) : list string :=
  match ks with
  | [] => []
  | k :: ks' =>
      if includes k seen then distinct_in_order seen ks'
      else k :: distinct_in_order (seen ++ [k]) ks'
  end.

(** *** [collectFromGitHubAdvisories] *)

(** [vuln.package] *)
Record VulnPackage := mkVulnPackage {
  vp_ecosystem : option string;
  vp_name : option string
}.

(** One entry of [adv.vulnerabilities]; [av_first_patched] is
    [vuln.first_patched_version?.identifier]. *)
Record AdvisoryVulnerability := mkAdvisoryVulnerability {
  av_package : option VulnPackage;
  av_first_patched : option string;
  av_vulnerable_version_range : option string
}.

(** An advisory; [adv_vulnerabilities] is [None] when the property is not
    an array. *)
Record Advisory := mkAdvisory {
  adv_ghsa_id : option string;
  adv_cve_id : option string;
  adv_summary : option string;
  adv_severity : option string;
  adv_published_at : option string;
  adv_updated_at : option string;
  adv_vulnerabilities : option (list AdvisoryVulnerability)
}.

(** [a || b] on strings that may be absent. *)
Definition js_or_string (a b : option string) : option string :=
  if truthy_string a then a else b.

(** A property whose value is [undefined] or [null] carries no text and is
    left out of [details]. *)
Definition property (k : string) (v : option string) : list (string * string) :=
  match v with
  | Some s => [(k, s)]
  | None => []
  end.

(** The body of [adv.vulnerabilities.forEach]. *)
Definition recordOfVulnerability (adv : Advisory) (vuln : AdvisoryVulnerability)
    : list Package :=
  match av_package vuln with
  | Some package =>
      if (match vp_ecosystem package with
          | Some ecosystem => String.eqb ecosystem "npm"
          | None => false
          end) && truthy_string (vp_name package)
      then
        [mkPackage (default ""%string (vp_name package))
           (default ""%string
              (js_or_string (av_first_patched vuln)
                 (js_or_string (av_vulnerable_version_range vuln) (Some "all"%string))))
           "malicious" "github-advisory" High None
           (property "ghsaId" (adv_ghsa_id adv)
            ++ property "cveId" (adv_cve_id adv)
            ++ property "summary" (js_or_string (adv_summary adv) (Some ""%string))
            ++ property "severity"
                 (js_or_string (adv_severity adv) (Some "unknown"%string))
            ++ property "reportedAt"
                 (js_or_string (adv_published_at adv) (adv_updated_at adv)))]
      else []
  | None => []
  end.

(** The body of [response.data.forEach]. *)
Definition recordsOfAdvisory (adv : Advisory) : list Package :=
  match adv_vulnerabilities adv with
  | Some vulnerabilities => vulnerabilities ≫= recordOfVulnerability adv
  | None => []
  end.

Definition perPage : Z := 100.
Definition maxPages : Z := 10.

Section GitHubAdvisories.
(** What the request for a page ends with, retries included; [inr None] is
    a response whose [data] is missing or not an array. *)
Variable advisories : Z -> JsError + option (list Advisory).

(** The [while (page <= maxPages)] loop inside its [try]; the second
    component lists the pages requested. *)
Fixpoint advisoriesLoop (fuel : nat) (page : Z) (maliciousPackages : list Package)
    (requested : list Z) : option (list Package * list Z) :=
  match fuel with
  | O => None
  | S fuel' =>
      if page <=? maxPages then
        match advisories page with
        | inl error => Some (maliciousPackages, requested ++ [page])
        | inr None => Some (maliciousPackages, requested ++ [page])
        | inr (Some data) =>
            if (length data =? 0)%nat
            then Some (maliciousPackages, requested ++ [page])
            else
              let maliciousPackages :=
                maliciousPackages ++ (data ≫= recordsOfAdvisory) in
              if Z.of_nat (length data) <? perPage
              then Some (maliciousPackages, requested ++ [page])
              else advisoriesLoop fuel' (page + 1) maliciousPackages
                     (requested ++ [page])
        end
      else Some (maliciousPackages, requested)
  end.

Definition collectFromGitHubAdvisories (fuel : nat)
    : option (list Package * list Z) :=
  advisoriesLoop fuel 1 [] [].
End GitHubAdvisories.

(** What every record of the advisory collector looks like. *)
Definition from_advisory (r : Package) : Prop :=
  label r = "malicious"%string ∧ source r = "github-advisory"%string
  ∧ confidence r = High ∧ sources r = None
  ∧ name r ≠ ""%string ∧ version r ≠ ""%string.

End maliciousCollectors.

(** ** Vocabulary of the statements about version ranges *)

Module versionRanges.
Import dependenciesService.

Fixpoint all_digits (s : string) : bool :=
  match s with
  | EmptyString => true
  | String c s' => is_digit c && all_digits s'
  end.

(** A non-empty run of decimal digits: [\d+]. *)
Definition digits (s : string) : Prop := s ≠ ""%string ∧ all_digits s = true.

(** The strings that [/^\d+\.\d+\.\d+$/] matches. *)
Definition exact_version (s : string) : Prop :=
  ∃ major minor patch,
    digits major ∧ digits minor ∧ digits patch
    ∧ s = (major +:+ "." +:+ minor +:+ "." +:+ patch)%string.

(** The node that [buildDependencyTree] pushes for a direct dependency. *)
Definition nodeOf
    (fetchFromNpmRegistry : string -> string -> JsError + metadataService.Metadata)
    (packageName : string) (currentDepth : Z) (dep : Dependency)
    : TransitiveDependency :=
  mkTransitive (dep_name dep)
    (resolveVersion fetchFromNpmRegistry (dep_name dep) (dep_version dep))
    "transitive" (currentDepth + 1) packageName.

End versionRanges.

(** ** Vocabulary of the statements about the calls of the orchestrator *)

Module OrchestratorCalls.
Import Orchestrator.

Definition is_registry_fetch (c : Call) : bool :=
  match c with
  | FetchFromNpmRegistry _ _ => true
  | _ => false
  end.

Definition is_static_analysis (c : Call) : bool :=
  match c with
  | ExtractStaticAnalysisFeatures _ _ _ => true
  | _ => false
  end.

Definition is_package_service (c : Call) : bool :=
  match c with
  | CollectAllMaliciousPackages | CollectAllBenignPackages _ => true
  | _ => false
  end.

(** Every call that one collection can issue, in the order of the code. *)
Definition allCalls (packageName version : string)
    (metadata : metadataService.Metadata) : list Call :=
  [FetchFromNpmRegistry packageName version;
   aspect_call packageName metadata Dependencies;
   aspect_call packageName metadata Vulnerabilities;
   aspect_call packageName metadata GitHub;
   aspect_call packageName metadata StaticAnalysis;
   SaveToDatabase].

End OrchestratorCalls.

(** ** benignPackageService.js *)

Module benignPackageService.
Import maliciousPackageService.

Definition popularPackages : list string :=
  ["lodash"; "express"; "react"; "axios"; "moment"; "async";
   "chalk"; "commander"; "debug"; "fs-extra"; "glob"; "inquirer";
   "minimist"; "mkdirp"; "rimraf"; "semver"; "uuid"; "yargs";
   "winston"; "dotenv"; "cors"; "body-parser"; "cookie-parser";
   "helmet"; "morgan"; "compression"; "serve-static"]%string.

Definition verifiedOrganizations : list string :=
  ["@microsoft"; "@google"; "@facebook"; "@aws"; "@google-cloud";
   "@angular"; "@nestjs"; "@types"; "@babel"; "@eslint"]%string.

Definition curatedSafePackages : list string :=
  ["fs"; "path"; "http"; "https"; "crypto"; "util"; "events"; "stream";
   "lodash"; "underscore"; "ramda";
   "express"; "koa"; "fastify"; "hapi";
   "axios"; "node-fetch"; "request"]%string.

Definition orgPackagesMap : list (string * list string) :=
  [("@microsoft", ["typescript"; "@microsoft/typescript"]);
   ("@google", ["angular"; "@angular/core"]);
   ("@facebook", ["react"; "react-dom"]);
   ("@aws", ["aws-sdk"; "@aws-sdk/client-s3"]);
   ("@types", ["@types/node"; "@types/express"]);
   ("@babel", ["@babel/core"; "@babel/preset-env"]);
   ("@eslint", ["eslint"; "@eslint/js"])]%string.

Fixpoint assoc {A} (k : string) (m : list (string * A)) : option A :=
  match m with
  | [] => None
  | (k', v) :: m' => if String.eqb k k' then Some v else assoc k m'
  end.

(** [orgPackagesMap[org] || []], for the organisations the service passes. *)
Definition getKnownOrgPackages (org : string) : list string :=
  default [] (assoc org orgPackagesMap).

(** [Math.floor(count * 0.4)] and [Math.floor(count * 0.2)]: the doubles
    0.4 and 0.2 lie so little above 2/5 and 1/5 that, for an integer [count]
    below 2^50 in absolute value, the rounded product has the floor of the
    exact one. *)
Definition floor_of_two_fifths (count : Z) : Z := 2 * count / 5.
Definition floor_of_one_fifth (count : Z) : Z := count / 5.

Section Benign.
(** What the two requests end with: [response.data.downloads] and
    [response.data['dist-tags']?.latest], absent when [None].  The registry
    gives the same answer to the same question during one collection. *)
Variable downloads : string -> JsError + option Z.
Variable latest : string -> JsError + option string.

(** [getDownloadStats(packageName).lastMonth] *)
Definition getDownloadStats (packageName : string) : Z :=
  match downloads packageName with
  | inr count => default 0 (js_or_num count (Some 0))
  | inl error => 0
  end.

Definition getLatestVersion (packageName : string) : string :=
  match latest packageName with
  | inr version =>
      default "latest"%string
        (maliciousCollectors.js_or_string version (Some "latest"%string))
  | inl error => "latest"%string
  end.

Definition topDownloaded (packageName : string) : Package :=
  mkPackage packageName (getLatestVersion packageName) "benign" "top-downloaded"
    High None
    [("downloadCount"%string,
      pretty (default 0 (js_or_num (Some (getDownloadStats packageName)) (Some 0))))].

Definition getTopDownloadedPackages (limit : Z) : list Package :=
  topDownloaded <$> js_slice 0 limit popularPackages.

Definition verifiedOrg (org packageName : string) : Package :=
  mkPackage packageName (getLatestVersion packageName) "benign" "verified-org"
    High None [("organization"%string, org)].

(** [limit / this.verifiedOrganizations.length] may have a fraction, which
    [slice] drops (towards zero). *)
Definition getVerifiedOrgPackages (limit : Z) : list Package :=
  let packages :=
    verifiedOrganizations ≫=
      (λ org,
         verifiedOrg org
           <$> js_slice 0 (Z.quot limit (Z.of_nat (length verifiedOrganizations)))
                 (getKnownOrgPackages org)) in
  js_slice 0 limit packages.

Definition curatedSafe (packageName : string) : Package :=
  mkPackage packageName (getLatestVersion packageName) "benign" "manually-curated"
    VeryHigh None [].

Definition getCuratedSafePackages : list Package :=
  curatedSafe <$> curatedSafePackages.

(** [allPackages.filter(pkg => ...)] with the set [seen]. *)
Fixpoint keepFirst (seen : gset string) (allPackages : list Package) : list Package :=
  match allPackages with
  | [] => []
  | pkg :: rest =>
      let key := key pkg in
      if bool_decide (key ∈ seen) then keepFirst seen rest
      else pkg :: keepFirst ({[ key ]} ∪ seen) rest
  end.

Definition collectAllBenignPackages (count : Z) : list Package :=
  let topPackages := getTopDownloadedPackages (floor_of_two_fifths count) in
  let orgPackages := getVerifiedOrgPackages (floor_of_one_fifth count) in
  let curatedPackages := getCuratedSafePackages in
  let remaining :=
    count - Z.of_nat (length topPackages) - Z.of_nat (length orgPackages)
    - Z.of_nat (length curatedPackages) in
  let additionalTopPackages :=
    if 0 <? remaining then getTopDownloadedPackages remaining else [] in
  let allPackages :=
    topPackages ++ orgPackages ++ curatedPackages ++ additionalTopPackages in
  let deduplicated := keepFirst ∅ allPackages in
  js_slice 0 count deduplicated.

(** The same without the step that fills up with more top packages. *)
Definition withoutFill (count : Z) : list Package :=
  js_slice 0 count
    (keepFirst ∅
       (getTopDownloadedPackages (floor_of_two_fifths count)
        ++ getVerifiedOrgPackages (floor_of_one_fifth count)
        ++ getCuratedSafePackages)).
End Benign.

(** What every record of the service looks like. *)
Definition wellFormed (latest : string -> JsError + option string) (p : Package)
    : Prop :=
  version p = getLatestVersion latest (name p)
  ∧ label p = "benign"%string ∧ sources p = None
  ∧ name p ∈ popularPackages ++ (orgPackagesMap ≫= snd) ++ curatedSafePackages.

(** The names the service knows, each once. *)
Definition knownNames : list string :=
  maliciousCollectors.distinct_in_order []
    (popularPackages ++ (orgPackagesMap ≫= snd) ++ curatedSafePackages).

End benignPackageService.

(** ** collectionController.js: the batch endpoint *)

Module collectionController.
Import metadataService Orchestrator.

(** [req.body]; [body_packages] is [None] when [packages] is missing or
    is not an array. *)
Record BatchBody := mkBatchBody {
  body_packages : option (list Item);
  body_concurrency : option Z;
  body_includeStaticAnalysis : option bool;
  body_includeGitHubData : option bool;
  body_includeVulnerabilities : option bool;
  body_includeDependencies : option bool
}.

Inductive Reply :=
| BadRequest (error : string)
| Success (result : BatchResult).

Section Controller.
Variable fetchFromNpmRegistry : string -> string -> JsError + Metadata.
Variable fetchDependencies : string -> string -> JsError + Payload.
Variable getVulnerabilities : string -> string -> string -> JsError + Payload.
Variable getPackageGitHubData : Metadata -> JsError + Payload.
Variable extractStaticAnalysisFeatures :
  string -> string -> string -> JsError + Payload.
Variable now : string.
(** The order in which the answers arrive within each group of the batch. *)
Variable schedule : Z -> list nat.

(** The options object the controller hands to the orchestrator. *)
Definition batchOptions (body : BatchBody) : BatchOptions :=
  mkBatchOptions (Some (default 5 (body_concurrency body)))
    (mkCollectOptions
       (Some (default false (body_includeStaticAnalysis body)))
       (Some (default true (body_includeGitHubData body)))
       (Some (default true (body_includeVulnerabilities body)))
       None).

(** The orchestrator of the controller is built without a database, and
    its [batchCollectPackages] does not throw. *)
Definition batchCollectPackages (fuel : nat) (body : BatchBody) (t : list Call)
    : option (Reply * list Call) :=
  match body_packages body with
  | None | Some [] =>
      Some (BadRequest "packages array is required in request body", t)
  | Some packages =>
      match Orchestrator.batchCollectPackages fetchFromNpmRegistry
              fetchDependencies getVulnerabilities getPackageGitHubData
              extractStaticAnalysisFeatures now false schedule
              fuel packages (batchOptions body) t with
      | Some (result, t') => Some (Success result, t')
      | None => None
      end
  end.
End Controller.

End collectionController.

(** * Concrete scenarios *)

Module Scenario.
Import RateLimiterJs.

Definition noOptions : RetryOptions := mkRetryOptions None None None None.

Definition tooManyRequests (retryAfter : option string) : ApiError :=
  mkApiError "Request failed with status code 429"
    (Some (mkResponse (Some 429)
             (match retryAfter with
              | Some s => {[ "retry-after"%string := s ]}
              | None => ∅
              end)))
    None.

Definition serviceUnavailable : ApiError :=
  mkApiError "Request failed with status code 503"
    (Some (mkResponse (Some 503) ∅)) None.

(** Fails with the given errors, then answers ["ok"]. *)
Definition scripted (es : list ApiError) (n : nat) : ApiError + string :=
  match es !! n with
  | Some e => inl e
  | None => inr "ok"%string
  end.

(** A 429 carrying [Retry-After: 60], then a 503 without the header. *)
Definition hinted : list ApiError :=
  [tooManyRequests (Some "60"%string); serviceUnavailable].

(** The same failures, none carrying the header. *)
Definition unhinted : list ApiError :=
  [tooManyRequests None; serviceUnavailable].

(** A registry with two packages that depend on each other. *)
Definition registry (packageName version : string)
    : JsError + metadataService.Metadata :=
  if String.eqb packageName "a" then
    inr (metadataService.mkMetadata "a" "1.0.0" None
           {[ "1.0.0"%string :=
                metadataService.mkVersionData
                  (Some [("b", "^2.0.0")]%string) None None ]})
  else if String.eqb packageName "b" then
    inr (metadataService.mkMetadata "b" "2.0.0" None
           {[ "2.0.0"%string :=
                metadataService.mkVersionData
                  (Some [("a", "1.0.0"); ("c", "~3.1.0")]%string) None None ]})
  else inl (mkError ("Package " +:+ packageName +:+ " not found")).

(** The registry's answer for left-pad, with and without [repository]. *)
Definition leftPad (repository : option metadataService.RepositoryField)
    : metadataService.Metadata :=
  metadataService.mkMetadata "left-pad" "1.3.0" repository
    {[ "1.3.0"%string := metadataService.mkVersionData None None None ]}.

Definition malformed {A} : JsError + A :=
  inl (mkError "Unexpected response shape").

Definition everythingOn : Orchestrator.CollectOptions :=
  Orchestrator.mkCollectOptions (Some true) (Some true) (Some true) (Some true).

(** The options of the specification's scenario. *)
Definition dependenciesAndVulnerabilities : Orchestrator.CollectOptions :=
  Orchestrator.mkCollectOptions (Some false) (Some false) (Some true) (Some true).

(** Collection against a registry that knows [leftPad repository] only, a
    dependency service that fails and the other services answering. *)
Definition collectLeftPad (repository : option metadataService.RepositoryField)
    : string -> string -> Orchestrator.CollectOptions
      -> Orchestrator.M Orchestrator.CollectionResult :=
  Orchestrator.collectPackageData
    (λ packageName version,
       if String.eqb packageName "left-pad" then inr (leftPad repository)
       else inl (mkError ("Package " +:+ packageName +:+ " not found")))
    (λ _ _, malformed)
    (λ _ _ _, inr "{vulnerabilities: []}"%string)
    (λ _, inr "{stars: 1}"%string)
    (λ _ _ _, inr "{features: []}"%string)
    "2024-01-01T00:00:00.000Z" false.

(** A batch of five packages, the third of which the registry does not
    know; every other service answers. *)
Definition fiveItems : list Orchestrator.Item :=
  [Orchestrator.mkItem "a" "1.0.0"; Orchestrator.mkItem "b" "2.0.0";
   Orchestrator.mkItem "c" "3.0.0"; Orchestrator.mkItem "d" "4.0.0";
   Orchestrator.mkItem "e" "5.0.0"].

Definition registryWithoutC (packageName version : string)
    : JsError + metadataService.Metadata :=
  if String.eqb packageName "c"
  then inl (mkError "Package c not found")
  else inr (metadataService.mkMetadata packageName version None ∅).

(** In every group the answers for the second package arrive before those
    for the first. *)
Definition secondFirst (i : Z) : list nat := [1; 1; 0; 1; 0; 1; 0; 0]%nat.

Definition batchOf (fuel : nat) (items : list Orchestrator.Item)
    (options : Orchestrator.BatchOptions)
    : option (Orchestrator.BatchResult * list Orchestrator.Call) :=
  Orchestrator.batchCollectPackages registryWithoutC
    (λ _ _, inr "{dependencies: []}"%string)
    (λ _ _ _, inr "{vulnerabilities: []}"%string)
    (λ _, inr "{stars: 1}"%string)
    (λ _ _ _, inr "{features: []}"%string)
    "2024-01-01T00:00:00.000Z" false secondFirst fuel items options [].

(** Twelve malicious packages, all known to the registry. *)
Definition twelve : list maliciousPackageService.Package :=
  (λ n, maliciousPackageService.mkPackage n "all" "malicious" "osv"
          maliciousPackageService.Medium (Some ["osv"%string]) [])
    <$> ["p01"; "p02"; "p03"; "p04"; "p05"; "p06";
         "p07"; "p08"; "p09"; "p10"; "p11"; "p12"]%string.

Definition trainingRun (options : Orchestrator.TrainingOptions)
    : Orchestrator.M Orchestrator.TrainingResult :=
  Orchestrator.collectLabeledTrainingData registryWithoutC
    (λ _ _, inr "{dependencies: []}"%string)
    (λ _ _ _, inr "{vulnerabilities: []}"%string)
    (λ _, inr "{stars: 1}"%string)
    (λ _ _ _, inr "{features: []}"%string)
    (inr twelve) (λ _, inr [])
    "2024-01-01T00:00:00.000Z" false options.

(** Package records as the collectors build them. *)
Definition curated : maliciousPackageService.Package :=
  maliciousPackageService.mkPackage "lodash" "4.17.21" "benign" "manually-curated"
    maliciousPackageService.VeryHigh None [].

Definition topDownloaded : maliciousPackageService.Package :=
  maliciousPackageService.mkPackage "lodash" "4.17.21" "benign" "top-downloaded"
    maliciousPackageService.High None [("downloadCount", "1000")]%string.

Definition fromOsv : maliciousPackageService.Package :=
  maliciousPackageService.mkPackage "evil-pkg" "all" "malicious" "osv"
    maliciousPackageService.Medium None [("vulnId", "MAL-2024-1")]%string.

Definition fromResearch : maliciousPackageService.Package :=
  maliciousPackageService.mkPackage "evil-pkg" "all" "malicious"
    "research-backstabbers-knife-collection"
    maliciousPackageService.High None [].

(** A second record of the same source and key with another confidence. *)
Definition fromOsvHigh : maliciousPackageService.Package :=
  maliciousPackageService.mkPackage "evil-pkg" "all" "malicious" "osv"
    maliciousPackageService.High None [("vulnId", "MAL-2024-2")]%string.

End Scenario.

(** * Further scenarios *)

Module Sample.
Import RateLimiterJs.

Definition notFound : ApiError :=
  mkApiError "Request failed with status code 404"
    (Some (mkResponse (Some 404) ∅)) None.

(** A limiter of capacity 2 whose window of one second is full. *)
Definition fullLimiter : Limiter := mkLimiter 2 1000 [100; 400] 500 [].

(** Two pages of advisories: a full first page, a short second one. *)
Definition malwareAdvisory : maliciousCollectors.Advisory :=
  maliciousCollectors.mkAdvisory (Some "GHSA-xxxx"%string) None
    (Some "Malware in evil-pkg"%string) (Some "critical"%string)
    (Some "2024-01-01"%string) None
    (Some [maliciousCollectors.mkAdvisoryVulnerability
             (Some (maliciousCollectors.mkVulnPackage (Some "npm"%string)
                      (Some "evil-pkg"%string)))
             None (Some ">= 0"%string)]).

Definition advisoryPages (page : Z) : JsError + option (list maliciousCollectors.Advisory) :=
  if page =? 1 then inr (Some (replicate 100 malwareAdvisory))
  else if page =? 2 then inr (Some [malwareAdvisory])
  else inl (mkError "Request failed with status code 403").

(** A registry that answers every question about downloads and versions,
    except for [moment]. *)
Definition downloadCounts (packageName : string) : JsError + option Z :=
  if String.eqb packageName "moment"
  then inl (mkError "Request failed with status code 404")
  else inr (Some 1000).

Definition latestVersions (packageName : string) : JsError + option string :=
  if String.eqb packageName "moment"
  then inl (mkError "Request failed with status code 404")
  else inr (Some "1.0.0"%string).



End Sample.

(** * Proofs *)

(** ** [apiCallWithRetry] *)

Section RetryProofs.
Import RateLimiterJs.
Context {V : Type}.
Variable apiCall : nat -> ApiError + V.
Variable options : RetryOptions.

Lemma retryLoop_succeeds (es : list ApiError) (v : V) :
  ∀ (fuel : nat) (attempt : Z) last (w : RetryWorld),
    (∀ (i : nat) e, es !! i = Some e →
       apiCall (calls w + i) = inl e ∧ shouldRetry options e = true) →
    apiCall (calls w + length es) = inr v →
    attempt + Z.of_nat (length es) <= maxRetries options →
    (length es < fuel)%nat →
    retryLoop apiCall options fuel attempt last w
    = Some (Returned v,
            mkRetryWorld (calls w + S (length es))
              (sleeps w ++ imap (λ i e, finalDelay options (attempt + Z.of_nat i) e) es)).
Proof.
  induction es as [|e es IH]; intros fuel attempt last w Hfail Hok Hle Hfuel.
  - destruct fuel as [|fuel]; [simpl in Hfuel; lia|].
    simpl in *. rewrite Nat.add_0_r in Hok.
    destruct (Z.leb_spec attempt (maxRetries options)); [|lia].
    rewrite Hok. rewrite app_nil_r. do 3 f_equal. lia.
  - destruct fuel as [|fuel]; [simpl in Hfuel; lia|].
    cbn [retryLoop invoke].
    destruct (Z.leb_spec attempt (maxRetries options)); [|simpl in Hle; lia].
    destruct (Hfail 0%nat e eq_refl) as [Hcall Hretry].
    rewrite Nat.add_0_r in Hcall. rewrite Hcall, Hretry. simpl negb.
    destruct (Z.leb_spec (maxRetries options) attempt); [simpl in Hle; lia|].
    simpl orb. cbv iota.
    rewrite IH.
    + simpl. f_equal. f_equal. f_equal; [lia|].
      rewrite <- app_assoc. simpl. rewrite Z.add_0_r. do 2 f_equal.
      apply imap_ext. intros i x _. simpl. f_equal. lia.
    + intros i x Hi. cbn [calls sleep].
      replace (S (calls w) + i)%nat with (calls w + S i)%nat by lia.
      apply Hfail. exact Hi.
    + cbn [calls sleep]. replace (S (calls w) + length es)%nat
        with (calls w + length (e :: es))%nat by (simpl; lia). exact Hok.
    + simpl in Hle. lia.
    + simpl in Hfuel. simpl. lia.
Qed.

Lemma backoffDelay_mono (a b : Z) :
  0 <= baseDelay options → 1 <= a <= b →
  backoffDelay options a <= backoffDelay options b.
Proof.
  intros Hbase Hab. unfold backoffDelay.
  apply Z.min_le_compat_r.
  apply Z.mul_le_mono_nonneg_l; [exact Hbase|].
  apply Z.pow_le_mono_r; lia.
Qed.

Lemma backoffDelay_le_max (a : Z) : backoffDelay options a <= maxDelay options.
Proof. unfold backoffDelay. lia. Qed.

Lemma finalDelay_no_hint (a : Z) (e : ApiError) :
  truthy_string (retryAfterHeader e) = false →
  finalDelay options a e = Num (backoffDelay options a).
Proof. intros H. unfold finalDelay. rewrite H. reflexivity. Qed.
End RetryProofs.

(** C4 (as stated, refuted).  A 429 answered with [Retry-After: 60] and
    then a 503 without the header, followed by a success, with the default
    options (maxRetries 3, baseDelay 1000, maxDelay 30000): the executor
    returns the success value after two retries, but it sleeps 60000 ms and
    then 2000 ms; the delays neither stay below [maxDelay] nor are they
    non-decreasing. *)
Lemma retry_after_hint_breaks_delay_bounds :
  RateLimiterJs.failsThenSucceeds (Scenario.scripted Scenario.hinted)
    Scenario.hinted "ok"%string
  ∧ Forall (λ e, RateLimiterJs.defaultShouldRetry e = true) Scenario.hinted
  ∧ Z.of_nat (length Scenario.hinted) < RateLimiterJs.maxRetries Scenario.noOptions
  ∧ ∃ w, RateLimiterJs.apiCallWithRetry (Scenario.scripted Scenario.hinted)
           Scenario.noOptions 3
         = Some (RateLimiterJs.Returned "ok"%string, w)
       ∧ RateLimiterJs.sleeps w = [Num 60000; Num 2000]
       ∧ ¬ RateLimiterJs.nondecreasing (RateLimiterJs.sleeps w)
       ∧ ¬ RateLimiterJs.bounded_by (RateLimiterJs.maxDelay Scenario.noOptions)
             (RateLimiterJs.sleeps w).
Proof.
  split; [|split; [|split]].
  - split.
    + intros [|[|i]] e He; simpl in He; inversion He; reflexivity.
    + reflexivity.
  - repeat constructor.
  - vm_compute. reflexivity.
  - eexists. split; [vm_compute; reflexivity|].
    cbn [RateLimiterJs.sleeps]. split; [reflexivity|]. split.
    + intros Hmono.
      specialize (Hmono 0%nat 1%nat (Num 60000) (Num 2000)).
      simpl in Hmono. specialize (Hmono ltac:(lia) eq_refl eq_refl). lia.
    + intros Hb. specialize (Hb (Num 60000)).
      assert (Hin : Num 60000 ∈ [Num 60000; Num 2000]) by (left).
      specialize (Hb Hin). vm_compute in Hb. apply Hb. reflexivity.
Qed.

(** C4 (amended).  A callable that fails [k] times with a 429 or 5xx error
    and then succeeds, with [k < maxRetries] and the default [shouldRetry]:
    the executor returns the success value after exactly [k + 1] invocations
    and [k] sleeps.  The sleep after the failure of attempt [i + 1] lasts
    [parseInt(header) * 1000] when that failure carries a [Retry-After]
    header, and [min (baseDelay * 2 ^ i) maxDelay] otherwise.  When no
    failure carries the header and [baseDelay] is not negative, the delays
    are non-decreasing and each is at most [maxDelay]. *)
Theorem apiCallWithRetry_returns_after_k_retries {V : Type}
    (apiCall : nat -> RateLimiterJs.ApiError + V)
    (options : RateLimiterJs.RetryOptions)
    (es : list RateLimiterJs.ApiError) (v : V) (fuel : nat) :
  RateLimiterJs.failsThenSucceeds apiCall es v →
  RateLimiterJs.opt_shouldRetry options = None →
  Forall (λ e, RateLimiterJs.defaultShouldRetry e = true) es →
  Z.of_nat (length es) < RateLimiterJs.maxRetries options →
  (length es < fuel)%nat →
  ∃ w, RateLimiterJs.apiCallWithRetry apiCall options fuel
       = Some (RateLimiterJs.Returned v, w)
     ∧ RateLimiterJs.calls w = S (length es)
     ∧ length (RateLimiterJs.sleeps w) = length es
     ∧ (∀ (i : nat) e,
          es !! i = Some e →
          RateLimiterJs.sleeps w !! i
          = Some (match RateLimiterJs.retryAfterHeader e with
                  | Some header =>
                      if String.eqb header ""
                      then Num (Z.min (RateLimiterJs.baseDelay options * 2 ^ Z.of_nat i)
                                  (RateLimiterJs.maxDelay options))
                      else jsnum_mul (parseInt header) 1000
                  | None =>
                      Num (Z.min (RateLimiterJs.baseDelay options * 2 ^ Z.of_nat i)
                             (RateLimiterJs.maxDelay options))
                  end))
     ∧ (Forall (λ e, truthy_string (RateLimiterJs.retryAfterHeader e) = false) es →
        0 <= RateLimiterJs.baseDelay options →
        RateLimiterJs.nondecreasing (RateLimiterJs.sleeps w)
        ∧ RateLimiterJs.bounded_by (RateLimiterJs.maxDelay options)
            (RateLimiterJs.sleeps w)).
Proof.
  intros [Hfail Hok] Hdefault Hretry Hk Hfuel.
  unfold RateLimiterJs.apiCallWithRetry.
  eexists. split.
  - apply (retryLoop_succeeds apiCall options es v); cbn [RateLimiterJs.calls].
    + intros i e Hi. split; [apply Hfail; exact Hi|].
      unfold RateLimiterJs.shouldRetry. rewrite Hdefault. simpl.
      rewrite Forall_forall in Hretry. apply Hretry.
      eapply list_elem_of_lookup_2. exact Hi.
    + exact Hok.
    + lia.
    + exact Hfuel.
  - cbn [RateLimiterJs.calls RateLimiterJs.sleeps]. split; [reflexivity|].
    rewrite app_nil_l. split; [apply length_imap|].
    split.
    { intros i e He. rewrite list_lookup_imap, He. cbn [fmap option_fmap option_map].
      f_equal. unfold RateLimiterJs.finalDelay, RateLimiterJs.backoffDelay, truthy_string.
      replace (1 + Z.of_nat i - 1) with (Z.of_nat i) by lia.
      destruct (RateLimiterJs.retryAfterHeader e) as [header|]; [|reflexivity].
      cbn [default]. destruct (String.eqb header ""); reflexivity. }
    intros Hnohint Hbase.
    rewrite Forall_forall in Hnohint.
    assert (Hlook : ∀ (i : nat) d,
              imap (λ (i : nat) e,
                      RateLimiterJs.finalDelay options (1 + Z.of_nat i) e) es !! i
              = Some d →
              d = Num (RateLimiterJs.backoffDelay options (1 + Z.of_nat i))).
    { intros i d Hd. rewrite list_lookup_imap in Hd.
      destruct (es !! i) as [e|] eqn:He; simpl in Hd; [|discriminate].
      inversion Hd; subst. apply finalDelay_no_hint. apply Hnohint.
      eapply list_elem_of_lookup_2. exact He. }
    split.
    + intros i j a b Hij Ha Hb.
      apply Hlook in Ha. apply Hlook in Hb. subst. simpl.
      apply backoffDelay_mono; [exact Hbase|lia].
    + intros d Hd. apply list_elem_of_lookup in Hd as [i Hi].
      apply Hlook in Hi. subst. simpl. apply backoffDelay_le_max.
Qed.

Lemma apiCallWithRetry_returns_after_k_retries_witness :
  ∃ w, RateLimiterJs.apiCallWithRetry (Scenario.scripted Scenario.unhinted)
         Scenario.noOptions 3
       = Some (RateLimiterJs.Returned "ok"%string, w)
     ∧ RateLimiterJs.calls w = 3%nat
     ∧ length (RateLimiterJs.sleeps w) = 2%nat
     ∧ RateLimiterJs.sleeps w !! 0%nat = Some (Num 1000)
     ∧ RateLimiterJs.sleeps w !! 1%nat = Some (Num 2000)
     ∧ RateLimiterJs.nondecreasing (RateLimiterJs.sleeps w)
     ∧ RateLimiterJs.bounded_by 30000 (RateLimiterJs.sleeps w).
Proof.
  destruct (apiCallWithRetry_returns_after_k_retries
              (Scenario.scripted Scenario.unhinted)
              Scenario.noOptions Scenario.unhinted "ok"%string 3%nat)
    as (w & Hrun & Hcalls & Hlen & Heach & Hdelays).
  - split.
    + intros [|[|i]] e He; simpl in He; inversion He; reflexivity.
    + reflexivity.
  - reflexivity.
  - repeat constructor.
  - vm_compute. reflexivity.
  - simpl. lia.
  - exists w. split; [exact Hrun|]. split; [exact Hcalls|]. split; [exact Hlen|].
    split; [etrans; [exact (Heach 0%nat (Scenario.tooManyRequests None) eq_refl)|];
            vm_compute; reflexivity|].
    split; [etrans; [exact (Heach 1%nat Scenario.serviceUnavailable eq_refl)|];
            vm_compute; reflexivity|].
    apply Hdelays.
    + repeat constructor.
    + vm_compute. discriminate.
Defined.

(** ** [RateLimiter] *)

Section LimiterProofs.
Import RateLimiterJs.

Lemma fold_min_le (l : list Z) : ∀ a,
  fold_left Z.min l a <= a ∧ ∀ t, t ∈ l → fold_left Z.min l a <= t.
Proof.
  induction l as [|x l IH]; intros a; simpl.
  - split; [lia|]. intros t Ht. inversion Ht.
  - destruct (IH (Z.min a x)) as [H1 H2]. split; [lia|].
    intros t Ht. apply elem_of_cons in Ht as [->|Ht]; [lia|]. apply H2, Ht.
Qed.

Lemma fold_min_in (l : list Z) : ∀ a,
  fold_left Z.min l a = a ∨ fold_left Z.min l a ∈ l.
Proof.
  induction l as [|x l IH]; intros a; simpl; [left; reflexivity|].
  destruct (IH (Z.min a x)) as [H|H].
  - rewrite H. destruct (Z.min_spec a x) as [[_ ->]|[_ ->]]; [left; reflexivity|].
    right. left.
  - right. right. exact H.
Qed.

Lemma Math_min_least (xs : list Z) (lo : Z) :
  lo ∈ xs → (∀ t, t ∈ xs → lo <= t) → Math_min xs = Some lo.
Proof.
  intros Hin Hlo. destruct xs as [|x xs]; [inversion Hin|].
  simpl. f_equal.
  destruct (fold_min_le xs x) as [H1 H2].
  assert (Hle : fold_left Z.min xs x <= lo).
  { apply elem_of_cons in Hin as [->|Hin]; [exact H1|apply H2, Hin]. }
  assert (Hge : lo <= fold_left Z.min xs x).
  { destruct (fold_min_in xs x) as [->|H].
    - apply Hlo. left.
    - apply Hlo. right. exact H. }
  lia.
Qed.

Lemma filter_all {A} (f : A -> bool) (l : list A) :
  (∀ x, x ∈ l → f x = true) → List.filter f l = l.
Proof.
  induction l as [|x l IH]; intros H; simpl; [reflexivity|].
  rewrite (H x) by left. f_equal. apply IH. intros y Hy. apply H. right. exact Hy.
Qed.

Lemma filter_length_le {A} (f : A -> bool) (l : list A) :
  (length (List.filter f l) <= length l)%nat.
Proof.
  induction l as [|x l IH]; simpl; [lia|]. destruct (f x); simpl; lia.
Qed.

Lemma filter_length_lt {A} (f : A -> bool) (l : list A) (x : A) :
  x ∈ l → f x = false → (length (List.filter f l) < length l)%nat.
Proof.
  induction l as [|y l IH]; intros Hin Hf; [inversion Hin|].
  simpl. apply elem_of_cons in Hin as [<-|Hin].
  - rewrite Hf. pose proof (filter_length_le f l). lia.
  - specialize (IH Hin Hf). destruct (f y); simpl; lia.
Qed.





(** An admission that finds the window full sleeps once, until the oldest
    timestamp leaves the window. *)
Lemma acquireSlot_full (fuel : nat) (l : Limiter) (lo : Z) :
  (2 <= fuel)%nat →
  Z.of_nat (length (requests l)) = requestsPerWindow l →
  lo ∈ requests l →
  (∀ t, t ∈ requests l → lo <= t <= clock l) →
  clock l - lo < windowMs l →
  ∃ l', acquireSlot fuel l = Some l'
      ∧ slept l' = slept l ++ [lo + windowMs l - clock l].
Proof.
  intros Hfuel Hfull Hin Hreq Hwin.
  destruct fuel as [|[|fuel]]; [lia|lia|].
  destruct l as [cap win rs now sl].
  cbn [requests clock windowMs requestsPerWindow slept] in *.
  assert (Hkeep : List.filter (λ t, now - t <? win) rs = rs).
  { apply filter_all. intros t Ht. apply Hreq in Ht. apply Z.ltb_lt. lia. }
  unfold acquireSlot.
  cbn [waitUntilCanRequest getTimeUntilNextRequest canMakeRequest
       clock windowMs requests requestsPerWindow set_requests slept].
  rewrite !Hkeep.
  destruct (Z.ltb_spec (Z.of_nat (length rs)) cap); [lia|].
  rewrite (Math_min_least rs lo Hin) by (intros t Ht; apply Hreq, Ht).
  replace (Z.max 0 (lo + win - now)) with (lo + win - now) by lia.
  destruct (Z.ltb_spec 0 (lo + win - now)); [|lia].
  unfold set_requests, limiterSleep.
  cbn [clock windowMs requests requestsPerWindow slept].
  pose proof (filter_length_lt (λ t, now + (lo + win - now) - t <? win) rs lo Hin) as Hlt.
  destruct (Z.ltb_spec
              (Z.of_nat (length (List.filter
                 (λ t, now + (lo + win - now) - t <? win) rs))) cap) as [_|Hge].
  - eexists. split; [reflexivity|]. reflexivity.
  - exfalso.
    assert (Hf : (now + (lo + win - now) - lo <? win) = false) by (apply Z.ltb_ge; lia).
    specialize (Hlt Hf). lia.
Qed.
End LimiterProofs.






(** ** [deduplicatePackages] *)

Section DedupProofs.
Import maliciousPackageService.

Lemma includes_spec (s : string) (l : list string) :
  includes s l = true ↔ s ∈ l.
Proof.
  unfold includes. rewrite existsb_exists. split.
  - intros (x & Hx & He). apply String.eqb_eq in He. subst.
    apply list_elem_of_In. exact Hx.
  - intros H. exists s. split; [apply list_elem_of_In, H|apply String.eqb_refl].
Qed.

Lemma map_has_get (k : string) (m : list (string * Package)) :
  map_has k m = match map_get k m with Some _ => true | None => false end.
Proof.
  induction m as [|[k' v] m IH]; simpl; [reflexivity|].
  destruct (String.eqb k k'); [reflexivity|exact IH].
Qed.

Lemma map_get_snoc (k k' : string) (v : Package) (m : list (string * Package)) :
  map_get k (m ++ [(k', v)])
  = match map_get k m with
    | Some e => Some e
    | None => if String.eqb k k' then Some v else None
    end.
Proof.
  induction m as [|[k0 v0] m IH]; simpl; [reflexivity|].
  destruct (String.eqb k k0); [reflexivity|exact IH].
Qed.

Lemma map_get_update (k k' : string) (f : Package -> Package)
    (m : list (string * Package)) :
  map_get k (map_update k' f m)
  = if String.eqb k k' then f <$> map_get k m else map_get k m.
Proof.
  induction m as [|[k0 v0] m IH]; simpl.
  - destruct (String.eqb k k'); reflexivity.
  - destruct (String.eqb_spec k' k0) as [->|Hne]; simpl.
    + destruct (String.eqb k k0); reflexivity.
    + rewrite IH. destruct (String.eqb_spec k k0) as [->|Hne'].
      * destruct (String.eqb_spec k0 k'); [congruence|reflexivity].
      * reflexivity.
Qed.

Lemma step_get (k : string) (m : list (string * Package)) (p : Package) :
  map_get k (dedup_step m p)
  = if String.eqb k (key p)
    then Some (match map_get k m with
               | Some e => absorb p e
               | None => set_sources [source p] p
               end)
    else map_get k m.
Proof.
  unfold dedup_step. rewrite map_has_get.
  destruct (map_get (key p) m) as [e|] eqn:Hget; simpl.
  - rewrite map_get_update.
    destruct (String.eqb_spec k (key p)) as [->|Hne]; [|reflexivity].
    rewrite Hget. reflexivity.
  - rewrite map_get_snoc.
    destruct (String.eqb_spec k (key p)) as [->|Hne].
    + rewrite Hget. reflexivity.
    + destruct (map_get k m); reflexivity.
Qed.

Lemma records_of_snoc (k : string) (l : list Package) (p : Package) :
  records_of k (l ++ [p])
  = records_of k l ++ (if String.eqb (key p) k then [p] else []).
Proof.
  unfold records_of. rewrite List.filter_app. simpl.
  destruct (String.eqb (key p) k); reflexivity.
Qed.

Lemma fold_get (k : string) (l : list Package) :
  map_get k (fold_left dedup_step l []) = merged k l.
Proof.
  induction l as [|p l IH] using rev_ind; [reflexivity|].
  rewrite fold_left_app. simpl. rewrite step_get, IH.
  unfold merged. rewrite records_of_snoc.
  destruct (String.eqb_spec k (key p)) as [->|Hne].
  - rewrite String.eqb_refl.
    destruct (records_of (key p) l) as [|p0 qs]; simpl; [reflexivity|].
    rewrite fold_left_app. reflexivity.
  - destruct (String.eqb_spec (key p) k) as [He|_]; [congruence|].
    rewrite app_nil_r. reflexivity.
Qed.

(** Keys are unique in the map. *)
Lemma map_update_keys (k : string) (f : Package -> Package)
    (m : list (string * Package)) :
  (map_update k f m).*1 = m.*1.
Proof.
  induction m as [|[k0 v0] m IH]; simpl; [reflexivity|].
  destruct (String.eqb k k0); csimpl; [reflexivity|]. rewrite IH. reflexivity.
Qed.

Lemma map_get_None (k : string) (m : list (string * Package)) :
  map_get k m = None ↔ k ∉ m.*1.
Proof.
  induction m as [|[k0 v0] m IH]; simpl.
  - split; [intros _ H; inversion H|reflexivity].
  - rewrite not_elem_of_cons. destruct (String.eqb_spec k k0) as [->|Hne].
    + split; [discriminate|]. intros [H _]. congruence.
    + rewrite IH. tauto.
Qed.

Lemma step_keys_NoDup (m : list (string * Package)) (p : Package) :
  NoDup m.*1 → NoDup (dedup_step m p).*1.
Proof.
  intros Hnd. unfold dedup_step. rewrite map_has_get.
  destruct (map_get (key p) m) eqn:Hget; cbn [negb].
  - rewrite map_update_keys. exact Hnd.
  - rewrite fmap_app. csimpl. apply NoDup_app. split; [exact Hnd|].
    split; [|apply NoDup_singleton].
    intros x Hx Hin. apply list_elem_of_singleton in Hin. subst.
    apply map_get_None in Hget. contradiction.
Qed.

Lemma fold_keys_NoDup (l : list Package) :
  NoDup (fold_left dedup_step l []).*1.
Proof.
  induction l as [|p l IH] using rev_ind; [constructor|].
  rewrite fold_left_app. simpl. apply step_keys_NoDup, IH.
Qed.

Lemma map_get_elem (k : string) (r : Package) (m : list (string * Package)) :
  NoDup m.*1 → ((k, r) ∈ m ↔ map_get k m = Some r).
Proof.
  induction m as [|[k0 v0] m IH]; simpl; intros Hnd.
  - split; [intros H; inversion H|discriminate].
  - apply NoDup_cons in Hnd as [Hnotin Hnd]. rewrite elem_of_cons.
    destruct (String.eqb_spec k k0) as [->|Hne].
    + split.
      * intros [H|H]; [congruence|].
        exfalso. apply Hnotin. apply list_elem_of_fmap. exists (k0, r). split; [reflexivity|exact H].
      * intros H. left. congruence.
    + rewrite <- (IH Hnd). split; [intros [H|H]; [congruence|exact H]|intros H; right; exact H].
Qed.

Lemma elem_of_dedup (r : Package) (l : list Package) :
  r ∈ deduplicatePackages l ↔ ∃ k, merged k l = Some r.
Proof.
  unfold deduplicatePackages. rewrite list_elem_of_fmap. split.
  - intros ([k r'] & -> & Hin). exists k. rewrite <- fold_get.
    apply map_get_elem; [apply fold_keys_NoDup|exact Hin].
  - intros (k & Hm). exists (k, r). split; [reflexivity|].
    apply map_get_elem; [apply fold_keys_NoDup|]. rewrite fold_get. exact Hm.
Qed.

(** *** One key at a time *)

Lemma add_source_length (ss : list string) (s : string) :
  (length ss <= length (add_source ss s))%nat.
Proof.
  unfold add_source. destruct (includes s ss); [lia|]. rewrite length_app. lia.
Qed.

Lemma fold_add_length (xs : list string) : ∀ ss,
  (length ss <= length (fold_left add_source xs ss))%nat.
Proof.
  induction xs as [|x xs IH]; intros ss; simpl; [lia|].
  pose proof (add_source_length ss x). pose proof (IH (add_source ss x)). lia.
Qed.

Lemma add_source_elem (ss : list string) (s x : string) :
  x ∈ add_source ss s ↔ x ∈ ss ∨ x = s.
Proof.
  unfold add_source. destruct (includes s ss) eqn:Hinc.
  - apply includes_spec in Hinc. split; [auto|]. intros [H| ->]; assumption.
  - rewrite elem_of_app, list_elem_of_singleton. reflexivity.
Qed.

Lemma fold_add_elem (xs : list string) : ∀ ss x,
  x ∈ fold_left add_source xs ss ↔ x ∈ ss ∨ x ∈ xs.
Proof.
  induction xs as [|y xs IH]; intros ss x; simpl.
  - split; [auto|]. intros [H|H]; [exact H|inversion H].
  - rewrite IH, add_source_elem, elem_of_cons. tauto.
Qed.

Lemma add_source_NoDup (ss : list string) (s : string) :
  NoDup ss → NoDup (add_source ss s).
Proof.
  intros Hnd. unfold add_source. destruct (includes s ss) eqn:Hinc; [exact Hnd|].
  apply NoDup_app. split; [exact Hnd|]. split; [|apply NoDup_singleton].
  intros x Hx Hs. apply list_elem_of_singleton in Hs. subst.
  apply includes_spec in Hx. congruence.
Qed.

Lemma fold_add_NoDup (xs : list string) : ∀ ss,
  NoDup ss → NoDup (fold_left add_source xs ss).
Proof.
  induction xs as [|y xs IH]; intros ss Hnd; simpl; [exact Hnd|].
  apply IH, add_source_NoDup, Hnd.
Qed.

Lemma fold_add_head (xs : list string) : ∀ s0 ss,
  head (fold_left add_source xs (s0 :: ss)) = Some s0.
Proof.
  induction xs as [|y xs IH]; intros s0 ss; simpl; [reflexivity|].
  unfold add_source. destruct (includes y (s0 :: ss)); apply IH.
Qed.

Lemma absorb_sources (p e : Package) (ss : list string) :
  sources e = Some ss → sources (absorb p e) = Some (add_source ss (source p)).
Proof.
  intros H. unfold absorb, add_source. rewrite H. simpl.
  destruct (includes (source p) ss); destruct (_ <? _)%nat; reflexivity.
Qed.

Lemma absorb_confidence (p e : Package) (ss : list string) :
  sources e = Some ss →
  confidence (absorb p e)
  = if (1 <? length (add_source ss (source p)))%nat then High else confidence e.
Proof.
  intros H. unfold absorb, add_source. rewrite H. simpl.
  destruct (includes (source p) ss); destruct (_ <? _)%nat; reflexivity.
Qed.

Lemma absorb_fields (p e : Package) :
  name (absorb p e) = name e ∧ version (absorb p e) = version e
  ∧ label (absorb p e) = label e ∧ source (absorb p e) = source e
  ∧ details (absorb p e) = details e.
Proof. unfold absorb. destruct (_ <? _)%nat; repeat split. Qed.

Lemma absorb_all_spec (qs : list Package) : ∀ (e0 : Package) (ss0 : list string),
  sources e0 = Some ss0 →
  ((1 < length ss0)%nat → confidence e0 = High) →
  let e := fold_left (λ e q, absorb q e) qs e0 in
  let ss := fold_left add_source (source <$> qs) ss0 in
  name e = name e0 ∧ version e = version e0 ∧ label e = label e0
  ∧ source e = source e0 ∧ details e = details e0
  ∧ sources e = Some ss
  ∧ confidence e = if (1 <? length ss)%nat then High else confidence e0.
Proof.
  induction qs as [|q qs IH]; intros e0 ss0 Hss Hconf; cbv zeta.
  - simpl. repeat split; [exact Hss|].
    destruct (Nat.ltb_spec 1 (length ss0)); [apply Hconf; lia|reflexivity].
  - cbn [fold_left fmap list_fmap].
    pose proof (absorb_sources q e0 ss0 Hss) as Hss1.
    pose proof (absorb_confidence q e0 ss0 Hss) as Hc1.
    destruct (absorb_fields q e0) as (Hn & Hv & Hl & Hs & Hd).
    destruct (IH (absorb q e0) (add_source ss0 (source q)) Hss1)
      as (Hn' & Hv' & Hl' & Hs' & Hd' & Hss' & Hc').
    { intros Hlt. rewrite Hc1.
      destruct (Nat.ltb_spec 1 (length (add_source ss0 (source q)))); [reflexivity|lia]. }
    rewrite Hn', Hv', Hl', Hs', Hd', Hss', Hc'.
    repeat split; try assumption.
    destruct (Nat.ltb_spec 1
                (length (fold_left add_source (source <$> qs)
                           (add_source ss0 (source q))))) as [|Hle];
      [reflexivity|].
    rewrite Hc1.
    pose proof (fold_add_length (source <$> qs) (add_source ss0 (source q))).
    destruct (Nat.ltb_spec 1 (length (add_source ss0 (source q)))); [lia|reflexivity].
Qed.

Lemma filter_head_split {A} (f : A -> bool) (l : list A) (x : A) (xs : list A) :
  List.filter f l = x :: xs →
  ∃ pre post, l = pre ++ x :: post ∧ (∀ y, y ∈ pre → f y = false) ∧ f x = true.
Proof.
  induction l as [|a l IH]; simpl; [discriminate|].
  destruct (f a) eqn:Hfa.
  - intros H. inversion H; subst. exists [], l. split; [reflexivity|].
    split; [intros y Hy; inversion Hy|exact Hfa].
  - intros H. destruct (IH H) as (pre & post & -> & Hpre & Hx).
    exists (a :: pre), post. split; [reflexivity|]. split; [|exact Hx].
    intros y Hy. apply elem_of_cons in Hy as [->|Hy]; [exact Hfa|apply Hpre, Hy].
Qed.

Lemma elem_of_records_of (k : string) (l : list Package) (q : Package) :
  q ∈ records_of k l ↔ q ∈ l ∧ key q = k.
Proof.
  unfold records_of. rewrite list_elem_of_In, filter_In, <- list_elem_of_In.
  rewrite String.eqb_eq. reflexivity.
Qed.

(** What the merge keeps under a key, in terms of the input. *)
Lemma merged_spec (k : string) (l : list Package) (r : Package) :
  merged k l = Some r →
  ∃ p ss,
    first_of_key p l ∧ key p = k
    ∧ name r = name p ∧ version r = version p ∧ label r = label p
    ∧ source r = source p ∧ details r = details p
    ∧ sources r = Some ss ∧ NoDup ss ∧ head ss = Some (source p)
    ∧ (∀ s, s ∈ ss ↔ ∃ q, q ∈ l ∧ key q = k ∧ source q = s)
    ∧ confidence r = if (1 <? length ss)%nat then High else confidence p.
Proof.
  unfold merged. destruct (records_of k l) as [|p qs] eqn:Hrec; [discriminate|].
  intros H. inversion H as [Hr]. clear H.
  destruct (absorb_all_spec qs (set_sources [source p] p) [source p] eq_refl)
    as (Hn & Hv & Hl & Hs & Hd & Hss & Hc); [simpl; lia|].
  rewrite Hr in *.
  destruct (filter_head_split _ _ _ _ Hrec) as (pre & post & Hl0 & Hpre & Hp).
  apply String.eqb_eq in Hp.
  exists p, (fold_left add_source (source <$> qs) [source p]).
  split.
  { exists pre, post. split; [exact Hl0|]. intros q Hq Hk.
    specialize (Hpre q Hq). apply String.eqb_neq in Hpre. congruence. }
  split; [exact Hp|].
  repeat (split; [assumption|]).
  split; [apply fold_add_NoDup, NoDup_singleton|].
  split; [apply fold_add_head|].
  split; [|exact Hc].
  intros s. rewrite fold_add_elem, list_elem_of_singleton, list_elem_of_fmap.
  split.
  - intros [->|(q & -> & Hq)].
    + exists p. split; [|split; [exact Hp|reflexivity]].
      apply (elem_of_records_of k). rewrite Hrec. left.
    + exists q. assert (Hq' : q ∈ records_of k l) by (rewrite Hrec; right; exact Hq).
      apply elem_of_records_of in Hq' as [H1 H2]. auto.
  - intros (q & Hq & Hk & Hsq).
    assert (Hq' : q ∈ records_of k l) by (apply elem_of_records_of; auto).
    rewrite Hrec in Hq'. apply elem_of_cons in Hq' as [->|Hq'].
    + left. symmetry. exact Hsq.
    + right. exists q. split; [symmetry; exact Hsq|exact Hq'].
Qed.

Lemma merged_key (k : string) (l : list Package) (r : Package) :
  merged k l = Some r → key r = k.
Proof.
  intros H. destruct (merged_spec k l r H) as (p & ss & _ & Hk & Hn & Hv & _).
  unfold key in *. rewrite Hn, Hv. exact Hk.
Qed.

Lemma merged_is_Some (k : string) (l : list Package) :
  is_Some (merged k l) ↔ ∃ q, q ∈ l ∧ key q = k.
Proof.
  unfold merged. destruct (records_of k l) as [|p qs] eqn:Hrec.
  - split; [intros [x Hx]; discriminate|].
    intros (q & Hq & Hk).
    assert (Hq' : q ∈ records_of k l) by (apply elem_of_records_of; auto).
    rewrite Hrec in Hq'. inversion Hq'.
  - split; [|eauto]. intros _. exists p.
    apply (elem_of_records_of k). rewrite Hrec. left.
Qed.
End DedupProofs.

(** C3 (as stated, refuted).  A record entering with confidence
    ["very-high"] and corroborated by a second source leaves the merge with
    confidence ["high"]: the assignment is unconditional. *)
Lemma very_high_is_lowered_to_high :
  ∃ r, maliciousPackageService.deduplicatePackages
         [Scenario.curated; Scenario.topDownloaded] = [r]
     ∧ maliciousPackageService.sources r
       = Some ["manually-curated"; "top-downloaded"]%string
     ∧ maliciousPackageService.confidence Scenario.curated
       = maliciousPackageService.VeryHigh
     ∧ maliciousPackageService.confidence r = maliciousPackageService.High
     ∧ (maliciousPackageService.rank (maliciousPackageService.confidence r)
        < maliciousPackageService.rank
            (maliciousPackageService.confidence Scenario.curated))%nat.
Proof.
  eexists. split; [vm_compute; reflexivity|].
  repeat split. vm_compute. lia.
Qed.

(** C3 (amended).  Every record [r] of the output stands for the first
    input record [p] of its key; its [sources] are the distinct sources of
    the input records of that key; as soon as there are two of them the
    confidence is ["high"], otherwise it is the confidence [p] carried.
    Hence the confidence is never lowered for a record entering with
    ["low"], ["medium"] or ["high"], and a record with two or more sources
    leaves with exactly ["high"]. *)
Theorem deduplicatePackages_confidence
    (packages : list maliciousPackageService.Package)
    (r : maliciousPackageService.Package) :
  r ∈ maliciousPackageService.deduplicatePackages packages →
  ∃ p ss,
    maliciousPackageService.first_of_key p packages
    ∧ maliciousPackageService.key p = maliciousPackageService.key r
    ∧ maliciousPackageService.sources r = Some ss
    ∧ NoDup ss
    ∧ (∀ s, s ∈ ss ↔ ∃ q, q ∈ packages
                         ∧ maliciousPackageService.key q = maliciousPackageService.key r
                         ∧ maliciousPackageService.source q = s)
    ∧ ((2 <= length ss)%nat →
       maliciousPackageService.confidence r = maliciousPackageService.High)
    ∧ ((length ss < 2)%nat →
       maliciousPackageService.confidence r = maliciousPackageService.confidence p)
    ∧ (maliciousPackageService.confidence p ≠ maliciousPackageService.VeryHigh →
       (maliciousPackageService.rank (maliciousPackageService.confidence p)
        <= maliciousPackageService.rank (maliciousPackageService.confidence r))%nat).
Proof.
  intros Hr. apply elem_of_dedup in Hr as (k & Hm).
  pose proof (merged_key k packages r Hm) as Hk. subst k.
  destruct (merged_spec _ _ _ Hm)
    as (p & ss & Hfirst & Hkp & _ & _ & _ & _ & _ & Hss & Hnd & _ & Hel & Hc).
  exists p, ss. repeat (split; [assumption|]).
  destruct (Nat.ltb_spec 1 (length ss)) as [Hlt|Hle].
  - split; [intros _; exact Hc|]. split; [lia|].
    intros Hnv. rewrite Hc.
    destruct (maliciousPackageService.confidence p); simpl; try lia. congruence.
  - split; [lia|]. split; [intros _; exact Hc|]. intros _. rewrite Hc. lia.
Qed.

Lemma deduplicatePackages_confidence_witness :
  ∃ r, r ∈ maliciousPackageService.deduplicatePackages
             [Scenario.fromOsv; Scenario.fromResearch]
     ∧ maliciousPackageService.confidence r = maliciousPackageService.High.
Proof.
  assert (Hin : maliciousPackageService.absorb Scenario.fromResearch
                  (maliciousPackageService.set_sources ["osv"%string] Scenario.fromOsv)
                ∈ maliciousPackageService.deduplicatePackages
                    [Scenario.fromOsv; Scenario.fromResearch]).
  { vm_compute. left. }
  eexists. split; [exact Hin|].
  destruct (deduplicatePackages_confidence _ _ Hin)
    as (p & ss & _ & _ & Hss & _ & _ & Hhigh & _).
  apply Hhigh. vm_compute in Hss. inversion Hss; subst. simpl. lia.
Defined.

Section RemergeProofs.
Import maliciousPackageService.

Lemma fold_entries_keyed (l : list Package) (k : string) (r : Package) :
  (k, r) ∈ fold_left dedup_step l [] → key r = k.
Proof.
  intros Hin. apply (merged_key k l). rewrite <- fold_get.
  apply map_get_elem; [apply fold_keys_NoDup|exact Hin].
Qed.

Lemma keyed_fst_snd (m : list (string * Package)) :
  (∀ k r, (k, r) ∈ m → key r = k) → key <$> m.*2 = m.*1.
Proof.
  induction m as [|[k r] m IH]; intros H; csimpl; [reflexivity|].
  rewrite (H k r) by left. f_equal. apply IH. intros k' r' Hin. apply H. right. exact Hin.
Qed.

Lemma dedup_keys_NoDup (l : list Package) :
  NoDup (key <$> deduplicatePackages l).
Proof.
  unfold deduplicatePackages. rewrite keyed_fst_snd.
  - apply fold_keys_NoDup.
  - intros k r. apply fold_entries_keyed.
Qed.

(** Records with pairwise different keys are only re-inserted. *)
Lemma fold_unique_keys (rs : list Package) : ∀ m,
  NoDup (key <$> rs) →
  (∀ r, r ∈ rs → key r ∉ m.*1) →
  fold_left dedup_step rs m = m ++ ((λ r, (key r, reset_sources r)) <$> rs).
Proof.
  induction rs as [|r rs IH]; intros m Hnd Hfresh; csimpl.
  - rewrite app_nil_r. reflexivity.
  - apply NoDup_cons in Hnd as [Hr Hnd].
    assert (Hstep : dedup_step m r = m ++ [(key r, reset_sources r)]).
    { unfold dedup_step. rewrite map_has_get.
      assert (Hget : map_get (key r) m = None).
      { apply map_get_None. apply Hfresh. left. }
      rewrite Hget. reflexivity. }
    rewrite Hstep, IH.
    + rewrite <- app_assoc. reflexivity.
    + exact Hnd.
    + intros r' Hr'. rewrite fmap_app. csimpl. rewrite elem_of_app.
      intros [H|H].
      * revert H. apply Hfresh. right. exact Hr'.
      * apply list_elem_of_singleton in H. apply Hr. rewrite <- H.
        apply list_elem_of_fmap. exists r'. split; [reflexivity|exact Hr'].
Qed.

Lemma dedup_unique_keys (rs : list Package) :
  NoDup (key <$> rs) → deduplicatePackages rs = reset_sources <$> rs.
Proof.
  intros Hnd. unfold deduplicatePackages.
  rewrite (fold_unique_keys rs [] Hnd).
  - simpl. rewrite <- list_fmap_compose. reflexivity.
  - intros r _ H. inversion H.
Qed.

Lemma reset_sources_fixed (r : Package) :
  reset_sources r = r ↔ sources r = Some [source r].
Proof.
  destruct r as [n v lb s c ss d]. unfold reset_sources, set_sources. simpl.
  split; [intros H; injection H as <-; reflexivity|].
  intros ->. reflexivity.
Qed.

Lemma fmap_fixed {A} (f : A -> A) (l : list A) :
  f <$> l = l ↔ ∀ x, x ∈ l → f x = x.
Proof.
  induction l as [|a l IH]; csimpl.
  - split; [intros _ x Hx; inversion Hx|reflexivity].
  - split.
    + intros H. injection H as Ha Hl. intros x Hx.
      apply elem_of_cons in Hx as [->|Hx]; [exact Ha|].
      apply IH; [exact Hl|exact Hx].
    + intros H. rewrite (H a) by left. f_equal. apply IH.
      intros x Hx. apply H. right. exact Hx.
Qed.

Lemma first_of_key_elem (p : Package) (l : list Package) :
  first_of_key p l → p ∈ l.
Proof. intros (pre & post & -> & _). apply elem_of_app. right. left. Qed.

(** A list without repetition, whose elements are all [s]. *)
Lemma NoDup_constant (ss : list string) (s : string) :
  NoDup ss → head ss = Some s → (∀ x, x ∈ ss → x = s) → ss = [s].
Proof.
  intros Hnd Hhd Hall. destruct ss as [|a ss]; [discriminate|].
  simpl in Hhd. inversion Hhd; subst. f_equal.
  destruct ss as [|b ss]; [reflexivity|].
  apply NoDup_cons in Hnd as [Hn _]. exfalso. apply Hn.
  rewrite (Hall b) by (right; left). left.
Qed.

Lemma dedup_fixed_iff (l : list Package) :
  (∀ r, r ∈ deduplicatePackages l → reset_sources r = r) ↔ single_sourced l.
Proof.
  split.
  - intros Hfix p q Hp Hq Hk.
    destruct (proj2 (merged_is_Some (key p) l)) as [r Hm]; [eauto|].
    assert (Hr : r ∈ deduplicatePackages l) by (apply elem_of_dedup; eauto).
    specialize (Hfix r Hr). apply reset_sources_fixed in Hfix.
    destruct (merged_spec _ _ _ Hm)
      as (p0 & ss & _ & _ & _ & _ & _ & _ & _ & Hss & _ & _ & Hel & _).
    rewrite Hfix in Hss. inversion Hss; subst ss.
    assert (H1 : source p ∈ [source r]) by (apply Hel; eauto).
    assert (H2 : source q ∈ [source r]) by (apply Hel; exists q; auto).
    apply list_elem_of_singleton in H1, H2. congruence.
  - intros Hsingle r Hr. apply reset_sources_fixed.
    apply elem_of_dedup in Hr as (k & Hm).
    destruct (merged_spec _ _ _ Hm)
      as (p0 & ss & Hfirst & Hk0 & _ & _ & _ & Hsrc & _ & Hss & Hnd & Hhd & Hel & _).
    rewrite Hss. f_equal. rewrite Hsrc.
    apply NoDup_constant; [exact Hnd|exact Hhd|].
    intros x Hx. apply Hel in Hx as (q & Hq & Hkq & <-).
    apply Hsingle; [exact Hq|apply first_of_key_elem, Hfirst|congruence].
Qed.
End RemergeProofs.

(** C7 (as stated, refuted).  One package reported by two sources: the
    merge keeps one record with both sources; merging that output again
    re-inserts the record with [sources] reset to its own [source]. *)
Lemma remerge_forgets_second_source :
  ∃ r r',
    maliciousPackageService.deduplicatePackages
      [Scenario.fromOsv; Scenario.fromResearch] = [r]
    ∧ maliciousPackageService.deduplicatePackages
        (maliciousPackageService.deduplicatePackages
           [Scenario.fromOsv; Scenario.fromResearch]) = [r']
    ∧ maliciousPackageService.sources r
      = Some ["osv"; "research-backstabbers-knife-collection"]%string
    ∧ maliciousPackageService.sources r' = Some ["osv"%string]
    ∧ maliciousPackageService.deduplicatePackages
        (maliciousPackageService.deduplicatePackages
           [Scenario.fromOsv; Scenario.fromResearch])
      ≠ maliciousPackageService.deduplicatePackages
          [Scenario.fromOsv; Scenario.fromResearch].
Proof.
  eexists. eexists.
  split; [vm_compute; reflexivity|].
  split; [vm_compute; reflexivity|].
  split; [reflexivity|]. split; [reflexivity|].
  vm_compute. discriminate.
Qed.

(** C7 (amended).  Merging the output of a merge keeps the records, their
    order and every property, the confidence included, except [sources],
    which is reset to the singleton of the record's own [source].  The
    second merge therefore changes nothing exactly when no key of the input
    is reported by two different sources; and from the second merge on,
    re-merging changes nothing. *)
Theorem deduplicatePackages_remerge (l : list maliciousPackageService.Package) :
  let once := maliciousPackageService.deduplicatePackages l in
  let twice := maliciousPackageService.deduplicatePackages once in
  twice = maliciousPackageService.reset_sources <$> once
  ∧ maliciousPackageService.confidence <$> twice
    = maliciousPackageService.confidence <$> once
  ∧ (twice = once ↔ maliciousPackageService.single_sourced l)
  ∧ maliciousPackageService.deduplicatePackages twice = twice.
Proof.
  cbv zeta.
  pose proof (dedup_unique_keys _ (dedup_keys_NoDup l)) as Htwice.
  split; [exact Htwice|]. split; [|split].
  - rewrite Htwice, <- list_fmap_compose. reflexivity.
  - rewrite Htwice, fmap_fixed. apply dedup_fixed_iff.
  - rewrite dedup_unique_keys by apply dedup_keys_NoDup.
    rewrite Htwice, <- list_fmap_compose. reflexivity.
Qed.

Section OrderProofs.
Import maliciousPackageService.

Lemma dedup_keys (l : list Package) (k : string) :
  k ∈ key <$> deduplicatePackages l ↔ ∃ q, q ∈ l ∧ key q = k.
Proof.
  rewrite <- merged_is_Some, list_elem_of_fmap. split.
  - intros (r & -> & Hr). apply elem_of_dedup in Hr as (k & Hm).
    rewrite (merged_key _ _ _ Hm). eauto.
  - intros [r Hm]. exists r. split; [symmetry; eapply merged_key, Hm|].
    apply elem_of_dedup. eauto.
Qed.

Lemma dedup_elem_merged (l : list Package) (r : Package) :
  r ∈ deduplicatePackages l → merged (key r) l = Some r.
Proof.
  intros Hr. apply elem_of_dedup in Hr as (k & Hm).
  rewrite (merged_key _ _ _ Hm). exact Hm.
Qed.

Lemma short_with_head (ss : list string) (s : string) :
  head ss = Some s → (length ss <= 1)%nat → ss = [s].
Proof.
  destruct ss as [|a [|b ss]]; simpl; intros H Hlen; try discriminate; [|lia].
  inversion H. reflexivity.
Qed.
End OrderProofs.

(** C8 (as stated, refuted).  Two records of one key and one source that
    differ in confidence: in one order the merge reports ["medium"], in the
    other ["high"]; the record kept is the first one met. *)
Lemma merge_confidence_depends_on_order :
  ∃ r1 r2,
    [Scenario.fromOsv; Scenario.fromOsvHigh] ≡ₚ [Scenario.fromOsvHigh; Scenario.fromOsv]
    ∧ maliciousPackageService.deduplicatePackages
        [Scenario.fromOsv; Scenario.fromOsvHigh] = [r1]
    ∧ maliciousPackageService.deduplicatePackages
        [Scenario.fromOsvHigh; Scenario.fromOsv] = [r2]
    ∧ maliciousPackageService.key r1 = maliciousPackageService.key r2
    ∧ maliciousPackageService.confidence r1 = maliciousPackageService.Medium
    ∧ maliciousPackageService.confidence r2 = maliciousPackageService.High.
Proof.
  eexists. eexists.
  split; [apply perm_swap|].
  split; [vm_compute; reflexivity|].
  split; [vm_compute; reflexivity|].
  repeat split.
Qed.

(** C8 (amended).  For two inputs that are permutations of each other (in
    particular the same records grouped differently before concatenation),
    the two outputs have the same keys and, under each key, the same set of
    sources, possibly listed in another order; the confidence is the same
    (["high"]) whenever the key has two or more sources, and the same in all
    cases when records that agree on key and source agree on confidence.
    The other properties are those of the first record met under the key. *)
Theorem deduplicatePackages_permutation
    (l1 l2 : list maliciousPackageService.Package) :
  l1 ≡ₚ l2 →
  (∀ k, k ∈ maliciousPackageService.key <$> maliciousPackageService.deduplicatePackages l1
        ↔ k ∈ maliciousPackageService.key <$> maliciousPackageService.deduplicatePackages l2)
  ∧ (∀ r1 r2,
       r1 ∈ maliciousPackageService.deduplicatePackages l1 →
       r2 ∈ maliciousPackageService.deduplicatePackages l2 →
       maliciousPackageService.key r1 = maliciousPackageService.key r2 →
       ∃ s1 s2,
         maliciousPackageService.sources r1 = Some s1
         ∧ maliciousPackageService.sources r2 = Some s2
         ∧ s1 ≡ₚ s2
         ∧ ((2 <= length s1)%nat →
            maliciousPackageService.confidence r1 = maliciousPackageService.High
            ∧ maliciousPackageService.confidence r2 = maliciousPackageService.High)
         ∧ (maliciousPackageService.consistent l1 →
            maliciousPackageService.confidence r1
            = maliciousPackageService.confidence r2)).
Proof.
  intros Hperm.
  assert (Hmem : ∀ q, q ∈ l1 ↔ q ∈ l2) by (intros q; rewrite Hperm; reflexivity).
  split.
  - intros k. rewrite !dedup_keys. split; intros (q & Hq & Hk); exists q;
      (split; [apply Hmem, Hq|exact Hk]).
  - intros r1 r2 Hr1 Hr2 Hk.
    apply dedup_elem_merged in Hr1, Hr2.
    destruct (merged_spec _ _ _ Hr1)
      as (p1 & s1 & Hf1 & Hk1 & _ & _ & _ & _ & _ & Hs1 & Hnd1 & Hhd1 & Hel1 & Hc1).
    destruct (merged_spec _ _ _ Hr2)
      as (p2 & s2 & Hf2 & Hk2 & _ & _ & _ & _ & _ & Hs2 & Hnd2 & Hhd2 & Hel2 & Hc2).
    exists s1, s2. split; [exact Hs1|]. split; [exact Hs2|].
    assert (Hs : s1 ≡ₚ s2).
    { apply NoDup_Permutation; [exact Hnd1|exact Hnd2|].
      intros s. rewrite Hel1, Hel2, Hk. split; intros (q & Hq & Hkq & Hsq); exists q;
        (split; [apply Hmem, Hq|split; [exact Hkq|exact Hsq]]). }
    split; [exact Hs|].
    pose proof (Permutation_length Hs) as Hlen.
    split.
    + intros H2. rewrite Hc1, Hc2.
      destruct (Nat.ltb_spec 1 (length s1)); [|lia].
      destruct (Nat.ltb_spec 1 (length s2)); [|lia]. split; reflexivity.
    + intros Hcons. rewrite Hc1, Hc2, <- Hlen.
      destruct (Nat.ltb_spec 1 (length s1)) as [|Hle]; [reflexivity|].
      pose proof (short_with_head s1 _ Hhd1 Hle) as E1.
      assert (Hle2 : (length s2 <= 1)%nat) by lia.
      pose proof (short_with_head s2 _ Hhd2 Hle2) as E2.
      rewrite E1, E2 in Hs. apply Permutation_singleton_inj in Hs.
      apply Hcons.
      * apply first_of_key_elem, Hf1.
      * apply Hmem. apply first_of_key_elem, Hf2.
      * congruence.
      * exact Hs.
Qed.

Lemma deduplicatePackages_permutation_witness :
  ∃ r1 r2,
    r1 ∈ maliciousPackageService.collectAllMaliciousPackages
           [] [Scenario.fromOsv] [Scenario.fromResearch]
    ∧ r2 ∈ maliciousPackageService.collectAllMaliciousPackages
             [Scenario.fromResearch] [Scenario.fromOsv] []
    ∧ maliciousPackageService.key r1 = maliciousPackageService.key r2
    ∧ maliciousPackageService.confidence r1 = maliciousPackageService.confidence r2.
Proof.
  assert (Hr1 : maliciousPackageService.absorb Scenario.fromResearch
                  (maliciousPackageService.reset_sources Scenario.fromOsv)
                ∈ maliciousPackageService.collectAllMaliciousPackages
                    [] [Scenario.fromOsv] [Scenario.fromResearch])
    by (vm_compute; left).
  assert (Hr2 : maliciousPackageService.absorb Scenario.fromOsv
                  (maliciousPackageService.reset_sources Scenario.fromResearch)
                ∈ maliciousPackageService.collectAllMaliciousPackages
                    [Scenario.fromResearch] [Scenario.fromOsv] [])
    by (vm_compute; left).
  eexists. eexists. split; [exact Hr1|]. split; [exact Hr2|]. split; [reflexivity|].
  destruct (deduplicatePackages_permutation
              [Scenario.fromOsv; Scenario.fromResearch]
              [Scenario.fromResearch; Scenario.fromOsv]
              (perm_swap _ _ []))
    as [_ Hsame].
  destruct (Hsame _ _ Hr1 Hr2 eq_refl) as (s1 & s2 & _ & _ & _ & _ & Hconf).
  apply Hconf.
  intros p q Hp Hq _ Hsrc.
  apply elem_of_cons in Hp as [->|Hp]; apply elem_of_cons in Hq as [->|Hq];
    try reflexivity;
    repeat match goal with
           | H : _ ∈ [_] |- _ => apply list_elem_of_singleton in H; subst
           | H : _ ∈ [] |- _ => inversion H
           end; try reflexivity; discriminate Hsrc.
Defined.

(** ** [buildDependencyTree] *)

Section TreeProofs.
Import dependenciesService.
Variable fetchFromNpmRegistry : string -> string -> JsError + metadataService.Metadata.
Variable maxDepth : Z.

Lemma buildDependencyTree_total (fuel : nat) :
  ∀ (packageName version : string) (currentDepth : Z) (visited : gset string),
    (Z.to_nat (maxDepth - currentDepth) < fuel)%nat →
    ∃ tree,
      buildDependencyTree fetchFromNpmRegistry fuel packageName version
        maxDepth currentDepth visited = Some tree
      ∧ Forall (λ n, currentDepth < t_depth n <= maxDepth) tree.
Proof.
  induction fuel as [|fuel IH]; intros packageName version currentDepth visited Hfuel;
    [lia|].
  cbn [buildDependencyTree].
  destruct (Z.leb_spec maxDepth currentDepth) as [|Hdepth]; [eauto|].
  destruct (bool_decide _); [eauto|].
  destruct (fetchDependencies _ _ _) as [error|deps]; [eauto|].
  match goal with |- context [fold_left ?f _ _] => set (body := f) end.
  assert (Hbody : ∀ a dep,
            Forall (λ n, currentDepth < t_depth n <= maxDepth) a →
            ∃ a', body (Some a) dep = Some a'
                ∧ Forall (λ n, currentDepth < t_depth n <= maxDepth) a').
  { intros a dep Ha. subst body. cbn [mbind option_bind].
    assert (Hnode : Forall (λ n, currentDepth < t_depth n <= maxDepth)
                      (a ++ [mkTransitive (dep_name dep)
                               (resolveVersion fetchFromNpmRegistry (dep_name dep)
                                  (dep_version dep))
                               "transitive" (currentDepth + 1) packageName])).
    { apply Forall_app. split; [exact Ha|]. repeat constructor; simpl; lia. }
    destruct (Z.ltb_spec (currentDepth + 1) maxDepth); [|eauto].
    destruct (IH (dep_name dep)
                (resolveVersion fetchFromNpmRegistry (dep_name dep) (dep_version dep))
                (currentDepth + 1)
                ({[(packageName +:+ "@" +:+ version)%string]} ∪ visited))
      as (sub & Hsub & Hdepths); [lia|].
    rewrite Hsub. cbn [mbind option_bind]. eexists. split; [reflexivity|].
    apply Forall_app. split; [exact Hnode|].
    eapply Forall_impl; [exact Hdepths|]. simpl. intros n Hn. lia. }
  generalize (dependencies deps). intros ds.
  assert (Hgen : ∀ a, Forall (λ n, currentDepth < t_depth n <= maxDepth) a →
            ∃ tree, fold_left body ds (Some a) = Some tree
                  ∧ Forall (λ n, currentDepth < t_depth n <= maxDepth) tree).
  { induction ds as [|d ds IHds]; intros a Ha; cbn [fold_left]; [eauto|].
    destruct (Hbody a d Ha) as (a' & -> & Ha'). apply IHds, Ha'. }
  apply Hgen. constructor.
Qed.
End TreeProofs.

(** C10.  With fuel above [maxDepth - currentDepth] the traversal returns a
    tree, for every registry, package, depth bound and visited set: the
    recursion is never deeper than [maxDepth].  Every node it lists lies at
    a depth above [currentDepth] and at most [maxDepth]; a key already in
    [visited] gives the empty list, and so does a failing fetch. *)
Theorem buildDependencyTree_terminates
    (fetchFromNpmRegistry : string -> string -> JsError + metadataService.Metadata)
    (packageName version : string) (maxDepth currentDepth : Z)
    (visited : gset string) (fuel : nat) :
  (Z.to_nat (maxDepth - currentDepth) < fuel)%nat →
  (∃ tree,
     dependenciesService.buildDependencyTree fetchFromNpmRegistry fuel
       packageName version maxDepth currentDepth visited = Some tree
     ∧ Forall (λ n, currentDepth < dependenciesService.t_depth n <= maxDepth) tree)
  ∧ ((packageName +:+ "@" +:+ version)%string ∈ visited →
     dependenciesService.buildDependencyTree fetchFromNpmRegistry fuel
       packageName version maxDepth currentDepth visited = Some [])
  ∧ (∀ error,
       dependenciesService.fetchDependencies fetchFromNpmRegistry packageName version
       = inl error →
       dependenciesService.buildDependencyTree fetchFromNpmRegistry fuel
         packageName version maxDepth currentDepth visited = Some []).
Proof.
  intros Hfuel. split; [apply buildDependencyTree_total, Hfuel|].
  destruct fuel as [|fuel]; [lia|]. split.
  - intros Hvisited. cbn [dependenciesService.buildDependencyTree].
    destruct (maxDepth <=? currentDepth); [reflexivity|].
    rewrite bool_decide_eq_true_2 by exact Hvisited. reflexivity.
  - intros error Herr. cbn [dependenciesService.buildDependencyTree].
    destruct (maxDepth <=? currentDepth); [reflexivity|].
    destruct (bool_decide _); [reflexivity|]. rewrite Herr. reflexivity.
Qed.

Lemma buildDependencyTree_terminates_witness :
  ∃ tree,
    dependenciesService.buildDependencyTree Scenario.registry 6
      "a" "1.0.0" 5 0 ∅ = Some tree
    ∧ Forall (λ n, 0 < dependenciesService.t_depth n <= 5) tree.
Proof.
  destruct (buildDependencyTree_terminates Scenario.registry "a" "1.0.0" 5 0 ∅ 6)
    as [Htree _]; [vm_compute; lia|].
  exact Htree.
Defined.

(** ** [collectPackageData] *)

Section CollectProofs.
Import metadataService Orchestrator.
Variable fetchFromNpmRegistry : string -> string -> JsError + Metadata.
Variable fetchDependencies : string -> string -> JsError + Payload.
Variable getVulnerabilities : string -> string -> string -> JsError + Payload.
Variable getPackageGitHubData : Metadata -> JsError + Payload.
Variable extractStaticAnalysisFeatures : string -> string -> string -> JsError + Payload.
Variable now : string.
Variable db : bool.

Local Abbreviation collect :=
  (collectPackageData fetchFromNpmRegistry fetchDependencies getVulnerabilities
     getPackageGitHubData extractStaticAnalysisFeatures now db).
Local Abbreviation outcome :=
  (aspect_outcome fetchDependencies getVulnerabilities getPackageGitHubData
     extractStaticAnalysisFeatures).

Lemma collectAspect_run (gate : bool) (a : Aspect) (c : Call)
    (o : JsError + Payload) (r : CollectionResult) (t : list Call) :
  collectAspect gate a c o r t = (inr (store gate a o r), t ++ issued gate c).
Proof.
  unfold collectAspect, store, issued. destruct gate.
  - unfold try_catch, bind, await, ret. destruct o as [e|payload]; reflexivity.
  - unfold ret. rewrite app_nil_r. reflexivity.
Qed.

Lemma collect_run_ok (packageName version : string) (options : CollectOptions)
    (metadata : Metadata) (t : list Call) :
  fetchFromNpmRegistry packageName version = inr metadata →
  collect packageName version options t
  = (inr (Orchestrator.collected fetchDependencies getVulnerabilities
            getPackageGitHubData extractStaticAnalysisFeatures now
            packageName version options metadata),
     t ++ FetchFromNpmRegistry packageName version
          :: callsAfterMetadata db packageName options metadata).
Proof.
  intros Hmd. unfold collectPackageData, try_catch, bind.
  unfold await at 1. rewrite Hmd.
  rewrite !collectAspect_run.
  unfold collected, callsAfterMetadata, saveToDatabase.
  cbn [aspect_enabled aspect_call aspect_outcome].
  destruct db; cbn; unfold ret;
    rewrite <- ?app_assoc; cbn [app]; rewrite ?app_nil_r; reflexivity.
Qed.

Lemma collect_run_fail (packageName version : string) (options : CollectOptions)
    (error : JsError) (t : list Call) :
  fetchFromNpmRegistry packageName version = inl error →
  collect packageName version options t
  = (inl error, t ++ [FetchFromNpmRegistry packageName version]).
Proof.
  intros Hmd. unfold collectPackageData, try_catch, bind.
  unfold await at 1. rewrite Hmd. reflexivity.
Qed.

(** The outcome does not depend on the calls made before, which are kept. *)
Lemma collect_frame (packageName version : string) (options : CollectOptions)
    (t : list Call) :
  collect packageName version options t
  = ((collect packageName version options []).1,
     t ++ (collect packageName version options []).2).
Proof.
  destruct (fetchFromNpmRegistry packageName version) as [error|metadata] eqn:Hmd.
  - rewrite !(collect_run_fail _ _ _ error) by exact Hmd. reflexivity.
  - rewrite !(collect_run_ok _ _ _ metadata) by exact Hmd. reflexivity.
Qed.

Lemma aspect_key_inj (a b : Aspect) : aspect_key a = aspect_key b → a = b.
Proof. destruct a, b; simpl; intros H; try reflexivity; discriminate H. Qed.

Lemma data_store_eq (gate : bool) (a : Aspect) (o : JsError + Payload)
    (r : CollectionResult) :
  data (store gate a o r) !! aspect_key a
  = if gate then Some (recorded o) else data r !! aspect_key a.
Proof.
  unfold store. destruct gate; [|reflexivity]. simpl. apply lookup_insert_eq.
Qed.

Lemma data_store_ne (gate : bool) (a : Aspect) (o : JsError + Payload)
    (r : CollectionResult) (k : string) :
  k ≠ aspect_key a → data (store gate a o r) !! k = data r !! k.
Proof.
  intros Hne. unfold store. destruct gate; [|reflexivity]. simpl.
  apply lookup_insert_ne. congruence.
Qed.

Local Abbreviation collected :=
  (Orchestrator.collected fetchDependencies getVulnerabilities getPackageGitHubData
     extractStaticAnalysisFeatures now).

Lemma collected_aspect (packageName version : string) (options : CollectOptions)
    (metadata : Metadata) (a : Aspect) :
  data (collected packageName version options metadata) !! aspect_key a
  = if aspect_enabled options metadata a
    then Some (recorded (outcome packageName metadata a)) else None.
Proof.
  unfold collected.
  destruct a;
    repeat first
      [ rewrite data_store_eq
      | rewrite data_store_ne by (simpl; discriminate) ];
    try reflexivity;
    destruct (aspect_enabled _ _ _); reflexivity.
Qed.

Lemma store_identity (gate : bool) (a : Aspect) (o : JsError + Payload)
    (r : CollectionResult) :
  packageName (store gate a o r) = packageName r
  ∧ version (store gate a o r) = version r
  ∧ collectedAt (store gate a o r) = collectedAt r.
Proof. unfold store. destruct gate; repeat split. Qed.

Lemma collected_identity (packageName version : string) (options : CollectOptions)
    (metadata : Metadata) :
  Orchestrator.packageName (collected packageName version options metadata)
  = packageName
  ∧ Orchestrator.version (collected packageName version options metadata) = version.
Proof.
  unfold Orchestrator.collected.
  repeat match goal with
         | |- context [store ?g ?a ?o ?r] =>
             destruct (store_identity g a o r) as (-> & -> & _)
         end.
  split; reflexivity.
Qed.

Lemma collected_metadata (packageName version : string) (options : CollectOptions)
    (metadata : Metadata) :
  data (collected packageName version options metadata) !! "metadata"%string
  = Some (MetadataValue metadata).
Proof.
  unfold collected.
  rewrite !data_store_ne by (simpl; discriminate). reflexivity.
Qed.

End CollectProofs.

Lemma issued_elem (gate : bool) (c c' : Orchestrator.Call) :
  c' ∈ Orchestrator.issued gate c ↔ gate = true ∧ c' = c.
Proof.
  unfold Orchestrator.issued. destruct gate.
  - rewrite list_elem_of_singleton. split; [auto|intros [_ H]; exact H].
  - split; [intros H; inversion H|intros [H _]; discriminate].
Qed.

Lemma callsAfterMetadata_aspect (db : bool) (packageName : string)
    (options : Orchestrator.CollectOptions) (metadata : metadataService.Metadata)
    (a : Orchestrator.Aspect) :
  Orchestrator.aspect_call packageName metadata a
    ∈ Orchestrator.callsAfterMetadata db packageName options metadata
  ↔ Orchestrator.aspect_enabled options metadata a = true.
Proof.
  unfold Orchestrator.callsAfterMetadata. rewrite !elem_of_app, !issued_elem.
  destruct a; simpl; split; intros H; try tauto;
    repeat match goal with
           | H : _ ∨ _ |- _ => destruct H
           | H : _ ∧ _ |- _ => destruct H
           end; try discriminate; try assumption; tauto.
Qed.

(** C1 (as stated, refuted).  With every option on, a registry answer
    without [repository] (and without a tarball) and a failing dependency
    service: the failure is recorded under ["dependencies"], but the GitHub
    and static-analysis aspects, although requested, are neither attempted
    nor recorded; their steps are also guarded by the metadata. *)
Lemma requested_github_aspect_not_attempted :
  ∃ r t,
    Scenario.collectLeftPad None "left-pad" "1.3.0" Scenario.everythingOn [] = (inr r, t)
    ∧ Orchestrator.data r !! "dependencies"%string
      = Some (Orchestrator.ErrorDescriptor "Unexpected response shape")
    ∧ Orchestrator.aspect_requested Scenario.everythingOn Orchestrator.GitHub = true
    ∧ Orchestrator.data r !! "github"%string = None
    ∧ (Orchestrator.GetPackageGitHubData (Scenario.leftPad None) ∉ t)
    ∧ Orchestrator.aspect_requested Scenario.everythingOn Orchestrator.StaticAnalysis = true
    ∧ Orchestrator.data r !! "staticAnalysis"%string = None.
Proof.
  eexists. eexists. split.
  - unfold Scenario.collectLeftPad.
    rewrite (collect_run_ok _ _ _ _ _ _ _ _ _ _ (Scenario.leftPad None)) by reflexivity.
    reflexivity.
  - split.
    { etrans; [exact (collected_aspect _ _ _ _ _ _ _ _ _ Orchestrator.Dependencies)|].
      reflexivity. }
    split; [reflexivity|].
    split.
    { etrans; [exact (collected_aspect _ _ _ _ _ _ _ _ _ Orchestrator.GitHub)|].
      reflexivity. }
    split.
    + intros Hin. apply elem_of_cons in Hin as [Hin|Hin]; [discriminate Hin|].
      apply (callsAfterMetadata_aspect false "left-pad" Scenario.everythingOn
               (Scenario.leftPad None) Orchestrator.GitHub) in Hin.
      discriminate Hin.
    + split; [reflexivity|].
      etrans; [exact (collected_aspect _ _ _ _ _ _ _ _ _ Orchestrator.StaticAnalysis)|].
      reflexivity.
Qed.

(** C1 (amended).  When the metadata fetch fails, [collectPackageData]
    throws that error after this single call and returns no result.  When it
    succeeds, the collection returns a result; every optional aspect whose
    guard holds (the option is on and, for GitHub, the metadata has a
    repository, for static analysis, a tarball URL) is attempted, and what
    is stored under its key is its own payload or, if it failed, the
    descriptor of its own error, whatever happened to the other aspects; an
    aspect whose guard does not hold is not attempted and has no key. *)
Theorem collectPackageData_isolates_failures
    (fetchFromNpmRegistry : string -> string -> JsError + metadataService.Metadata)
    (fetchDependencies : string -> string -> JsError + Orchestrator.Payload)
    (getVulnerabilities : string -> string -> string -> JsError + Orchestrator.Payload)
    (getPackageGitHubData : metadataService.Metadata -> JsError + Orchestrator.Payload)
    (extractStaticAnalysisFeatures :
       string -> string -> string -> JsError + Orchestrator.Payload)
    (now : string) (db : bool)
    (packageName version : string) (options : Orchestrator.CollectOptions)
    (t : list Orchestrator.Call) :
  let run :=
    Orchestrator.collectPackageData fetchFromNpmRegistry fetchDependencies
      getVulnerabilities getPackageGitHubData extractStaticAnalysisFeatures now db
      packageName version options t in
  (∀ error,
     fetchFromNpmRegistry packageName version = inl error →
     run = (inl error, t ++ [Orchestrator.FetchFromNpmRegistry packageName version]))
  ∧ (∀ metadata,
       fetchFromNpmRegistry packageName version = inr metadata →
       ∃ r calls,
         run = (inr r, t ++ Orchestrator.FetchFromNpmRegistry packageName version :: calls)
         ∧ Orchestrator.packageName r = packageName
         ∧ Orchestrator.version r = version
         ∧ Orchestrator.data r !! "metadata"%string
           = Some (Orchestrator.MetadataValue metadata)
         ∧ ∀ a,
             if Orchestrator.aspect_enabled options metadata a
             then Orchestrator.aspect_call packageName metadata a ∈ calls
                  ∧ Orchestrator.data r !! Orchestrator.aspect_key a
                    = Some (Orchestrator.recorded
                              (Orchestrator.aspect_outcome fetchDependencies
                                 getVulnerabilities getPackageGitHubData
                                 extractStaticAnalysisFeatures packageName metadata a))
             else (Orchestrator.aspect_call packageName metadata a ∉ calls)
                  ∧ Orchestrator.data r !! Orchestrator.aspect_key a = None).
Proof.
  cbv zeta. split.
  - intros error Hmd. apply collect_run_fail, Hmd.
  - intros metadata Hmd. eexists. eexists.
    split; [apply collect_run_ok, Hmd|].
    split; [apply collected_identity|]. split; [apply collected_identity|].
    split; [apply collected_metadata|].
    intros a. rewrite collected_aspect.
    pose proof (callsAfterMetadata_aspect db packageName options metadata a) as Hcalls.
    destruct (Orchestrator.aspect_enabled options metadata a).
    + split; [apply Hcalls; reflexivity|reflexivity].
    + split; [|reflexivity]. intros Hin. apply Hcalls in Hin. discriminate Hin.
Qed.

Lemma collectPackageData_isolates_failures_witness :
  ∃ r t,
    Scenario.collectLeftPad
      (Some (metadataService.RepoString "https://github.com/stevemao/left-pad"))
      "left-pad" "1.3.0" Scenario.dependenciesAndVulnerabilities [] = (inr r, t)
    ∧ Orchestrator.data r !! "dependencies"%string
      = Some (Orchestrator.ErrorDescriptor "Unexpected response shape")
    ∧ Orchestrator.data r !! "vulnerabilities"%string
      = Some (Orchestrator.PayloadValue "{vulnerabilities: []}")
    ∧ Orchestrator.data r !! "github"%string = None
    ∧ Orchestrator.data r !! "staticAnalysis"%string = None.
Proof.
  unfold Scenario.collectLeftPad.
  match goal with
  | |- context [Orchestrator.collectPackageData ?f ?d ?v ?g ?s ?n ?b ?p ?ver ?o ?t] =>
      destruct (collectPackageData_isolates_failures f d v g s n b p ver o t)
        as [_ Hok]
  end.
  destruct (Hok (Scenario.leftPad
                   (Some (metadataService.RepoString
                            "https://github.com/stevemao/left-pad"))) eq_refl)
    as (r & calls & Hrun & _ & _ & _ & Haspects).
  exists r. eexists. split; [exact Hrun|].
  split; [exact (proj2 (Haspects Orchestrator.Dependencies))|].
  split; [exact (proj2 (Haspects Orchestrator.Vulnerabilities))|].
  split; [exact (proj2 (Haspects Orchestrator.GitHub))|].
  exact (proj2 (Haspects Orchestrator.StaticAnalysis)).
Defined.

(** ** [batchCollectPackages] *)

Lemma js_slice_window {A} (i c : Z) (l : list A) :
  0 <= i → 0 <= c →
  js_slice i (i + c) l = take (Z.to_nat c) (drop (Z.to_nat i) l).
Proof.
  intros Hi Hc. unfold js_slice.
  destruct (Z.ltb_spec i 0); [lia|]. destruct (Z.ltb_spec (i + c) 0); [lia|].
  destruct (Z.le_gt_cases i (Z.of_nat (length l))) as [Hin|Hout].
  - rewrite (Z.min_l i) by lia.
    destruct (Z.le_gt_cases (i + c) (Z.of_nat (length l))) as [Hle|Hgt].
    + rewrite Z.min_l by lia. f_equal. lia.
    + rewrite Z.min_r by lia.
      rewrite !take_ge; [reflexivity| |]; rewrite length_drop; lia.
  - rewrite (Z.min_r i) by lia. rewrite Nat2Z.id.
    rewrite !drop_ge by lia. rewrite !take_nil. reflexivity.
Qed.

Lemma js_slice_prefix {A} (n : Z) (l : list A) :
  0 <= n → js_slice 0 n l = take (Z.to_nat n) l.
Proof.
  intros Hn. rewrite <- (Z.add_0_l n) at 1.
  rewrite js_slice_window by lia. reflexivity.
Qed.

(** The interleaving of a group: every call of every body is issued once,
    and each body issues its calls in its own order. *)
Lemma concat_insert_head {A} (pending : list (list A)) (i : nat) (c : A)
    (rest : list A) :
  pending !! i = Some (c :: rest) →
  concat pending ≡ₚ c :: concat (<[i := rest]> pending).
Proof.
  revert i. induction pending as [|l pending IH]; intros [|i] H; simpl in H;
    try discriminate.
  - injection H as ->. reflexivity.
  - cbn [concat]. change (<[S i := rest]> (l :: pending))
      with (l :: <[i := rest]> pending). cbn [concat].
    rewrite (IH i H). symmetry. apply Permutation_middle.
Qed.

Lemma weave_Permutation (schedule : list nat) : ∀ pending,
  Orchestrator.weave schedule pending ≡ₚ concat pending.
Proof.
  induction schedule as [|i schedule IH]; intros pending; cbn [Orchestrator.weave];
    [reflexivity|].
  destruct (pending !! i) as [[|c rest]|] eqn:Hi; try apply IH.
  rewrite (concat_insert_head pending i c rest Hi). constructor. apply IH.
Qed.

Lemma concat_sublist {A} (pending : list (list A)) (j : nat) (l : list A) :
  pending !! j = Some l → l `sublist_of` concat pending.
Proof.
  revert j. induction pending as [|x pending IH]; intros [|j] H; simpl in H;
    try discriminate.
  - injection H as ->. cbn [concat]. apply sublist_inserts_r. reflexivity.
  - cbn [concat]. apply sublist_inserts_l. exact (IH j H).
Qed.

Lemma weave_sublist (schedule : list nat) : ∀ pending (j : nat) l,
  pending !! j = Some l → l `sublist_of` Orchestrator.weave schedule pending.
Proof.
  induction schedule as [|i schedule IH]; intros pending j l Hj;
    cbn [Orchestrator.weave]; [exact (concat_sublist pending j l Hj)|].
  destruct (pending !! i) as [[|c rest]|] eqn:Hi; try exact (IH pending j l Hj).
  destruct (decide (i = j)) as [->|Hne].
  - rewrite Hj in Hi. injection Hi as ->. apply sublist_skip.
    apply (IH _ j). apply list_lookup_insert_eq. eapply lookup_lt_Some. exact Hj.
  - apply sublist_cons. apply (IH _ j).
    rewrite list_lookup_insert_ne by exact Hne. exact Hj.
Qed.

Lemma weave_alone (schedule : list nat) : ∀ l : list Orchestrator.Call,
  Orchestrator.weave schedule [l] = l.
Proof.
  induction schedule as [|i schedule IH]; intros l; cbn [Orchestrator.weave].
  - simpl. apply app_nil_r.
  - destruct i as [|i]; simpl.
    + destruct l as [|c rest]; [apply IH|]. rewrite IH. reflexivity.
    + apply IH.
Qed.

Lemma interleaved_Permutation (schedule : list nat)
    (bodies : list (list Orchestrator.Call)) :
  Orchestrator.interleaved schedule bodies ≡ₚ concat bodies.
Proof.
  unfold Orchestrator.interleaved. rewrite weave_Permutation.
  induction bodies as [|l bodies IH]; [reflexivity|].
  csimpl. rewrite <- (take_drop 1 l) at 3.
  rewrite <- !app_assoc. apply Permutation_app_head.
  rewrite <- IH. rewrite !app_assoc. apply Permutation_app_tail.
  apply Permutation_app_comm.
Qed.

Lemma interleaved_sublist (schedule : list nat)
    (bodies : list (list Orchestrator.Call)) (j : nat) (l : list Orchestrator.Call) :
  bodies !! j = Some l → l `sublist_of` Orchestrator.interleaved schedule bodies.
Proof.
  intros Hj. unfold Orchestrator.interleaved.
  rewrite <- (take_drop 1 l) at 1. apply sublist_app.
  - apply (concat_sublist _ j). rewrite list_lookup_fmap, Hj. reflexivity.
  - apply (weave_sublist _ _ j). rewrite list_lookup_fmap, Hj. reflexivity.
Qed.

Lemma weave_none (schedule : list nat) : Orchestrator.weave schedule [] = [].
Proof. induction schedule as [|i schedule IH]; [reflexivity|exact IH]. Qed.

(** A group of one body has one interleaving. *)
Lemma interleaved_alone (schedule : list nat)
    (bodies : list (list Orchestrator.Call)) :
  (length bodies <= 1)%nat →
  Orchestrator.interleaved schedule bodies = concat bodies.
Proof.
  unfold Orchestrator.interleaved.
  destruct bodies as [|l [|l' bodies]]; simpl; intros Hlen; [| |lia].
  - apply weave_none.
  - rewrite weave_alone, !app_nil_r. apply take_drop.
Qed.

Section BatchProofs.
Import metadataService Orchestrator.
Variable fetchFromNpmRegistry : string -> string -> JsError + Metadata.
Variable fetchDependencies : string -> string -> JsError + Payload.
Variable getVulnerabilities : string -> string -> string -> JsError + Payload.
Variable getPackageGitHubData : Metadata -> JsError + Payload.
Variable extractStaticAnalysisFeatures : string -> string -> string -> JsError + Payload.
Variable now : string.
Variable db : bool.
Variable schedule : Z -> list nat.
Variable options : BatchOptions.

Local Abbreviation collect :=
  (collectPackageData fetchFromNpmRegistry fetchDependencies getVulnerabilities
     getPackageGitHubData extractStaticAnalysisFeatures now db).
Local Abbreviation outcomeOf' :=
  (outcomeOf fetchFromNpmRegistry fetchDependencies getVulnerabilities
     getPackageGitHubData extractStaticAnalysisFeatures now db options).
Local Abbreviation callsOf' :=
  (callsOf fetchFromNpmRegistry fetchDependencies getVulnerabilities
     getPackageGitHubData extractStaticAnalysisFeatures now db options).
Local Abbreviation successesOf' :=
  (successesOf fetchFromNpmRegistry fetchDependencies getVulnerabilities
     getPackageGitHubData extractStaticAnalysisFeatures now db options).
Local Abbreviation failuresOf' :=
  (failuresOf fetchFromNpmRegistry fetchDependencies getVulnerabilities
     getPackageGitHubData extractStaticAnalysisFeatures now db options).

(** Each promise of a group settles to what its item settles to alone. *)
Lemma allSettled_collect (order : list nat) (batch : list Item) (t : list Call) :
  allSettled order
    ((λ item, collect (item_name item) (item_version item) (collectOptions options))
       <$> batch) t
  = (outcomeOf' <$> batch, t ++ interleaved order (callsOf' <$> batch)).
Proof.
  unfold allSettled. rewrite <- !list_fmap_compose. reflexivity.
Qed.

Lemma forEachResult_spec (items : list Item) : ∀ (pre : list Item) acc,
  forEachResult (pre ++ items) (length pre) (outcomeOf' <$> items) acc
  = (acc.1 ++ successesOf' items, acc.2 ++ failuresOf' items).
Proof.
  induction items as [|item items IH]; intros pre [rs es].
  - simpl. rewrite !app_nil_r. reflexivity.
  - cbn [fmap list_fmap forEachResult].
    replace (pre ++ item :: items) with ((pre ++ [item]) ++ items)
      by (rewrite <- app_assoc; reflexivity).
    replace (S (length pre)) with (length (pre ++ [item]))
      by (rewrite length_app; simpl; lia).
    assert (Hlook : ((pre ++ [item]) ++ items) !! length pre = Some item).
    { rewrite <- app_assoc. simpl. apply list_lookup_middle. reflexivity. }
    rewrite Hlook, IH.
    unfold Orchestrator.successesOf, Orchestrator.failuresOf. cbn [omap list_omap].
    destruct (outcomeOf' item) as [value|reason]; cbn [fst snd];
      rewrite <- ?app_assoc; reflexivity.
Qed.

Lemma successesOf_app (xs ys : list Item) :
  successesOf' (xs ++ ys) = successesOf' xs ++ successesOf' ys.
Proof. apply omap_app. Qed.

Lemma failuresOf_app (xs ys : list Item) :
  failuresOf' (xs ++ ys) = failuresOf' xs ++ failuresOf' ys.
Proof. apply omap_app. Qed.

(** Every item is filed once, as a success or as a failure. *)
Lemma successes_failures_length (items : list Item) :
  (length (successesOf' items) + length (failuresOf' items) = length items)%nat.
Proof.
  induction items as [|item items IH]; [reflexivity|].
  unfold Orchestrator.successesOf, Orchestrator.failuresOf in *.
  cbn [omap list_omap].
  destruct (outcomeOf' item); simpl; lia.
Qed.

Lemma batchLoop_spec (packageList : list Item) (fuel : nat) : ∀ i acc t,
  0 < concurrency options →
  0 <= i →
  (length packageList - Z.to_nat i < fuel)%nat →
  ∃ calls,
    batchLoop fetchFromNpmRegistry fetchDependencies getVulnerabilities
      getPackageGitHubData extractStaticAnalysisFeatures now db schedule
      fuel packageList options i acc t
    = Some ((acc.1 ++ successesOf' (drop (Z.to_nat i) packageList),
             acc.2 ++ failuresOf' (drop (Z.to_nat i) packageList)),
            t ++ calls)
    ∧ calls ≡ₚ concat (callsOf' <$> drop (Z.to_nat i) packageList)
    ∧ (∀ item, item ∈ drop (Z.to_nat i) packageList →
         callsOf' item `sublist_of` calls)
    ∧ (concurrency options = 1 →
       calls = concat (callsOf' <$> drop (Z.to_nat i) packageList)).
Proof.
  induction fuel as [|fuel IH]; intros i acc t Hc Hi Hfuel; [lia|].
  cbn [batchLoop].
  destruct (Z.ltb_spec i (Z.of_nat (length packageList))) as [Hlt|Hge].
  - rewrite js_slice_window by lia.
    rewrite allSettled_collect.
    set (rest := drop (Z.to_nat i) packageList).
    set (c := Z.to_nat (concurrency options)).
    pose proof (forEachResult_spec (take c rest) [] acc) as Hfe.
    simpl in Hfe. rewrite Hfe.
    destruct (IH (i + concurrency options)
                (acc.1 ++ successesOf' (take c rest), acc.2 ++ failuresOf' (take c rest))
                (t ++ interleaved (schedule i) (callsOf' <$> take c rest)))
      as (calls & Hrun & Hperm & Hsub & Hone); [exact Hc|lia|lia|].
    rewrite Hrun. cbn [fst snd].
    replace (Z.to_nat (i + concurrency options))
      with (Z.to_nat i + c)%nat in * by (subst c; lia).
    rewrite <- drop_drop in *. fold rest in Hperm, Hsub, Hone |- *.
    assert (E1 : successesOf' rest
                 = successesOf' (take c rest) ++ successesOf' (drop c rest))
      by (rewrite <- successesOf_app, take_drop; reflexivity).
    assert (E2 : failuresOf' rest
                 = failuresOf' (take c rest) ++ failuresOf' (drop c rest))
      by (rewrite <- failuresOf_app, take_drop; reflexivity).
    assert (E3 : concat (callsOf' <$> rest)
                 = concat (callsOf' <$> take c rest) ++ concat (callsOf' <$> drop c rest))
      by (rewrite <- concat_app, <- fmap_app, take_drop; reflexivity).
    exists (interleaved (schedule i) (callsOf' <$> take c rest) ++ calls).
    split; [rewrite E1, E2, <- !app_assoc; reflexivity|]. split; [|split].
    + rewrite E3, Hperm, interleaved_Permutation. reflexivity.
    + intros item Hitem. rewrite <- (take_drop c rest) in Hitem.
      apply elem_of_app in Hitem as [Hitem|Hitem].
      * apply sublist_inserts_r.
        apply list_elem_of_lookup in Hitem as [j Hj].
        apply (interleaved_sublist _ _ j). rewrite list_lookup_fmap, Hj. reflexivity.
      * apply sublist_inserts_l, Hsub, Hitem.
    + intros Hseq. rewrite E3, (Hone Hseq). f_equal.
      apply interleaved_alone. rewrite length_fmap, length_take. subst c. lia.
  - rewrite drop_ge by lia. exists []. simpl. rewrite !app_nil_r.
    split; [destruct acc; reflexivity|]. split; [reflexivity|].
    split; [|reflexivity]. intros item Hitem. apply elem_of_nil in Hitem. contradiction.
Qed.

Lemma outcomeOf_fulfilled (item : Item) (value : CollectionResult) :
  outcomeOf' item = Fulfilled value →
  mkItem (packageName value) (version value) = item.
Proof.
  unfold Orchestrator.outcomeOf.
  destruct (fetchFromNpmRegistry (item_name item) (item_version item))
    as [error|metadata] eqn:Hmd.
  - rewrite (collect_run_fail _ _ _ _ _ _ _ _ _ _ error) by exact Hmd. discriminate.
  - rewrite (collect_run_ok _ _ _ _ _ _ _ _ _ _ metadata) by exact Hmd.
    cbn [fst settle]. intros H. inversion H.
    destruct (collected_identity fetchDependencies getVulnerabilities
                getPackageGitHubData extractStaticAnalysisFeatures now
                (item_name item) (item_version item) (collectOptions options) metadata)
      as [-> ->].
    destruct item; reflexivity.
Qed.

(** Successes and failures keep the order of the items they come from. *)
Lemma successesOf_sublist (items : list Item) :
  ((λ r, mkItem (packageName r) (version r)) <$> successesOf' items)
    `sublist_of` items.
Proof.
  induction items as [|item items IH]; [constructor|].
  unfold Orchestrator.successesOf in *. cbn [omap list_omap].
  destruct (outcomeOf' item) as [value|reason] eqn:Hout.
  - csimpl. rewrite (outcomeOf_fulfilled item value Hout).
    apply sublist_skip, IH.
  - apply sublist_cons, IH.
Qed.

Lemma failuresOf_sublist (items : list Item) :
  (be_package <$> failuresOf' items) `sublist_of` (Some <$> items).
Proof.
  induction items as [|item items IH]; [constructor|].
  unfold Orchestrator.failuresOf in *. cbn [omap list_omap].
  destruct (outcomeOf' item) as [value|reason] eqn:Hout; csimpl.
  - apply sublist_cons, IH.
  - apply sublist_skip, IH.
Qed.

Lemma batchCollectPackages_run (packageList : list Item) (fuel : nat)
    (t : list Call) :
  0 < concurrency options →
  (length packageList < fuel)%nat →
  ∃ calls,
    batchCollectPackages fetchFromNpmRegistry fetchDependencies getVulnerabilities
      getPackageGitHubData extractStaticAnalysisFeatures now db schedule
      fuel packageList options t
    = Some (mkBatchResult (successesOf' packageList) (failuresOf' packageList)
              (mkBatchSummary (length packageList)
                 (length (successesOf' packageList))
                 (length (failuresOf' packageList))),
            t ++ calls)
    ∧ calls ≡ₚ concat (callsOf' <$> packageList)
    ∧ (∀ item, item ∈ packageList → callsOf' item `sublist_of` calls)
    ∧ (concurrency options = 1 → calls = concat (callsOf' <$> packageList)).
Proof.
  intros Hc Hfuel. unfold batchCollectPackages.
  destruct (batchLoop_spec packageList fuel 0 ([], []) t)
    as (calls & Hrun & Hperm & Hsub & Hone); [exact Hc|lia|simpl; lia|].
  rewrite Hrun. exists calls. split; [reflexivity|].
  split; [exact Hperm|]. split; [exact Hsub|exact Hone].
Qed.
End BatchProofs.

(** C2.  For every list of items, every positive concurrency and every
    order in which the answers arrive, [batchCollectPackages] completes:
    its successes are the results of the items whose own collection is
    fulfilled, its failures name the items whose own collection is
    rejected, both in the order of the input (each is a subsequence of the
    items), every item being filed exactly once.  The calls of the items of
    a group are interleaved, but every item issues all the calls of its own
    collection, in their order, whatever the other items settled to, and no
    other call is issued. *)
Theorem batchCollectPackages_settles_every_item
    (fetchFromNpmRegistry : string -> string -> JsError + metadataService.Metadata)
    (fetchDependencies : string -> string -> JsError + Orchestrator.Payload)
    (getVulnerabilities : string -> string -> string -> JsError + Orchestrator.Payload)
    (getPackageGitHubData : metadataService.Metadata -> JsError + Orchestrator.Payload)
    (extractStaticAnalysisFeatures :
       string -> string -> string -> JsError + Orchestrator.Payload)
    (now : string) (db : bool) (schedule : Z -> list nat)
    (items : list Orchestrator.Item) (options : Orchestrator.BatchOptions)
    (fuel : nat) (t : list Orchestrator.Call) :
  0 < Orchestrator.concurrency options →
  (length items < fuel)%nat →
  let callsOf :=
    Orchestrator.callsOf fetchFromNpmRegistry fetchDependencies getVulnerabilities
      getPackageGitHubData extractStaticAnalysisFeatures now db options in
  ∃ res calls,
    Orchestrator.batchCollectPackages fetchFromNpmRegistry fetchDependencies
      getVulnerabilities getPackageGitHubData extractStaticAnalysisFeatures now db
      schedule fuel items options t
    = Some (res, t ++ calls)
    ∧ calls ≡ₚ concat (callsOf <$> items)
    ∧ (∀ item, item ∈ items → callsOf item `sublist_of` calls)
    ∧ Orchestrator.results res
      = Orchestrator.successesOf fetchFromNpmRegistry fetchDependencies
          getVulnerabilities getPackageGitHubData extractStaticAnalysisFeatures
          now db options items
    ∧ Orchestrator.errors res
      = Orchestrator.failuresOf fetchFromNpmRegistry fetchDependencies
          getVulnerabilities getPackageGitHubData extractStaticAnalysisFeatures
          now db options items
    ∧ Orchestrator.total (Orchestrator.summary res) = length items
    ∧ Orchestrator.successful (Orchestrator.summary res)
      = length (Orchestrator.results res)
    ∧ Orchestrator.failed (Orchestrator.summary res)
      = length (Orchestrator.errors res)
    ∧ (length (Orchestrator.results res) + length (Orchestrator.errors res)
       = length items)%nat
    ∧ ((λ r, Orchestrator.mkItem (Orchestrator.packageName r) (Orchestrator.version r))
         <$> Orchestrator.results res) `sublist_of` items
    ∧ (Orchestrator.be_package <$> Orchestrator.errors res)
        `sublist_of` (Some <$> items).
Proof.
  intros Hc Hfuel. cbv zeta.
  destruct (batchCollectPackages_run fetchFromNpmRegistry fetchDependencies
              getVulnerabilities getPackageGitHubData extractStaticAnalysisFeatures
              now db schedule options items fuel t Hc Hfuel)
    as (calls & Hrun & Hperm & Hsub & _).
  eexists. exists calls. split; [exact Hrun|].
  split; [exact Hperm|]. split; [exact Hsub|].
  cbn [Orchestrator.results Orchestrator.errors Orchestrator.summary
       Orchestrator.total Orchestrator.successful Orchestrator.failed].
  repeat (split; [reflexivity|]).
  split; [apply successes_failures_length|].
  split; [apply successesOf_sublist|apply failuresOf_sublist].
Qed.

Lemma batchCollectPackages_settles_every_item_witness :
  ∃ res t,
    Scenario.batchOf 6 Scenario.fiveItems
      (Orchestrator.mkBatchOptions (Some 2) Scenario.everythingOn) = Some (res, t)
    ∧ length (Orchestrator.results res) = 4%nat
    ∧ Orchestrator.errors res
      = [Orchestrator.mkBatchError (Some (Orchestrator.mkItem "c" "3.0.0"))
           "Package c not found"]
    ∧ length t = 13%nat.
Proof.
  unfold Scenario.batchOf.
  match goal with
  | |- context [Orchestrator.batchCollectPackages ?f ?d ?v ?g ?s ?n ?b ?sch ?fuel ?l ?o ?t] =>
      destruct (batchCollectPackages_settles_every_item f d v g s n b sch l o fuel t)
        as (res & calls & Hrun & Hperm & _ & Hres & Herr & _)
  end.
  - reflexivity.
  - simpl. lia.
  - exists res. eexists. split; [exact Hrun|].
    rewrite Hres, Herr. split; [vm_compute; reflexivity|].
    split; [vm_compute; reflexivity|].
    etrans; [exact (Permutation_length Hperm)|vm_compute; reflexivity].
Defined.

(** C6.  For a fixed item list and fixed collection options, any two
    positive concurrency values (1 and another in particular) give the same
    batch result, successes and failures in the same order, whatever the
    order in which the answers arrive: the result is that of the items
    taken one at a time.  The two runs issue the same calls, in an order
    that depends on the grouping; with concurrency 1 the calls are those of
    the items one after the other. *)
Theorem batchCollectPackages_concurrency_irrelevant
    (fetchFromNpmRegistry : string -> string -> JsError + metadataService.Metadata)
    (fetchDependencies : string -> string -> JsError + Orchestrator.Payload)
    (getVulnerabilities : string -> string -> string -> JsError + Orchestrator.Payload)
    (getPackageGitHubData : metadataService.Metadata -> JsError + Orchestrator.Payload)
    (extractStaticAnalysisFeatures :
       string -> string -> string -> JsError + Orchestrator.Payload)
    (now : string) (db : bool) (schedule1 schedule2 : Z -> list nat)
    (items : list Orchestrator.Item) (collectOptions : Orchestrator.CollectOptions)
    (c1 c2 : Z) (fuel : nat) (t : list Orchestrator.Call) :
  0 < c1 → 0 < c2 →
  (length items < fuel)%nat →
  ∃ res calls1 calls2,
    Orchestrator.batchCollectPackages fetchFromNpmRegistry fetchDependencies
      getVulnerabilities getPackageGitHubData extractStaticAnalysisFeatures now db
      schedule1 fuel items (Orchestrator.mkBatchOptions (Some c1) collectOptions) t
    = Some (res, t ++ calls1)
    ∧ Orchestrator.batchCollectPackages fetchFromNpmRegistry fetchDependencies
        getVulnerabilities getPackageGitHubData extractStaticAnalysisFeatures now db
        schedule2 fuel items (Orchestrator.mkBatchOptions (Some c2) collectOptions) t
      = Some (res, t ++ calls2)
    ∧ Orchestrator.results res
      = Orchestrator.successesOf fetchFromNpmRegistry fetchDependencies
          getVulnerabilities getPackageGitHubData extractStaticAnalysisFeatures
          now db (Orchestrator.mkBatchOptions (Some 1) collectOptions) items
    ∧ Orchestrator.errors res
      = Orchestrator.failuresOf fetchFromNpmRegistry fetchDependencies
          getVulnerabilities getPackageGitHubData extractStaticAnalysisFeatures
          now db (Orchestrator.mkBatchOptions (Some 1) collectOptions) items
    ∧ calls1 ≡ₚ calls2
    ∧ (c1 = 1 →
       calls1
       = concat (Orchestrator.callsOf fetchFromNpmRegistry fetchDependencies
                   getVulnerabilities getPackageGitHubData
                   extractStaticAnalysisFeatures now db
                   (Orchestrator.mkBatchOptions (Some 1) collectOptions) <$> items)).
Proof.
  intros Hc1 Hc2 Hfuel.
  destruct (batchCollectPackages_run fetchFromNpmRegistry fetchDependencies
              getVulnerabilities getPackageGitHubData extractStaticAnalysisFeatures
              now db schedule1 (Orchestrator.mkBatchOptions (Some c1) collectOptions)
              items fuel t Hc1 Hfuel)
    as (calls1 & Hrun1 & Hperm1 & _ & Hone).
  destruct (batchCollectPackages_run fetchFromNpmRegistry fetchDependencies
              getVulnerabilities getPackageGitHubData extractStaticAnalysisFeatures
              now db schedule2 (Orchestrator.mkBatchOptions (Some c2) collectOptions)
              items fuel t Hc2 Hfuel)
    as (calls2 & Hrun2 & Hperm2 & _ & _).
  eexists. exists calls1, calls2. split; [exact Hrun1|].
  split; [exact Hrun2|]. split; [reflexivity|]. split; [reflexivity|].
  split; [rewrite Hperm1, Hperm2; reflexivity|].
  intros ->. apply Hone. reflexivity.
Qed.

Lemma batchCollectPackages_concurrency_irrelevant_witness :
  ∃ res calls1 calls2,
    Scenario.batchOf 3
      [Orchestrator.mkItem "a" "1.0.0"; Orchestrator.mkItem "b" "2.0.0"]
      (Orchestrator.mkBatchOptions (Some 1) Scenario.everythingOn)
    = Some (res, calls1)
    ∧ Scenario.batchOf 3
        [Orchestrator.mkItem "a" "1.0.0"; Orchestrator.mkItem "b" "2.0.0"]
        (Orchestrator.mkBatchOptions (Some 2) Scenario.everythingOn)
      = Some (res, calls2)
    ∧ calls1 ≡ₚ calls2
    ∧ calls1 ≠ calls2.
Proof.
  unfold Scenario.batchOf.
  match goal with
  | |- context [Orchestrator.batchCollectPackages ?f ?d ?v ?g ?s ?n ?b ?sch ?fuel ?l
                  (Orchestrator.mkBatchOptions (Some 1) ?co) ?t] =>
      destruct (batchCollectPackages_concurrency_irrelevant
                  f d v g s n b sch sch l co 1 2 fuel t)
        as (res & calls1 & calls2 & H1 & H2 & _ & _ & Hperm & _)
  end.
  - lia.
  - lia.
  - simpl. lia.
  - exists res, calls1, calls2. split; [exact H1|]. split; [exact H2|].
    split; [exact Hperm|].
    intros Heq. subst calls2.
    pose proof (eq_trans H1 (eq_sym H2)) as E. clear - E.
    vm_compute in E. discriminate E.
Defined.

(** ** [collectLabeledTrainingData] *)

Section TrainingProofs.
Import metadataService Orchestrator.
Variable fetchFromNpmRegistry : string -> string -> JsError + Metadata.
Variable fetchDependencies : string -> string -> JsError + Payload.
Variable getVulnerabilities : string -> string -> string -> JsError + Payload.
Variable getPackageGitHubData : Metadata -> JsError + Payload.
Variable extractStaticAnalysisFeatures : string -> string -> string -> JsError + Payload.
Variable now : string.
Variable db : bool.

Local Abbreviation attach :=
  (attachFullData fetchFromNpmRegistry fetchDependencies getVulnerabilities
     getPackageGitHubData extractStaticAnalysisFeatures now db).
Local Abbreviation fullDataOf' :=
  (fullDataOf fetchFromNpmRegistry fetchDependencies getVulnerabilities
     getPackageGitHubData extractStaticAnalysisFeatures now db).
Local Abbreviation fullDataCalls' :=
  (fullDataCalls fetchFromNpmRegistry fetchDependencies getVulnerabilities
     getPackageGitHubData extractStaticAnalysisFeatures now db).
Local Abbreviation enriched' :=
  (enriched fetchFromNpmRegistry fetchDependencies getVulnerabilities
     getPackageGitHubData extractStaticAnalysisFeatures now db).

(** The loop body never throws; it sets [fullData] when the collection of
    the package succeeds. *)
Lemma attachFullData_run (p : maliciousPackageService.Package) (t : list Call) :
  attach (mkTrainingPackage p None) t
  = (inr (mkTrainingPackage p (fullDataOf' p)), t ++ fullDataCalls' p).
Proof.
  unfold attachFullData, try_catch, bind, Orchestrator.fullDataOf,
    Orchestrator.fullDataCalls.
  cbn [pkg]. rewrite collect_frame.
  destruct (collectPackageData _ _ _ _ _ _ _ _ _ _ []) as [[e|d] calls]; reflexivity.
Qed.

Lemma forOf_attach (ps : list maliciousPackageService.Package) : ∀ t,
  forOf attach ((λ p, mkTrainingPackage p None) <$> ps) t
  = (inr ((λ p, mkTrainingPackage p (fullDataOf' p)) <$> ps),
     t ++ concat (fullDataCalls' <$> ps)).
Proof.
  induction ps as [|p ps IH]; intros t; csimpl.
  - unfold ret. rewrite app_nil_r. reflexivity.
  - unfold bind at 1. rewrite attachFullData_run.
    unfold bind at 1. rewrite IH. unfold ret. rewrite <- app_assoc. reflexivity.
Qed.

Lemma enrichFirst_run (n : nat) (ps : list maliciousPackageService.Package)
    (t : list Call) :
  enrichFirst fetchFromNpmRegistry fetchDependencies getVulnerabilities
    getPackageGitHubData extractStaticAnalysisFeatures now db
    (Z.of_nat n) ((λ p, mkTrainingPackage p None) <$> ps) t
  = (inr (enriched' n ps), t ++ concat (fullDataCalls' <$> take n ps)).
Proof.
  unfold enrichFirst. rewrite js_slice_prefix by lia. rewrite Nat2Z.id.
  rewrite <- fmap_take. unfold bind. rewrite forOf_attach. unfold ret.
  unfold Orchestrator.enriched. do 2 f_equal.
  rewrite length_fmap, fmap_drop. f_equal.
  rewrite length_take. destruct (Nat.le_gt_cases n (length ps)) as [Hle|Hgt].
  - rewrite Nat.min_l by lia. reflexivity.
  - rewrite Nat.min_r by lia. rewrite !drop_ge; [reflexivity| |];
      rewrite ?length_fmap; lia.
Qed.

Lemma enriched_lookup (n : nat) (ps : list maliciousPackageService.Package)
    (i : nat) (p : TrainingPackage) :
  enriched' n ps !! i = Some p →
  ps !! i = Some (pkg p)
  ∧ fullData p = if decide (i < n)%nat then fullDataOf' (pkg p) else None.
Proof.
  unfold Orchestrator.enriched. intros H.
  destruct (decide (i < n)%nat) as [Hlt|Hge].
  - destruct (decide (i < length ps)%nat) as [Hin|Hout].
    + rewrite lookup_app_l in H by (rewrite length_fmap, length_take; lia).
      rewrite list_lookup_fmap, lookup_take_lt in H by lia.
      destruct (ps !! i) as [q|]; simpl in H; [|discriminate].
      inversion H; subst. split; reflexivity.
    + apply lookup_lt_Some in H.
      rewrite length_app, !length_fmap, length_take, length_drop in H. lia.
  - rewrite lookup_app_r in H by (rewrite length_fmap, length_take; lia).
    rewrite length_fmap, length_take, list_lookup_fmap, lookup_drop in H.
    destruct (Nat.le_gt_cases n (length ps)) as [Hle|Hgt].
    + rewrite Nat.min_l in H by lia.
      replace (n + (i - n))%nat with i in H by lia.
      destruct (ps !! i) as [q|]; simpl in H; [|discriminate].
      inversion H; subst. split; reflexivity.
    + rewrite lookup_ge_None_2 in H by lia. discriminate.
Qed.

Lemma enriched_pkg (n : nat) (ps : list maliciousPackageService.Package) :
  pkg <$> enriched' n ps = ps.
Proof.
  assert (H : ∀ (f : maliciousPackageService.Package -> option CollectionResult)
              (l : list maliciousPackageService.Package),
            pkg <$> ((λ p, mkTrainingPackage p (f p)) <$> l) = l).
  { intros f l. induction l as [|q l IH]; csimpl; [reflexivity|].
    rewrite IH. reflexivity. }
  unfold Orchestrator.enriched. rewrite fmap_app.
  rewrite (H fullDataOf'), (H (λ _, None)). apply take_drop.
Qed.

Lemma enriched_count (n : nat) (ps : list maliciousPackageService.Package) :
  (length (List.filter has_fullData (enriched' n ps)) <= n)%nat.
Proof.
  unfold Orchestrator.enriched. rewrite List.filter_app, length_app.
  assert (Hrest : List.filter has_fullData
                    ((λ p, mkTrainingPackage p None) <$> drop n ps) = []).
  { induction (drop n ps) as [|q qs IH]; [reflexivity|]. csimpl. exact IH. }
  rewrite Hrest. simpl.
  pose proof (filter_length_le has_fullData
                ((λ p, mkTrainingPackage p (fullDataOf' p)) <$> take n ps)) as Hle.
  rewrite length_fmap, length_take in Hle. lia.
Qed.
End TrainingProofs.

(** C9.  Whatever counts are requested and however many packages the
    services return, only the first 10 malicious and the first 50 benign
    packages of the result can carry [fullData] (they carry it when their
    own collection succeeds); every later package is returned without it.
    The summary holds the two list lengths and the number of packages with
    [fullData], and the result has no other field: the two limits are not
    part of it. *)
Theorem collectLabeledTrainingData_caps_fullData
    (fetchFromNpmRegistry : string -> string -> JsError + metadataService.Metadata)
    (fetchDependencies : string -> string -> JsError + Orchestrator.Payload)
    (getVulnerabilities : string -> string -> string -> JsError + Orchestrator.Payload)
    (getPackageGitHubData : metadataService.Metadata -> JsError + Orchestrator.Payload)
    (extractStaticAnalysisFeatures :
       string -> string -> string -> JsError + Orchestrator.Payload)
    (collectAllMaliciousPackages : JsError + list maliciousPackageService.Package)
    (collectAllBenignPackages : Z -> JsError + list maliciousPackageService.Package)
    (now : string) (db : bool)
    (options : Orchestrator.TrainingOptions)
    (ms bs : list maliciousPackageService.Package) (t : list Orchestrator.Call) :
  collectAllMaliciousPackages = inr ms →
  collectAllBenignPackages (Orchestrator.benignCount options) = inr bs →
  let fullDataOf :=
    Orchestrator.fullDataOf fetchFromNpmRegistry fetchDependencies getVulnerabilities
      getPackageGitHubData extractStaticAnalysisFeatures now db in
  ∃ res t',
    Orchestrator.collectLabeledTrainingData fetchFromNpmRegistry fetchDependencies
      getVulnerabilities getPackageGitHubData extractStaticAnalysisFeatures
      collectAllMaliciousPackages collectAllBenignPackages now db options t
    = (inr res, t')
    ∧ Orchestrator.pkg <$> Orchestrator.malicious res
      = js_slice 0 (Orchestrator.maliciousCount options) ms
    ∧ Orchestrator.pkg <$> Orchestrator.benign res = bs
    ∧ (∀ (i : nat) p,
         Orchestrator.malicious res !! i = Some p →
         Orchestrator.fullData p
         = if decide (i < 10)%nat then fullDataOf (Orchestrator.pkg p) else None)
    ∧ (∀ (i : nat) p,
         Orchestrator.benign res !! i = Some p →
         Orchestrator.fullData p
         = if decide (i < 50)%nat then fullDataOf (Orchestrator.pkg p) else None)
    ∧ (length (List.filter Orchestrator.has_fullData (Orchestrator.malicious res))
       <= 10)%nat
    ∧ (length (List.filter Orchestrator.has_fullData (Orchestrator.benign res))
       <= 50)%nat
    ∧ Orchestrator.tr_summary res
      = Orchestrator.mkTrainingSummary
          (length (Orchestrator.malicious res))
          (length (Orchestrator.benign res))
          (length (List.filter Orchestrator.has_fullData (Orchestrator.malicious res))
           + length (List.filter Orchestrator.has_fullData (Orchestrator.benign res))).
Proof.
  intros Hms Hbs. cbv zeta.
  unfold Orchestrator.collectLabeledTrainingData, Orchestrator.try_catch,
    Orchestrator.bind.
  unfold Orchestrator.await at 1. rewrite Hms.
  unfold Orchestrator.await at 1. rewrite Hbs.
  rewrite (enrichFirst_run _ _ _ _ _ _ _ 10%nat).
  rewrite (enrichFirst_run _ _ _ _ _ _ _ 50%nat).
  unfold Orchestrator.ret.
  eexists. eexists. split; [reflexivity|].
  cbn [Orchestrator.malicious Orchestrator.benign Orchestrator.tr_summary].
  split; [apply enriched_pkg|]. split; [apply enriched_pkg|].
  split; [intros i p H; apply (enriched_lookup _ _ _ _ _ _ _ _ _ _ _ H)|].
  split; [intros i p H; apply (enriched_lookup _ _ _ _ _ _ _ _ _ _ _ H)|].
  split; [apply enriched_count|]. split; [apply enriched_count|].
  rewrite length_app. reflexivity.
Qed.

Lemma collectLabeledTrainingData_caps_fullData_witness :
  ∃ res t p,
    Scenario.trainingRun (Orchestrator.mkTrainingOptions (Some 1000) None) []
    = (inr res, t)
    ∧ length (Orchestrator.malicious res) = 12%nat
    ∧ Orchestrator.malicious res !! 10%nat = Some p
    ∧ Orchestrator.fullData p = None
    ∧ (length (List.filter Orchestrator.has_fullData (Orchestrator.malicious res))
       <= 10)%nat.
Proof.
  unfold Scenario.trainingRun.
  match goal with
  | |- context [Orchestrator.collectLabeledTrainingData
                  ?f ?d ?v ?g ?s ?m ?b ?n ?db ?o ?t] =>
      destruct (collectLabeledTrainingData_caps_fullData
                  f d v g s m b n db o Scenario.twelve [] t eq_refl eq_refl)
        as (res & t' & Hrun & Hpkg & _ & Hfull & _ & Hcap & _)
  end.
  assert (Hlen : length (Orchestrator.malicious res) = 12%nat).
  { rewrite <- (length_fmap Orchestrator.pkg), Hpkg. reflexivity. }
  destruct (lookup_lt_is_Some_2 (Orchestrator.malicious res) 10%nat) as [p Hp];
    [lia|].
  exists res, t', p. split; [exact Hrun|]. split; [exact Hlen|].
  split; [exact Hp|]. split; [|exact Hcap].
  rewrite (Hfull _ _ Hp). reflexivity.
Defined.

(** The traversal of two packages that depend on each other: the second
    visit of [a] is an empty leaf, and [c], unknown to the registry, has an
    empty subtree. *)
Example buildDependencyTree_cycle :
  dependenciesService.buildDependencyTree Scenario.registry 6 "a" "1.0.0" 5 0 ∅
  = Some [dependenciesService.mkTransitive "b" "2.0.0" "transitive" 1 "a";
          dependenciesService.mkTransitive "a" "1.0.0" "transitive" 2 "b";
          dependenciesService.mkTransitive "c" "~3.1.0" "transitive" 2 "b"].
Proof. vm_compute. reflexivity. Qed.

(** * Further properties of the code *)

(** ** [apiCallWithRetry]: every way it ends *)

Section RetryEnds.
Import RateLimiterJs.
Context {V : Type}.
Variable apiCall : nat -> ApiError + V.
Variable options : RetryOptions.

Local Abbreviation ends_with := (RateLimiterLog.ends_with apiCall).

Lemma retryLoop_ends (fuel : nat) : ∀ (attempt : Z) last (w : RetryWorld),
  length (sleeps w) = calls w →
  Z.of_nat (calls w) = attempt - 1 →
  (attempt <= maxRetries options ∨ (calls w = 0%nat ∧ last = None)) →
  ends_with (Thrown last) w →
  (Z.to_nat (maxRetries options - attempt + 1) < fuel)%nat →
  ∃ r w',
    retryLoop apiCall options fuel attempt last w = Some (r, w')
    ∧ Z.of_nat (calls w') <= Z.max 0 (maxRetries options)
    ∧ length (sleeps w') = (calls w' - 1)%nat
    ∧ ends_with r w'.
Proof.
  induction fuel as [|fuel IH]; intros attempt last w Hsl Hcalls Hhead Hlast Hfuel;
    [lia|].
  cbn [retryLoop invoke].
  destruct (Z.leb_spec attempt (maxRetries options)) as [Hle|Hgt].
  - destruct (apiCall (calls w)) as [error|v] eqn:Hcall.
    + destruct (negb (shouldRetry options error) || (maxRetries options <=? attempt))
        eqn:Hstop.
      * eexists. eexists. split; [reflexivity|]. cbn [calls sleeps].
        split; [lia|]. split; [lia|]. cbn [RateLimiterLog.ends_with calls].
        split; [lia|]. replace (S (calls w) - 1)%nat with (calls w) by lia. exact Hcall.
      * apply orb_false_iff in Hstop as [_ Hlt]. apply Z.leb_gt in Hlt.
        apply IH; unfold sleep; cbn [calls sleeps].
        -- rewrite length_app. simpl. lia.
        -- lia.
        -- left. lia.
        -- cbn [RateLimiterLog.ends_with calls]. split; [lia|].
           replace (S (calls w) - 1)%nat with (calls w) by lia. exact Hcall.
        -- lia.
    + eexists. eexists. split; [reflexivity|]. cbn [calls sleeps].
      split; [lia|]. split; [lia|]. cbn [RateLimiterLog.ends_with calls].
      split; [lia|]. replace (S (calls w) - 1)%nat with (calls w) by lia. exact Hcall.
  - destruct Hhead as [Hle|[H0 ->]]; [lia|].
    eexists. eexists. split; [reflexivity|].
    split; [lia|]. split; [lia|]. exact H0.
Qed.

Lemma retryLoop_throws (es : list ApiError) (e : ApiError) :
  ∀ (fuel : nat) (attempt : Z) last (w : RetryWorld),
    (∀ (i : nat) x, (es ++ [e]) !! i = Some x → apiCall (calls w + i) = inl x) →
    Forall (λ x, shouldRetry options x = true) es →
    attempt + Z.of_nat (length es) <= maxRetries options →
    (shouldRetry options e = false
     ∨ attempt + Z.of_nat (length es) = maxRetries options) →
    (length es < fuel)%nat →
    retryLoop apiCall options fuel attempt last w
    = Some (Thrown (Some e),
            mkRetryWorld (calls w + S (length es))
              (sleeps w ++ imap (λ i x, finalDelay options (attempt + Z.of_nat i) x) es)).
Proof.
  induction es as [|x es IH]; intros fuel attempt last w Hfail Hretry Hle Hstop Hfuel.
  - destruct fuel as [|fuel]; [simpl in Hfuel; lia|].
    cbn [retryLoop invoke]. simpl in Hle, Hstop.
    destruct (Z.leb_spec attempt (maxRetries options)); [|lia].
    specialize (Hfail 0%nat e eq_refl). rewrite Nat.add_0_r in Hfail. rewrite Hfail.
    assert (Hcond : negb (shouldRetry options e) || (maxRetries options <=? attempt) = true).
    { destruct Hstop as [->|Heq]; [reflexivity|].
      apply orb_true_iff. right. apply Z.leb_le. lia. }
    rewrite Hcond. simpl. rewrite app_nil_r. do 3 f_equal. lia.
  - destruct fuel as [|fuel]; [simpl in Hfuel; lia|].
    cbn [retryLoop invoke]. simpl in Hle, Hstop.
    destruct (Z.leb_spec attempt (maxRetries options)); [|lia].
    pose proof (Hfail 0%nat x eq_refl) as Hcall.
    rewrite Nat.add_0_r in Hcall. rewrite Hcall.
    apply Forall_cons in Hretry as [Hx Hretry]. rewrite Hx. simpl negb.
    destruct (Z.leb_spec (maxRetries options) attempt); [lia|]. simpl orb. cbv iota.
    rewrite IH.
    + simpl. f_equal. f_equal. f_equal; [lia|].
      rewrite <- app_assoc. simpl. rewrite Z.add_0_r. do 2 f_equal.
      apply imap_ext. intros i y _. simpl. f_equal. lia.
    + intros i y Hi. cbn [calls sleep].
      replace (S (calls w) + i)%nat with (calls w + S i)%nat by lia.
      apply Hfail. exact Hi.
    + exact Hretry.
    + lia.
    + destruct Hstop as [Hs|Hs]; [left; exact Hs|right; lia].
    + simpl in Hfuel. lia.
Qed.
End RetryEnds.

(** X1.  Whatever the callable does, [apiCallWithRetry] ends: it invokes
    the callable at most [maxRetries] times (never, when [maxRetries] is
    below 1), sleeps exactly once between two consecutive invocations, and
    what it returns or throws is the outcome of its last invocation; when it
    made none it throws [undefined]. *)
Theorem apiCallWithRetry_always_ends {V : Type}
    (apiCall : nat -> RateLimiterJs.ApiError + V)
    (options : RateLimiterJs.RetryOptions) (fuel : nat) :
  (Z.to_nat (RateLimiterJs.maxRetries options) < fuel)%nat →
  ∃ r w,
    RateLimiterJs.apiCallWithRetry apiCall options fuel = Some (r, w)
    ∧ Z.of_nat (RateLimiterJs.calls w) <= Z.max 0 (RateLimiterJs.maxRetries options)
    ∧ length (RateLimiterJs.sleeps w) = (RateLimiterJs.calls w - 1)%nat
    ∧ RateLimiterLog.ends_with apiCall r w.
Proof.
  intros Hfuel. unfold RateLimiterJs.apiCallWithRetry.
  apply retryLoop_ends; cbn [RateLimiterJs.calls RateLimiterJs.sleeps].
  - reflexivity.
  - reflexivity.
  - destruct (Z.le_gt_cases 1 (RateLimiterJs.maxRetries options)); [left; lia|right; auto].
  - reflexivity.
  - lia.
Qed.

Lemma apiCallWithRetry_always_ends_witness :
  ∃ r w,
    RateLimiterJs.apiCallWithRetry (Scenario.scripted Scenario.hinted)
      (RateLimiterJs.mkRetryOptions (Some 2) None None None) 3 = Some (r, w)
    ∧ Z.of_nat (RateLimiterJs.calls w) <= 2
    ∧ length (RateLimiterJs.sleeps w) = (RateLimiterJs.calls w - 1)%nat.
Proof.
  destruct (apiCallWithRetry_always_ends (Scenario.scripted Scenario.hinted)
              (RateLimiterJs.mkRetryOptions (Some 2) None None None) 3)
    as (r & w & Hrun & Hcalls & Hsleeps & _); [vm_compute; lia|].
  exists r, w. split; [exact Hrun|]. split; [exact Hcalls|exact Hsleeps].
Defined.

(** X2.  A callable that keeps failing makes [apiCallWithRetry] throw the
    error of its last invocation: at once, without any sleep, when the first
    error is not retryable; after the retryable errors that precede it, when
    a later one is not; and after exactly [maxRetries] invocations and
    [maxRetries - 1] sleeps when every error is retryable. *)
Theorem apiCallWithRetry_throws_last_error {V : Type}
    (apiCall : nat -> RateLimiterJs.ApiError + V)
    (options : RateLimiterJs.RetryOptions)
    (es : list RateLimiterJs.ApiError) (e : RateLimiterJs.ApiError) (fuel : nat) :
  (∀ (i : nat) x, (es ++ [e]) !! i = Some x → apiCall i = inl x) →
  Forall (λ x, RateLimiterJs.shouldRetry options x = true) es →
  Z.of_nat (length es) < RateLimiterJs.maxRetries options →
  (RateLimiterJs.shouldRetry options e = false
   ∨ Z.of_nat (length es) + 1 = RateLimiterJs.maxRetries options) →
  (length es < fuel)%nat →
  RateLimiterJs.apiCallWithRetry apiCall options fuel
  = Some (RateLimiterJs.Thrown (Some e),
          RateLimiterJs.mkRetryWorld (S (length es))
            (imap (λ i x, RateLimiterJs.finalDelay options (1 + Z.of_nat i) x) es)).
Proof.
  intros Hfail Hretry Hlen Hstop Hfuel. unfold RateLimiterJs.apiCallWithRetry.
  rewrite (retryLoop_throws apiCall options es e); cbn [RateLimiterJs.calls];
    try assumption; try lia.
  - reflexivity.
  - destruct Hstop as [H|H]; [left; exact H|right; lia].
Qed.

Lemma apiCallWithRetry_throws_last_error_witness :
  RateLimiterJs.apiCallWithRetry
    (λ n, match [Scenario.serviceUnavailable; Sample.notFound] !! n with
          | Some x => inl x
          | None => inr "late"%string
          end)
    Scenario.noOptions 2
  = Some (RateLimiterJs.Thrown (Some Sample.notFound),
          RateLimiterJs.mkRetryWorld 2 [Num 1000]).
Proof.
  rewrite (apiCallWithRetry_throws_last_error _ Scenario.noOptions
             [Scenario.serviceUnavailable] Sample.notFound 2).
  - reflexivity.
  - intros [|[|i]] x Hx; simpl in Hx; inversion Hx; reflexivity.
  - repeat constructor.
  - vm_compute. reflexivity.
  - left. reflexivity.
  - simpl. lia.
Defined.

(** ** [RateLimiter]: what an admission guarantees *)

Section WindowProofs.
Import RateLimiterJs RateLimiterLog.

Lemma filter_window_compose (W c c' : Z) (xs : list Z) :
  c <= c' →
  List.filter (λ t, c' - t <? W) (List.filter (λ t, c - t <? W) xs)
  = List.filter (λ t, c' - t <? W) xs.
Proof.
  intros Hc. induction xs as [|x xs IH]; simpl; [reflexivity|].
  destruct (Z.ltb_spec (c - x) W) as [Hin|Hout]; simpl.
  - rewrite IH. reflexivity.
  - rewrite IH. destruct (Z.ltb_spec (c' - x) W); [lia|reflexivity].
Qed.

Lemma filter_full {A} (f : A -> bool) (l : list A) :
  length (List.filter f l) = length l → List.filter f l = l.
Proof.
  induction l as [|x l IH]; simpl; [reflexivity|].
  pose proof (filter_length_le f l) as Hle. destruct (f x); simpl; intros H; [|lia].
  f_equal. apply IH. lia.
Qed.

Lemma Math_min_spec (xs : list Z) :
  xs ≠ [] → ∃ lo, Math_min xs = Some lo ∧ lo ∈ xs ∧ ∀ t, t ∈ xs → lo <= t.
Proof.
  destruct xs as [|x xs]; [congruence|]. intros _. simpl.
  exists (fold_left Z.min xs x). split; [reflexivity|].
  destruct (fold_min_le xs x) as [H1 H2]. split.
  - destruct (fold_min_in xs x) as [->|H]; [left|right; exact H].
  - intros t Ht. apply elem_of_cons in Ht as [->|Ht]; [exact H1|apply H2, Ht].
Qed.

(** What holds when the [while] loop is left. *)
Lemma waitUntilCanRequest_spec (fuel : nat) : ∀ l l',
  waitUntilCanRequest fuel l = Some l' →
  requestsPerWindow l' = requestsPerWindow l
  ∧ windowMs l' = windowMs l
  ∧ clock l <= clock l'
  ∧ requests l' = List.filter (λ t, clock l' - t <? windowMs l) (requests l)
  ∧ Z.of_nat (length (requests l')) < requestsPerWindow l.
Proof.
  induction fuel as [|fuel IH]; intros l l' Hrun; [discriminate|].
  destruct l as [cap win rs now sl].
  cbn [waitUntilCanRequest canMakeRequest getTimeUntilNextRequest
       clock windowMs requests requestsPerWindow set_requests slept] in Hrun.
  cbn [clock windowMs requests requestsPerWindow].
  rewrite (filter_window_compose win now now rs) in Hrun by lia.
  destruct (Z.ltb_spec (Z.of_nat (length (List.filter (λ t, now - t <? win) rs))) cap)
    as [Hroom|Hfull].
  - inversion Hrun; subst. unfold set_requests.
    cbn [clock windowMs requests requestsPerWindow].
    split; [reflexivity|]. split; [reflexivity|]. split; [lia|].
    split; [reflexivity|exact Hroom].
  - destruct (Math_min (List.filter (λ t, now - t <? win) rs)) as [lo|]; [|discriminate].
    destruct (0 <? Z.max 0 (lo + win - now)) eqn:Hpos.
    + apply Z.ltb_lt in Hpos. apply IH in Hrun.
      unfold limiterSleep, set_requests in Hrun.
      cbn [clock windowMs requests requestsPerWindow] in Hrun.
      destruct Hrun as (Hc & Hw & Hck & Hreq & Hlen).
      rewrite filter_window_compose in Hreq by lia.
      split; [exact Hc|]. split; [exact Hw|]. split; [lia|].
      split; [exact Hreq|exact Hlen].
    + apply IH in Hrun. unfold set_requests in Hrun.
      cbn [clock windowMs requests requestsPerWindow] in Hrun.
      destruct Hrun as (Hc & Hw & Hck & Hreq & Hlen).
      rewrite filter_window_compose in Hreq by lia.
      split; [exact Hc|]. split; [exact Hw|]. split; [exact Hck|].
      split; [exact Hreq|exact Hlen].
Qed.
End WindowProofs.

(** X3.  For a caller that is alone on the limiter from its test to its
    record: when its admission completes, the limiter holds the timestamps
    it held before that are less than [windowMs] old at that moment,
    followed by the new one; there are at most [requestsPerWindow] of them;
    and the clock has not gone back. *)
Theorem acquireSlot_keeps_window (fuel : nat) (l l' : RateLimiterJs.Limiter) :
  RateLimiterJs.acquireSlot fuel l = Some l' →
  RateLimiterJs.clock l <= RateLimiterJs.clock l'
  ∧ RateLimiterJs.requests l'
    = List.filter (λ t, RateLimiterJs.clock l' - t <? RateLimiterJs.windowMs l)
        (RateLimiterJs.requests l)
      ++ [RateLimiterJs.clock l']
  ∧ Z.of_nat (length (RateLimiterJs.requests l')) <= RateLimiterJs.requestsPerWindow l
  ∧ RateLimiterJs.requestsPerWindow l' = RateLimiterJs.requestsPerWindow l
  ∧ RateLimiterJs.windowMs l' = RateLimiterJs.windowMs l.
Proof.
  unfold RateLimiterJs.acquireSlot. intros Hrun.
  destruct (RateLimiterJs.waitUntilCanRequest fuel l) as [l1|] eqn:Hwait;
    [|discriminate].
  simpl in Hrun. inversion Hrun; subst l'.
  destruct (waitUntilCanRequest_spec _ _ _ Hwait) as (Hc & Hw & Hck & Hreq & Hlen).
  destruct l1 as [cap win rs now sl].
  cbn [RateLimiterJs.recordRequest RateLimiterJs.set_requests RateLimiterJs.clock
       RateLimiterJs.requests RateLimiterJs.windowMs RateLimiterJs.requestsPerWindow]
    in *.
  subst rs. rewrite length_app. simpl.
  split; [exact Hck|]. split; [reflexivity|]. split; [lia|].
  split; [exact Hc|exact Hw].
Qed.

Lemma acquireSlot_keeps_window_witness :
  ∃ l', RateLimiterJs.acquireSlot 2 Sample.fullLimiter = Some l'
      ∧ RateLimiterJs.requests l' = [400; 1100]
      ∧ RateLimiterJs.clock l' = 1100.
Proof.
  assert (Hrun : RateLimiterJs.acquireSlot 2 Sample.fullLimiter
                 = Some (RateLimiterJs.mkLimiter 2 1000 [400; 1100] 1100 [600]))
    by (vm_compute; reflexivity).
  eexists. split; [exact Hrun|].
  destruct (acquireSlot_keeps_window _ _ _ Hrun) as (_ & Hreq & _).
  split; [exact Hreq|reflexivity].
Defined.

(** X4.  A limiter whose capacity is zero or negative admits nothing: the
    wait never ends, whatever the timestamps and the clock. *)
Theorem acquireSlot_without_capacity (fuel : nat) (l : RateLimiterJs.Limiter) :
  RateLimiterJs.requestsPerWindow l <= 0 →
  RateLimiterJs.acquireSlot fuel l = None.
Proof.
  intros Hcap. unfold RateLimiterJs.acquireSlot.
  destruct (RateLimiterJs.waitUntilCanRequest fuel l) as [l1|] eqn:Hwait;
    [|reflexivity].
  destruct (waitUntilCanRequest_spec _ _ _ Hwait) as (_ & _ & _ & _ & Hlen). lia.
Qed.

Lemma acquireSlot_without_capacity_witness :
  RateLimiterJs.acquireSlot 1000 (RateLimiterJs.newRateLimiter 0 60000 0) = None.
Proof. apply acquireSlot_without_capacity. simpl. lia. Defined.

(** X5.  For a caller that is alone on the limiter (nobody else records
    while it sleeps): from any state with a positive capacity, at most that
    many timestamps and none of them in the future, its admission completes
    after at most one sleep, which lasts more than 0 and at most
    [windowMs]. *)
Theorem acquireSlot_sleeps_at_most_once (fuel : nat) (l : RateLimiterJs.Limiter) :
  (2 <= fuel)%nat →
  1 <= RateLimiterJs.requestsPerWindow l →
  Z.of_nat (length (RateLimiterJs.requests l)) <= RateLimiterJs.requestsPerWindow l →
  (∀ t, t ∈ RateLimiterJs.requests l → t <= RateLimiterJs.clock l) →
  ∃ l', RateLimiterJs.acquireSlot fuel l = Some l'
      ∧ (RateLimiterJs.slept l' = RateLimiterJs.slept l
         ∨ ∃ d, RateLimiterJs.slept l' = RateLimiterJs.slept l ++ [d]
              ∧ 0 < d <= RateLimiterJs.windowMs l).
Proof.
  intros Hfuel Hcap Hlen Hpast.
  set (kept := List.filter
                 (λ t, RateLimiterJs.clock l - t <? RateLimiterJs.windowMs l)
                 (RateLimiterJs.requests l)).
  destruct (Z.lt_ge_cases (Z.of_nat (length kept)) (RateLimiterJs.requestsPerWindow l))
    as [Hroom|Hfull].
  - destruct fuel as [|fuel]; [lia|].
    unfold RateLimiterJs.acquireSlot.
    cbn [RateLimiterJs.waitUntilCanRequest RateLimiterJs.canMakeRequest].
    fold kept. destruct (Z.ltb_spec (Z.of_nat (length kept))
                           (RateLimiterJs.requestsPerWindow l)); [|lia].
    eexists. split; [reflexivity|]. left. reflexivity.
  - pose proof (filter_length_le
                  (λ t, RateLimiterJs.clock l - t <? RateLimiterJs.windowMs l)
                  (RateLimiterJs.requests l)) as Hle.
    fold kept in Hle.
    assert (Hkept : kept = RateLimiterJs.requests l)
      by (apply filter_full; fold kept; lia).
    destruct (Math_min_spec (RateLimiterJs.requests l)) as (lo & _ & Hin & Hlo).
    { intros Hnil. rewrite Hkept, Hnil in Hfull. simpl in Hfull. lia. }
    assert (Hwin : ∀ t, t ∈ RateLimiterJs.requests l →
                     RateLimiterJs.clock l - t < RateLimiterJs.windowMs l).
    { intros t Ht. rewrite <- Hkept in Ht. apply list_elem_of_In in Ht.
      apply filter_In in Ht as [_ Ht]. apply Z.ltb_lt in Ht. exact Ht. }
    destruct (acquireSlot_full fuel l lo) as (l' & Hrun & Hslept).
    + exact Hfuel.
    + rewrite <- Hkept at 1. lia.
    + exact Hin.
    + intros t Ht. split; [apply Hlo, Ht|apply Hpast, Ht].
    + apply Hwin, Hin.
    + exists l'. split; [exact Hrun|]. right. eexists. split; [exact Hslept|].
      specialize (Hwin lo Hin). specialize (Hpast lo Hin). lia.
Qed.

Lemma acquireSlot_sleeps_at_most_once_witness :
  ∃ l', RateLimiterJs.acquireSlot 2 Sample.fullLimiter = Some l'
      ∧ (RateLimiterJs.slept l' = []
         ∨ ∃ d, RateLimiterJs.slept l' = [d] ∧ 0 < d <= 1000).
Proof.
  destruct (acquireSlot_sleeps_at_most_once 2 Sample.fullLimiter)
    as (l' & Hrun & Hslept).
  - lia.
  - simpl. lia.
  - simpl. lia.
  - intros t Ht. simpl in *.
    apply elem_of_cons in Ht as [->|Ht]; [lia|].
    apply list_elem_of_singleton in Ht. subst. lia.
  - exists l'. split; [exact Hrun|exact Hslept].
Defined.

Section SpacingProofs.
Import RateLimiterJs RateLimiterLog.

Lemma ascending_snoc (H : list Z) (T : Z) :
  ascending H → (∀ t, t ∈ H → t <= T) → ascending (H ++ [T]).
Proof.
  intros Hasc Hle i j a b Hij Ha Hb.
  destruct (decide (j < length H)%nat) as [Hj|Hj].
  - rewrite lookup_app_l in Ha, Hb by lia. exact (Hasc i j a b Hij Ha Hb).
  - assert (j = length H).
    { apply lookup_lt_Some in Hb. rewrite length_app in Hb. simpl in Hb. lia. }
    subst j. rewrite list_lookup_middle in Hb by reflexivity. inversion Hb; subst b.
    destruct (decide (i < length H)%nat) as [Hi|Hi].
    + rewrite lookup_app_l in Ha by lia. apply Hle.
      eapply list_elem_of_lookup_2, Ha.
    + assert (i = length H) by lia. subst i.
      rewrite list_lookup_middle in Ha by reflexivity. inversion Ha. lia.
Qed.

Lemma spaced_snoc (c : nat) (W T : Z) (H : list Z) :
  (1 <= c)%nat →
  ascending H → spaced c W H →
  (length (List.filter (λ t, (T - t <? W)%Z) H) < c)%nat →
  spaced c W (H ++ [T]).
Proof.
  intros Hc Hasc Hsp Hroom i a b Ha Hb.
  destruct (decide (i + c < length H)%nat) as [Hin|Hout].
  - rewrite lookup_app_l in Ha, Hb by lia. exact (Hsp i a b Ha Hb).
  - assert (Hic : (i + c)%nat = length H).
    { apply lookup_lt_Some in Hb. rewrite length_app in Hb. simpl in Hb. lia. }
    rewrite Hic, list_lookup_middle in Hb by reflexivity. inversion Hb; subst b.
    rewrite lookup_app_l in Ha by lia.
    destruct (Z.le_gt_cases W (T - a)) as [|Hclose]; [assumption|].
    exfalso.
    assert (Hall : ∀ t, t ∈ drop i H → (T - t <? W) = true).
    { intros t Ht. apply list_elem_of_lookup in Ht as [j Hj].
      rewrite lookup_drop in Hj. apply Z.ltb_lt.
      assert (a <= t) by (eapply (Hasc i (i + j)%nat); [lia|exact Ha|exact Hj]). lia. }
    rewrite <- (take_drop i H), List.filter_app, length_app in Hroom.
    rewrite (filter_all _ (drop i H) Hall), length_drop in Hroom. lia.
Qed.

Lemma filter_snoc_now (W T : Z) (H : list Z) :
  0 < W →
  List.filter (λ t, T - t <? W) (H ++ [T]) = List.filter (λ t, T - t <? W) H ++ [T].
Proof.
  intros HW. rewrite List.filter_app. simpl.
  destruct (Z.ltb_spec (T - T) W); [reflexivity|lia].
Qed.

(** The limiter holds the part of the history [H] of admission times that
    was inside the window when it was last pruned, at [c0]. *)
Lemma admissionTimes_spaced (fuel : nat) (C W : Z) (pauses : list Z) :
  ∀ (l : Limiter) (H ts : list Z) (c0 : Z),
    0 < W → 1 <= C →
    requestsPerWindow l = C → windowMs l = W →
    c0 <= clock l →
    requests l = List.filter (λ t, c0 - t <? W) H →
    (∀ t, t ∈ H → t <= c0) →
    ascending H → spaced (Z.to_nat C) W H →
    Forall (λ p, 0 <= p) pauses →
    admissionTimes fuel pauses l = Some ts →
    ascending (H ++ ts) ∧ spaced (Z.to_nat C) W (H ++ ts).
Proof.
  induction pauses as [|p pauses IH];
    intros l H ts c0 HW HC Hcap Hwin Hc0 Hreq Hpast Hasc Hsp Hpos Hrun.
  - inversion Hrun. rewrite app_nil_r. split; assumption.
  - apply Forall_cons in Hpos as [Hp Hpos]. cbn [admissionTimes] in Hrun.
    destruct (acquireSlot fuel (elapse p l)) as [l'|] eqn:Hacq; [|discriminate].
    destruct (admissionTimes fuel pauses l') as [ts'|] eqn:Hrest; [|discriminate].
    simpl in Hrun. inversion Hrun; subst ts. clear Hrun.
    unfold acquireSlot in Hacq.
    destruct (waitUntilCanRequest fuel (elapse p l)) as [l1|] eqn:Hwait;
      [|discriminate].
    simpl in Hacq. inversion Hacq; subst l'. clear Hacq.
    destruct (waitUntilCanRequest_spec _ _ _ Hwait)
      as (Hcap' & Hwin' & Hck & Hreq' & Hlen').
    destruct l1 as [cap1 win1 rs1 now1 sl1].
    unfold recordRequest, set_requests in *.
    cbn [elapse clock requests windowMs requestsPerWindow] in *.
    subst cap1 win1. rewrite Hwin, Hreq, filter_window_compose in Hreq' by lia.
    set (T := now1) in *.
    assert (Hroom : (length (List.filter (λ t, (T - t <? W)%Z) H) < Z.to_nat C)%nat).
    { rewrite Hreq' in Hlen'. lia. }
    set (l' := mkLimiter (requestsPerWindow l) (windowMs l) (rs1 ++ [T]) T sl1) in *.
    assert (HpastT : ∀ t, t ∈ H → t <= T).
    { intros t Ht. specialize (Hpast t Ht). lia. }
    replace (H ++ T :: ts') with ((H ++ [T]) ++ ts')
      by (rewrite <- app_assoc; reflexivity).
    apply (IH l' (H ++ [T]) ts' T); try assumption; try (subst l'; simpl; lia).
    + subst l'. cbn [requests]. rewrite Hreq'. symmetry. apply filter_snoc_now, HW.
    + intros t Ht. apply elem_of_app in Ht as [Ht|Ht]; [apply HpastT, Ht|].
      apply list_elem_of_singleton in Ht. lia.
    + apply ascending_snoc; assumption.
    + apply spaced_snoc; try assumption. lia.
Qed.
End SpacingProofs.

(** X6.  On a fresh limiter with capacity [C >= 1] and window [W > 0],
    driven by a clock that does not run backwards, and for admissions issued
    one after the other (each completed before the next is issued): the
    admission times never decrease and any [C + 1] consecutive admissions
    span at least [W] milliseconds, so that no window of [W] milliseconds
    holds more than [C] of these admissions. *)
Theorem rateLimiter_never_exceeds_rate (C W t0 : Z) (pauses ts : list Z) (fuel : nat) :
  0 < W → 1 <= C →
  Forall (λ p, 0 <= p) pauses →
  RateLimiterLog.admissionTimes fuel pauses (RateLimiterJs.newRateLimiter C W t0)
  = Some ts →
  RateLimiterLog.ascending ts ∧ RateLimiterLog.spaced (Z.to_nat C) W ts.
Proof.
  intros HW HC Hpos Hrun.
  apply (admissionTimes_spaced fuel C W pauses
           (RateLimiterJs.newRateLimiter C W t0) [] ts t0);
    try assumption; try reflexivity; try (simpl; lia).
  - intros t Ht. inversion Ht.
  - intros i j a b _ Ha. inversion Ha.
  - intros i a b Ha. inversion Ha.
Qed.

Lemma rateLimiter_never_exceeds_rate_witness :
  RateLimiterLog.admissionTimes 2 [0; 10; 20; 5] (RateLimiterJs.newRateLimiter 3 1000 0)
  = Some [0; 10; 30; 1000]
  ∧ RateLimiterLog.spaced 3 1000 [0; 10; 30; 1000].
Proof.
  assert (Hrun : RateLimiterLog.admissionTimes 2 [0; 10; 20; 5]
                   (RateLimiterJs.newRateLimiter 3 1000 0)
                 = Some [0; 10; 30; 1000]) by (vm_compute; reflexivity).
  split; [exact Hrun|].
  apply (rateLimiter_never_exceeds_rate 3 1000 0 [0; 10; 20; 5] _ 2).
  - lia.
  - lia.
  - repeat constructor; lia.
  - exact Hrun.
Defined.

(** ** [deduplicatePackages]: order of the output *)

Section MergeOrderProofs.
Import maliciousPackageService maliciousCollectors.

Lemma map_has_includes (k : string) (m : list (string * Package)) :
  map_has k m = includes k m.*1.
Proof.
  unfold includes. induction m as [|[k' v] m IH]; csimpl; [reflexivity|].
  destruct (String.eqb k k'); [reflexivity|exact IH].
Qed.

Lemma dedup_step_keys (m : list (string * Package)) (p : Package) :
  (dedup_step m p).*1
  = if includes (key p) m.*1 then m.*1 else m.*1 ++ [key p].
Proof.
  unfold dedup_step. rewrite map_has_includes.
  destruct (includes (key p) m.*1); cbn [negb].
  - apply map_update_keys.
  - rewrite fmap_app. reflexivity.
Qed.

Lemma fold_keys_in_order (l : list Package) : ∀ m,
  (fold_left dedup_step l m).*1 = m.*1 ++ distinct_in_order m.*1 (key <$> l).
Proof.
  induction l as [|p l IH]; intros m.
  - simpl. rewrite app_nil_r. reflexivity.
  - cbn [fold_left]. rewrite IH, dedup_step_keys. rewrite fmap_cons.
    cbn [distinct_in_order].
    destruct (includes (key p) m.*1); [reflexivity|].
    rewrite <- app_assoc. reflexivity.
Qed.
End MergeOrderProofs.

(** X7.  The merge lists one record per distinct key, in the order in
    which the keys first occur in the input, and each record carries the
    name, version, label, source and other details of the first input record
    of its key: later records of the key only contribute their source. *)
Theorem deduplicatePackages_first_record_wins
    (l : list maliciousPackageService.Package) :
  maliciousPackageService.key <$> maliciousPackageService.deduplicatePackages l
  = maliciousCollectors.distinct_in_order [] (maliciousPackageService.key <$> l)
  ∧ (length (maliciousPackageService.deduplicatePackages l) <= length l)%nat
  ∧ ∀ r, r ∈ maliciousPackageService.deduplicatePackages l →
      ∃ p, maliciousPackageService.first_of_key p l
         ∧ maliciousPackageService.key p = maliciousPackageService.key r
         ∧ maliciousPackageService.name r = maliciousPackageService.name p
         ∧ maliciousPackageService.version r = maliciousPackageService.version p
         ∧ maliciousPackageService.label r = maliciousPackageService.label p
         ∧ maliciousPackageService.source r = maliciousPackageService.source p
         ∧ maliciousPackageService.details r = maliciousPackageService.details p.
Proof.
  assert (Hkeys : maliciousPackageService.key
                    <$> maliciousPackageService.deduplicatePackages l
                  = maliciousCollectors.distinct_in_order []
                      (maliciousPackageService.key <$> l)).
  { unfold maliciousPackageService.deduplicatePackages.
    rewrite keyed_fst_snd by (intros k r; apply fold_entries_keyed).
    rewrite fold_keys_in_order. reflexivity. }
  split; [exact Hkeys|]. split.
  - rewrite <- (length_fmap maliciousPackageService.key), Hkeys.
    rewrite <- (length_fmap maliciousPackageService.key l).
    generalize (maliciousPackageService.key <$> l). generalize (@nil string).
    intros seen ks. revert seen.
    induction ks as [|k ks IH]; intros seen; simpl; [lia|].
    destruct (maliciousPackageService.includes k seen); simpl.
    + specialize (IH seen). lia.
    + specialize (IH (seen ++ [k])). lia.
  - intros r Hr. apply elem_of_dedup in Hr as (k & Hm).
    pose proof (merged_key _ _ _ Hm) as Hk.
    destruct (merged_spec _ _ _ Hm)
      as (p & ss & Hfirst & Hkp & Hn & Hv & Hl & Hs & Hd & _).
    exists p. split; [exact Hfirst|]. split; [congruence|].
    repeat (split; [assumption|]). exact Hd.
Qed.

(** X8.  On an input whose keys are pairwise different the merge changes
    nothing but [sources]: it returns the records in input order, each with
    its confidence and [sources] set to its own source alone. *)
Theorem deduplicatePackages_distinct_keys
    (l : list maliciousPackageService.Package) :
  NoDup (maliciousPackageService.key <$> l) →
  maliciousPackageService.deduplicatePackages l
  = maliciousPackageService.reset_sources <$> l.
Proof.
  intros Hnd. unfold maliciousPackageService.deduplicatePackages.
  rewrite (fold_unique_keys l [] Hnd).
  - simpl. rewrite <- list_fmap_compose. reflexivity.
  - intros r _ H. inversion H.
Qed.

Lemma deduplicatePackages_distinct_keys_witness :
  maliciousPackageService.deduplicatePackages [Scenario.curated; Scenario.fromOsv]
  = [maliciousPackageService.reset_sources Scenario.curated;
     maliciousPackageService.reset_sources Scenario.fromOsv].
Proof.
  apply (deduplicatePackages_distinct_keys [Scenario.curated; Scenario.fromOsv]).
  apply NoDup_cons. split.
  - intros H. apply list_elem_of_singleton in H. discriminate H.
  - apply NoDup_singleton.
Defined.

(** ** [collectFromGitHubAdvisories] *)

Section AdvisoryProofs.
Import maliciousPackageService maliciousCollectors.
Variable advisories : Z -> JsError + option (list Advisory).

Lemma js_or_string_nonempty (a : option string) (s : string) :
  s ≠ ""%string → default ""%string (js_or_string a (Some s)) ≠ ""%string.
Proof.
  intros Hs. unfold js_or_string, truthy_string.
  destruct a as [x|]; simpl; [|exact Hs].
  destruct (String.eqb_spec x ""); simpl; [exact Hs|assumption].
Qed.

Lemma recordOfVulnerability_shape (adv : Advisory) (vuln : AdvisoryVulnerability) :
  Forall from_advisory (recordOfVulnerability adv vuln).
Proof.
  unfold recordOfVulnerability.
  destruct (av_package vuln) as [package|]; [|constructor].
  destruct (_ && truthy_string (vp_name package)) eqn:Hguard; [|constructor].
  apply andb_true_iff in Hguard as [_ Hname].
  constructor; [|constructor].
  unfold from_advisory. cbn [label source confidence sources name version].
  repeat (split; [reflexivity|]). split.
  - unfold truthy_string in Hname. destruct (vp_name package) as [n|]; [|discriminate].
    simpl. destruct (String.eqb_spec n ""); [discriminate|assumption].
  - unfold js_or_string at 1.
    destruct (truthy_string (av_first_patched vuln)) eqn:Hfp.
    + unfold truthy_string in Hfp. destruct (av_first_patched vuln) as [v|]; [|discriminate].
      simpl. destruct (String.eqb_spec v ""); [discriminate|assumption].
    + apply js_or_string_nonempty. discriminate.
Qed.

Lemma recordsOfAdvisory_shape (data : list Advisory) :
  Forall from_advisory (data ≫= recordsOfAdvisory).
Proof.
  induction data as [|adv data IH]; csimpl; [constructor|].
  apply Forall_app. split; [|exact IH].
  unfold recordsOfAdvisory. destruct (adv_vulnerabilities adv) as [vs|]; [|constructor].
  induction vs as [|v vs IHv]; csimpl; [constructor|].
  apply Forall_app. split; [apply recordOfVulnerability_shape|exact IHv].
Qed.

Lemma advisoriesLoop_spec (fuel : nat) : ∀ (page : Z) acc (n : nat),
  Z.of_nat n + 1 = page →
  (Z.to_nat (maxPages - page + 1) < fuel)%nat →
  Forall from_advisory acc →
  ∃ records (k : nat),
    advisoriesLoop advisories fuel page acc (Z.of_nat <$> seq 1 n)
    = Some (records, Z.of_nat <$> seq 1 k)
    ∧ Z.of_nat k <= Z.max (Z.of_nat n) maxPages
    ∧ Forall from_advisory records.
Proof.
  induction fuel as [|fuel IH]; intros page acc n Hpage Hfuel Hacc; [lia|].
  assert (Hnext : (Z.of_nat <$> seq 1 n) ++ [page] = Z.of_nat <$> seq 1 (S n)).
  { rewrite seq_S, fmap_app. simpl. do 2 f_equal. lia. }
  cbn [advisoriesLoop]. rewrite Hnext.
  destruct (Z.leb_spec page maxPages) as [Hle|Hgt].
  - destruct (advisories page) as [error|[data|]].
    + exists acc, (S n). split; [reflexivity|]. split; [lia|exact Hacc].
    + destruct (length data =? 0)%nat.
      * exists acc, (S n). split; [reflexivity|]. split; [lia|exact Hacc].
      * assert (Hacc' : Forall from_advisory (acc ++ (data ≫= recordsOfAdvisory))).
        { apply Forall_app. split; [exact Hacc|apply recordsOfAdvisory_shape]. }
        destruct (Z.of_nat (length data) <? perPage).
        -- eexists. exists (S n). split; [reflexivity|]. split; [lia|exact Hacc'].
        -- destruct (IH (page + 1) (acc ++ (data ≫= recordsOfAdvisory)) (S n))
             as (records & k & Hrun & Hk & Hrec); [lia|lia|exact Hacc'|].
           exists records, k. split; [exact Hrun|]. split; [lia|exact Hrec].
    + exists acc, (S n). split; [reflexivity|]. split; [lia|exact Hacc].
  - exists acc, n. split; [reflexivity|]. split; [lia|exact Hacc].
Qed.
End AdvisoryProofs.

(** X9.  Whatever GitHub answers, the advisory collector returns a list
    and does not throw; it requests pages 1, 2, ... in turn and never more
    than 10 of them; and every record it returns is labelled malicious, comes
    from source ["github-advisory"] with confidence ["high"], has no
    [sources] yet, and has a non-empty name and version. *)
Theorem collectFromGitHubAdvisories_bounded
    (advisories : Z -> JsError + option (list maliciousCollectors.Advisory))
    (fuel : nat) :
  (10 < fuel)%nat →
  ∃ records (k : nat),
    maliciousCollectors.collectFromGitHubAdvisories advisories fuel
    = Some (records, Z.of_nat <$> seq 1 k)
    ∧ (k <= 10)%nat
    ∧ Forall maliciousCollectors.from_advisory records.
Proof.
  intros Hfuel. unfold maliciousCollectors.collectFromGitHubAdvisories.
  destruct (advisoriesLoop_spec advisories fuel 1 [] 0)
    as (records & k & Hrun & Hk & Hrec).
  - reflexivity.
  - unfold maliciousCollectors.maxPages. simpl. lia.
  - constructor.
  - exists records, k. split; [exact Hrun|]. split; [|exact Hrec].
    unfold maliciousCollectors.maxPages in Hk. lia.
Qed.

Lemma collectFromGitHubAdvisories_bounded_witness :
  (10 < 11)%nat
  ∧ ∃ records (k : nat),
      maliciousCollectors.collectFromGitHubAdvisories Sample.advisoryPages 11
      = Some (records, Z.of_nat <$> seq 1 k)
      ∧ (k <= 10)%nat
      ∧ Forall maliciousCollectors.from_advisory records.
Proof.
  split; [lia|].
  apply (collectFromGitHubAdvisories_bounded Sample.advisoryPages 11). lia.
Defined.

(** ** [resolveVersion] *)

Section VersionProofs.
Import dependenciesService versionRanges.

Lemma append_cons (c : ascii) (a r : string) :
  (String c a +:+ r)%string = String c (a +:+ r)%string.
Proof. reflexivity. Qed.

Lemma append_empty (a : string) : (a +:+ "")%string = a.
Proof.
  induction a as [|c a IH]; [reflexivity|]. rewrite append_cons, IH. reflexivity.
Qed.

Lemma span_digits_spec (s : string) : ∀ n r,
  span_digits s = (n, r) →
  ∃ a, s = (a +:+ r)%string ∧ String.length a = n ∧ all_digits a = true.
Proof.
  induction s as [|c s IH]; intros n r H; simpl in H.
  - injection H as <- <-. exists ""%string. repeat split.
  - destruct (is_digit c) eqn:Hc.
    + destruct (span_digits s) as [n' r'] eqn:Hs. injection H as <- <-.
      destruct (IH n' r' eq_refl) as (a & -> & Hlen & Hall).
      exists (String c a). simpl. rewrite Hc, Hall, Hlen. repeat split.
    + injection H as <- <-. exists ""%string. repeat split.
Qed.

Lemma span_digits_dot (a r : string) :
  all_digits a = true →
  span_digits (a +:+ String "."%char r) = (String.length a, String "."%char r).
Proof.
  induction a as [|c a IH]; intros Hall; [reflexivity|].
  simpl in Hall. apply andb_true_iff in Hall as [Hc Hall].
  rewrite append_cons. simpl. rewrite Hc, (IH Hall). reflexivity.
Qed.

Lemma span_digits_end (a : string) :
  all_digits a = true → span_digits a = (String.length a, ""%string).
Proof.
  induction a as [|c a IH]; simpl; intros Hall; [reflexivity|].
  apply andb_true_iff in Hall as [Hc Hall]. rewrite Hc, (IH Hall). reflexivity.
Qed.

Lemma length_pos_nonempty (a : string) :
  Nat.ltb 0 (String.length a) = true ↔ a ≠ ""%string.
Proof.
  destruct a; simpl; split; intros H; try reflexivity; try discriminate.
  contradiction.
Qed.

Lemma expect_dot_spec (s r : string) :
  expect_dot s = Some r → s = String "."%char r.
Proof.
  destruct s as [|c s]; simpl; [discriminate|].
  destruct (ascii_dec c "."%char) as [->|Hne].
  - intros H. injection H as ->. reflexivity.
  - destruct c as [[] [] [] [] [] [] [] []]; try discriminate. contradiction.
Qed.

Lemma is_exact_version_spec (s : string) :
  is_exact_version s = true ↔ exact_version s.
Proof.
  unfold is_exact_version, exact_version. split.
  - destruct (span_digits s) as [n1 r1] eqn:H1.
    destruct (expect_dot r1) as [r1'|] eqn:D1; [|discriminate].
    destruct (span_digits r1') as [n2 r2] eqn:H2.
    destruct (expect_dot r2) as [r2'|] eqn:D2; [|discriminate].
    destruct (span_digits r2') as [n3 r3] eqn:H3.
    intros H. apply andb_true_iff in H as [H Hend].
    apply andb_true_iff in H as [H Hn3]. apply andb_true_iff in H as [Hn1 Hn2].
    apply String.eqb_eq in Hend. subst r3.
    apply span_digits_spec in H1 as (a & -> & <- & Ha).
    apply span_digits_spec in H2 as (b & -> & <- & Hb).
    apply span_digits_spec in H3 as (c & -> & <- & Hc).
    apply expect_dot_spec in D1 as ->. apply expect_dot_spec in D2 as ->.
    exists a, b, c. unfold digits.
    rewrite <- !length_pos_nonempty.
    rewrite append_empty. repeat (split; [split; assumption|]). reflexivity.
  - intros (a & b & c & [Ha Ha'] & [Hb Hb'] & [Hc Hc'] & ->).
    change (a +:+ "." +:+ b +:+ "." +:+ c)%string
      with (a +:+ String "."%char (b +:+ String "."%char c))%string.
    rewrite (span_digits_dot a _ Ha'). cbn [expect_dot].
    rewrite (span_digits_dot b _ Hb'). cbn [expect_dot].
    rewrite (span_digits_end c Hc').
    apply length_pos_nonempty in Ha, Hb, Hc. rewrite Ha, Hb, Hc. reflexivity.
Qed.
End VersionProofs.

(** X10.  [resolveVersion] never fails.  A range of the form
    digits.digits.digits is returned as it is, whatever the registry says;
    any other range is replaced by the version the registry reports for
    ["latest"], and is returned unchanged only when that lookup fails. *)
Theorem resolveVersion_exact_or_latest
    (fetchFromNpmRegistry : string -> string -> JsError + metadataService.Metadata)
    (packageName versionRange : string) :
  (versionRanges.exact_version versionRange →
   dependenciesService.resolveVersion fetchFromNpmRegistry packageName versionRange
   = versionRange)
  ∧ (∀ metadata,
       ¬ versionRanges.exact_version versionRange →
       fetchFromNpmRegistry packageName "latest"%string = inr metadata →
       dependenciesService.resolveVersion fetchFromNpmRegistry packageName versionRange
       = metadataService.md_version metadata)
  ∧ (∀ error,
       fetchFromNpmRegistry packageName "latest"%string = inl error →
       dependenciesService.resolveVersion fetchFromNpmRegistry packageName versionRange
       = versionRange).
Proof.
  unfold dependenciesService.resolveVersion. split; [|split].
  - intros Hexact. apply is_exact_version_spec in Hexact. rewrite Hexact.
    destruct (fetchFromNpmRegistry _ _); reflexivity.
  - intros metadata Hnot ->.
    destruct (dependenciesService.is_exact_version versionRange) eqn:H; [|reflexivity].
    apply is_exact_version_spec in H. contradiction.
  - intros error ->. reflexivity.
Qed.

Lemma resolveVersion_exact_or_latest_witness :
  dependenciesService.resolveVersion Scenario.registry "b" "10.0.21" = "10.0.21"%string
  ∧ dependenciesService.resolveVersion Scenario.registry "b" "^2.0.0" = "2.0.0"%string
  ∧ dependenciesService.resolveVersion Scenario.registry "c" "~3.1.0" = "~3.1.0"%string.
Proof.
  destruct (resolveVersion_exact_or_latest Scenario.registry "b" "10.0.21") as (H1 & _ & _).
  destruct (resolveVersion_exact_or_latest Scenario.registry "b" "^2.0.0") as (_ & H2 & _).
  destruct (resolveVersion_exact_or_latest Scenario.registry "c" "~3.1.0") as (_ & _ & H3).
  split; [|split].
  - apply H1. exists "10"%string, "0"%string, "21"%string.
    unfold versionRanges.digits. repeat split; try discriminate; reflexivity.
  - refine (H2 _ _ eq_refl). intros Hexact.
    apply is_exact_version_spec in Hexact. discriminate Hexact.
  - exact (H3 _ eq_refl).
Defined.

(** ** [buildDependencyTree]: the first level *)

Section TreeLevelProofs.
Import dependenciesService versionRanges.
Variable fetchFromNpmRegistry : string -> string -> JsError + metadataService.Metadata.

Lemma filter_none {A} (f : A -> bool) (l : list A) :
  Forall (λ x, f x = false) l → List.filter f l = [].
Proof.
  induction 1 as [|x l Hx _ IH]; simpl; [reflexivity|]. rewrite Hx. exact IH.
Qed.

Lemma buildDependencyTree_level (fuel : nat) (packageName version : string)
    (maxDepth currentDepth : Z) (visited : gset string) (deps : DependenciesResult) :
  currentDepth < maxDepth →
  (packageName +:+ "@" +:+ version)%string ∉ visited →
  fetchDependencies fetchFromNpmRegistry packageName version = inr deps →
  (Z.to_nat (maxDepth - currentDepth) < fuel)%nat →
  ∃ tree,
    buildDependencyTree fetchFromNpmRegistry fuel packageName version
      maxDepth currentDepth visited = Some tree
    ∧ List.filter (λ n, t_depth n =? currentDepth + 1) tree
      = nodeOf fetchFromNpmRegistry packageName currentDepth <$> dependencies deps
    ∧ (maxDepth = currentDepth + 1 →
       tree = nodeOf fetchFromNpmRegistry packageName currentDepth <$> dependencies deps).
Proof.
  intros Hdepth Hkey Hdeps Hfuel. destruct fuel as [|fuel]; [lia|].
  cbn [buildDependencyTree].
  destruct (Z.leb_spec maxDepth currentDepth) as [|_]; [lia|].
  rewrite bool_decide_eq_false_2 by exact Hkey. rewrite Hdeps.
  match goal with |- context [fold_left ?f _ _] => set (body := f) end.
  set (level := λ n, t_depth n =? currentDepth + 1).
  set (node := nodeOf fetchFromNpmRegistry packageName currentDepth).
  assert (Hbody : ∀ a dep,
            ∃ a', body (Some a) dep = Some a'
                ∧ List.filter level a' = List.filter level a ++ [node dep]
                ∧ (maxDepth = currentDepth + 1 → a' = a ++ [node dep])).
  { intros a dep. subst body. cbn [mbind option_bind].
    fold (node dep).
    assert (Hnode : List.filter level (a ++ [node dep])
                    = List.filter level a ++ [node dep]).
    { rewrite List.filter_app. f_equal. simpl. unfold level at 1. simpl.
      rewrite Z.eqb_refl. reflexivity. }
    change (mkTransitive (dep_name dep)
              (resolveVersion fetchFromNpmRegistry (dep_name dep) (dep_version dep))
              "transitive" (currentDepth + 1) packageName) with (node dep).
    destruct (Z.ltb_spec (currentDepth + 1) maxDepth) as [Hlt|Hge].
    - destruct (buildDependencyTree_total fetchFromNpmRegistry maxDepth fuel
                  (dep_name dep)
                  (resolveVersion fetchFromNpmRegistry (dep_name dep) (dep_version dep))
                  (currentDepth + 1)
                  ({[(packageName +:+ "@" +:+ version)%string]} ∪ visited))
        as (sub & Hsub & Hdepths); [lia|].
      rewrite Hsub. cbn [mbind option_bind]. eexists. split; [reflexivity|].
      split; [|lia].
      rewrite List.filter_app, Hnode, (filter_none level sub), app_nil_r; [reflexivity|].
      eapply Forall_impl; [exact Hdepths|]. intros n Hn. unfold level. simpl in Hn.
      apply Z.eqb_neq. lia.
    - eexists. split; [reflexivity|]. split; [exact Hnode|reflexivity]. }
  generalize (dependencies deps). intros ds.
  assert (Hgen : ∀ a,
            ∃ tree, fold_left body ds (Some a) = Some tree
                  ∧ List.filter level tree = List.filter level a ++ (node <$> ds)
                  ∧ (maxDepth = currentDepth + 1 → tree = a ++ (node <$> ds))).
  { induction ds as [|d ds IHds]; intros a; cbn [fold_left].
    - exists a. csimpl. rewrite !app_nil_r. auto.
    - destruct (Hbody a d) as (a' & -> & Hlevel & Hflat).
      destruct (IHds a') as (tree & Hrun & Hlevel' & Hflat').
      exists tree. split; [exact Hrun|]. csimpl. split.
      + rewrite Hlevel', Hlevel, <- app_assoc. reflexivity.
      + intros Hmax. rewrite (Hflat' Hmax), (Hflat Hmax), <- app_assoc. reflexivity. }
  destruct (Hgen []) as (tree & Hrun & Hlevel & Hflat).
  exists tree. split; [exact Hrun|]. split; [exact Hlevel|exact Hflat].
Qed.
End TreeLevelProofs.

(** X11.  When the package is within the depth bound, has not been visited
    and its dependencies can be fetched, the tree lists every direct
    dependency, in the order of the manifest, one level below the package
    and with the package as parent: these are exactly the nodes of that
    level.  When the bound is one level below, the tree is this list and
    nothing else. *)
Theorem buildDependencyTree_lists_direct_dependencies
    (fetchFromNpmRegistry : string -> string -> JsError + metadataService.Metadata)
    (packageName version : string) (maxDepth currentDepth : Z)
    (visited : gset string) (fuel : nat)
    (deps : dependenciesService.DependenciesResult) :
  currentDepth < maxDepth →
  (packageName +:+ "@" +:+ version)%string ∉ visited →
  dependenciesService.fetchDependencies fetchFromNpmRegistry packageName version
  = inr deps →
  (Z.to_nat (maxDepth - currentDepth) < fuel)%nat →
  ∃ tree,
    dependenciesService.buildDependencyTree fetchFromNpmRegistry fuel
      packageName version maxDepth currentDepth visited = Some tree
    ∧ List.filter (λ n, dependenciesService.t_depth n =? currentDepth + 1) tree
      = versionRanges.nodeOf fetchFromNpmRegistry packageName currentDepth
          <$> dependenciesService.dependencies deps
    ∧ (maxDepth = currentDepth + 1 →
       tree = versionRanges.nodeOf fetchFromNpmRegistry packageName currentDepth
                <$> dependenciesService.dependencies deps).
Proof.
  intros. apply buildDependencyTree_level; assumption.
Qed.

Lemma buildDependencyTree_lists_direct_dependencies_witness :
  ∃ tree,
    dependenciesService.buildDependencyTree Scenario.registry 6
      "b" "2.0.0" 5 0 ∅ = Some tree
    ∧ List.filter (λ n, dependenciesService.t_depth n =? 1) tree
      = [dependenciesService.mkTransitive "a" "1.0.0" "transitive" 1 "b";
         dependenciesService.mkTransitive "c" "~3.1.0" "transitive" 1 "b"].
Proof.
  destruct (dependenciesService.fetchDependencies Scenario.registry "b" "2.0.0")
    as [error|deps] eqn:Hdeps; [vm_compute in Hdeps; discriminate Hdeps|].
  destruct (buildDependencyTree_lists_direct_dependencies Scenario.registry
              "b" "2.0.0" 5 0 ∅ 6 deps)
    as (tree & Hrun & Hlevel & _);
    [lia|apply not_elem_of_empty|exact Hdeps|vm_compute; lia|].
  exists tree. split; [exact Hrun|].
  etrans; [exact Hlevel|]. vm_compute in Hdeps. injection Hdeps as <-. reflexivity.
Defined.

(** ** [collectPackageData]: order of the calls, and the database *)

Section CallOrderProofs.
Import metadataService Orchestrator OrchestratorCalls.

Lemma issued_sublist (gate : bool) (c : Call) (l1 l2 : list Call) :
  l1 `sublist_of` l2 → (issued gate c ++ l1) `sublist_of` (c :: l2).
Proof.
  intros H. destruct gate; simpl.
  - apply sublist_skip, H.
  - apply sublist_cons, H.
Qed.

Lemma callsAfterMetadata_sublist (db : bool) (packageName version : string)
    (options : CollectOptions) (metadata : Metadata) :
  (FetchFromNpmRegistry packageName version
     :: callsAfterMetadata db packageName options metadata)
    `sublist_of` allCalls packageName version metadata.
Proof.
  unfold callsAfterMetadata, allCalls. apply sublist_skip.
  do 4 apply issued_sublist.
  destruct db; simpl; [reflexivity|]. apply sublist_cons. reflexivity.
Qed.

Lemma callsAfterMetadata_db (packageName : string) (options : CollectOptions)
    (metadata : Metadata) :
  callsAfterMetadata true packageName options metadata
  = callsAfterMetadata false packageName options metadata ++ [SaveToDatabase].
Proof.
  unfold callsAfterMetadata. cbn [issued]. rewrite !app_nil_r.
  rewrite <- !app_assoc. reflexivity.
Qed.
End CallOrderProofs.

(** X12.  A collection whose metadata fetch succeeds issues at most six
    calls, always in the same order: the registry fetch first, then the
    dependencies, the vulnerabilities, the GitHub data and the static
    analysis (those that are attempted), and the database last. *)
Theorem collectPackageData_call_order
    (fetchFromNpmRegistry : string -> string -> JsError + metadataService.Metadata)
    (fetchDependencies : string -> string -> JsError + Orchestrator.Payload)
    (getVulnerabilities : string -> string -> string -> JsError + Orchestrator.Payload)
    (getPackageGitHubData : metadataService.Metadata -> JsError + Orchestrator.Payload)
    (extractStaticAnalysisFeatures :
       string -> string -> string -> JsError + Orchestrator.Payload)
    (now : string) (db : bool)
    (packageName version : string) (options : Orchestrator.CollectOptions)
    (metadata : metadataService.Metadata) (t : list Orchestrator.Call) :
  fetchFromNpmRegistry packageName version = inr metadata →
  ∃ calls,
    (Orchestrator.collectPackageData fetchFromNpmRegistry fetchDependencies
       getVulnerabilities getPackageGitHubData extractStaticAnalysisFeatures now db
       packageName version options t).2
    = t ++ Orchestrator.FetchFromNpmRegistry packageName version :: calls
    ∧ (Orchestrator.FetchFromNpmRegistry packageName version :: calls)
        `sublist_of` OrchestratorCalls.allCalls packageName version metadata
    ∧ (length calls <= 5)%nat.
Proof.
  intros Hmd. rewrite (collect_run_ok _ _ _ _ _ _ _ _ _ _ _ _ Hmd). cbn [snd].
  eexists. split; [reflexivity|].
  pose proof (callsAfterMetadata_sublist db packageName version options metadata) as H.
  split; [exact H|]. apply sublist_length in H. simpl in H. lia.
Qed.

Lemma collectPackageData_call_order_witness :
  ∃ calls,
    (Scenario.collectLeftPad None "left-pad" "latest" Scenario.everythingOn []).2
    = [] ++ Orchestrator.FetchFromNpmRegistry "left-pad" "latest" :: calls
    ∧ (Orchestrator.FetchFromNpmRegistry "left-pad" "latest" :: calls)
        `sublist_of` OrchestratorCalls.allCalls "left-pad" "latest" (Scenario.leftPad None)
    ∧ (length calls <= 5)%nat.
Proof.
  unfold Scenario.collectLeftPad.
  eapply collectPackageData_call_order. reflexivity.
Defined.

(** X13.  Whether a database is attached changes nothing in what
    [collectPackageData] returns or throws, nor in the calls to the
    services: with a database, one save follows a successful collection,
    and none a failed one. *)
Theorem collectPackageData_saves_last
    (fetchFromNpmRegistry : string -> string -> JsError + metadataService.Metadata)
    (fetchDependencies : string -> string -> JsError + Orchestrator.Payload)
    (getVulnerabilities : string -> string -> string -> JsError + Orchestrator.Payload)
    (getPackageGitHubData : metadataService.Metadata -> JsError + Orchestrator.Payload)
    (extractStaticAnalysisFeatures :
       string -> string -> string -> JsError + Orchestrator.Payload)
    (now : string)
    (packageName version : string) (options : Orchestrator.CollectOptions)
    (t : list Orchestrator.Call) :
  let run db :=
    Orchestrator.collectPackageData fetchFromNpmRegistry fetchDependencies
      getVulnerabilities getPackageGitHubData extractStaticAnalysisFeatures now db
      packageName version options t in
  (run true).1 = (run false).1
  ∧ (run true).2
    = (run false).2
      ++ match (run false).1 with
         | inr _ => [Orchestrator.SaveToDatabase]
         | inl _ => []
         end.
Proof.
  cbv zeta.
  destruct (fetchFromNpmRegistry packageName version) as [error|metadata] eqn:Hmd.
  - rewrite !(collect_run_fail _ _ _ _ _ _ _ _ _ _ _ _ Hmd). cbn [fst snd].
    rewrite app_nil_r. split; reflexivity.
  - rewrite !(collect_run_ok _ _ _ _ _ _ _ _ _ _ _ _ Hmd). cbn [fst snd].
    split; [reflexivity|].
    rewrite callsAfterMetadata_db, <- app_assoc. reflexivity.
Qed.

(** ** [collectLabeledTrainingData]: errors and calls *)

(** X14.  [collectLabeledTrainingData] fails when one of the two package
    services fails, with the error of that service: after the malicious
    service failed nothing else is called, and after the benign service
    failed no package is collected. *)
Theorem collectLabeledTrainingData_propagates_service_errors
    (fetchFromNpmRegistry : string -> string -> JsError + metadataService.Metadata)
    (fetchDependencies : string -> string -> JsError + Orchestrator.Payload)
    (getVulnerabilities : string -> string -> string -> JsError + Orchestrator.Payload)
    (getPackageGitHubData : metadataService.Metadata -> JsError + Orchestrator.Payload)
    (extractStaticAnalysisFeatures :
       string -> string -> string -> JsError + Orchestrator.Payload)
    (collectAllMaliciousPackages : JsError + list maliciousPackageService.Package)
    (collectAllBenignPackages : Z -> JsError + list maliciousPackageService.Package)
    (now : string) (db : bool)
    (options : Orchestrator.TrainingOptions) (t : list Orchestrator.Call) :
  let run :=
    Orchestrator.collectLabeledTrainingData fetchFromNpmRegistry fetchDependencies
      getVulnerabilities getPackageGitHubData extractStaticAnalysisFeatures
      collectAllMaliciousPackages collectAllBenignPackages now db options t in
  (∀ error,
     collectAllMaliciousPackages = inl error →
     run = (inl error, t ++ [Orchestrator.CollectAllMaliciousPackages]))
  ∧ (∀ ms error,
       collectAllMaliciousPackages = inr ms →
       collectAllBenignPackages (Orchestrator.benignCount options) = inl error →
       run = (inl error,
              t ++ [Orchestrator.CollectAllMaliciousPackages;
                    Orchestrator.CollectAllBenignPackages
                      (Orchestrator.benignCount options)])).
Proof.
  cbv zeta.
  unfold Orchestrator.collectLabeledTrainingData, Orchestrator.try_catch,
    Orchestrator.bind.
  split.
  - intros error Hms. unfold Orchestrator.await at 1. rewrite Hms. reflexivity.
  - intros ms error Hms Hbs.
    unfold Orchestrator.await at 1. rewrite Hms.
    unfold Orchestrator.await at 1. rewrite Hbs.
    unfold Orchestrator.throw. rewrite <- app_assoc. reflexivity.
Qed.

Lemma collectLabeledTrainingData_propagates_service_errors_witness :
  Orchestrator.collectLabeledTrainingData Scenario.registryWithoutC
    (λ _ _, Scenario.malformed) (λ _ _ _, Scenario.malformed)
    (λ _, Scenario.malformed) (λ _ _ _, Scenario.malformed)
    (inr Scenario.twelve) (λ _, inl (mkError "Network Error"))
    "2024-01-01T00:00:00.000Z" false
    (Orchestrator.mkTrainingOptions None (Some 3)) []
  = (inl (mkError "Network Error"),
     [Orchestrator.CollectAllMaliciousPackages;
      Orchestrator.CollectAllBenignPackages 3]).
Proof.
  destruct (collectLabeledTrainingData_propagates_service_errors
              Scenario.registryWithoutC
              (λ _ _, Scenario.malformed) (λ _ _ _, Scenario.malformed)
              (λ _, Scenario.malformed) (λ _ _ _, Scenario.malformed)
              (inr Scenario.twelve) (λ _, inl (mkError "Network Error"))
              "2024-01-01T00:00:00.000Z" false
              (Orchestrator.mkTrainingOptions None (Some 3)) []) as [_ H].
  exact (H Scenario.twelve (mkError "Network Error") eq_refl eq_refl).
Defined.

Section TrainingCallProofs.
Import metadataService Orchestrator OrchestratorCalls.
Variable fetchFromNpmRegistry : string -> string -> JsError + Metadata.
Variable fetchDependencies : string -> string -> JsError + Payload.
Variable getVulnerabilities : string -> string -> string -> JsError + Payload.
Variable getPackageGitHubData : Metadata -> JsError + Payload.
Variable extractStaticAnalysisFeatures : string -> string -> string -> JsError + Payload.
Variable now : string.
Variable db : bool.

Local Abbreviation fullDataCalls' :=
  (fullDataCalls fetchFromNpmRegistry fetchDependencies getVulnerabilities
     getPackageGitHubData extractStaticAnalysisFeatures now db).

Lemma fullDataCalls_cases (p : maliciousPackageService.Package) :
  fullDataCalls' p
  = [FetchFromNpmRegistry (maliciousPackageService.name p)
       (maliciousPackageService.version p)]
  ∨ ∃ metadata,
      fullDataCalls' p
      = FetchFromNpmRegistry (maliciousPackageService.name p)
          (maliciousPackageService.version p)
        :: callsAfterMetadata db (maliciousPackageService.name p) fullDataOptions metadata.
Proof.
  unfold fullDataCalls.
  destruct (fetchFromNpmRegistry (maliciousPackageService.name p)
              (maliciousPackageService.version p)) as [error|metadata] eqn:Hmd.
  - left. rewrite (collect_run_fail _ _ _ _ _ _ _ _ _ _ _ _ Hmd). reflexivity.
  - right. exists metadata.
    rewrite (collect_run_ok _ _ _ _ _ _ _ _ _ _ _ _ Hmd). reflexivity.
Qed.

Lemma fullDataCalls_registry (p : maliciousPackageService.Package) :
  length (List.filter is_registry_fetch (fullDataCalls' p)) = 1%nat.
Proof.
  destruct (fullDataCalls_cases p) as [->|(metadata & ->)]; [reflexivity|].
  unfold callsAfterMetadata. cbn [List.filter is_registry_fetch].
  rewrite !List.filter_app. unfold issued.
  destruct (aspect_enabled _ _ Dependencies), (aspect_enabled _ _ Vulnerabilities),
    (aspect_enabled _ _ GitHub), (aspect_enabled _ _ StaticAnalysis), db;
    reflexivity.
Qed.

Lemma fullDataCalls_static (p : maliciousPackageService.Package) :
  List.filter is_static_analysis (fullDataCalls' p) = [].
Proof.
  destruct (fullDataCalls_cases p) as [->|(metadata & ->)]; [reflexivity|].
  unfold callsAfterMetadata. cbn [List.filter is_static_analysis].
  rewrite !List.filter_app. unfold issued.
  change (aspect_enabled fullDataOptions metadata StaticAnalysis) with false.
  destruct (aspect_enabled _ _ Dependencies), (aspect_enabled _ _ Vulnerabilities),
    (aspect_enabled _ _ GitHub), db;
    reflexivity.
Qed.

Lemma fullDataCalls_service (p : maliciousPackageService.Package) :
  List.filter is_package_service (fullDataCalls' p) = [].
Proof.
  destruct (fullDataCalls_cases p) as [->|(metadata & ->)]; [reflexivity|].
  unfold callsAfterMetadata. cbn [List.filter is_package_service].
  rewrite !List.filter_app. unfold issued.
  destruct (aspect_enabled _ _ Dependencies), (aspect_enabled _ _ Vulnerabilities),
    (aspect_enabled _ _ GitHub), (aspect_enabled _ _ StaticAnalysis), db;
    reflexivity.
Qed.

Lemma concat_service (ps : list maliciousPackageService.Package) :
  List.filter is_package_service (concat (fullDataCalls' <$> ps)) = [].
Proof.
  induction ps as [|p ps IH]; csimpl; [reflexivity|].
  rewrite List.filter_app, fullDataCalls_service, IH. reflexivity.
Qed.

Lemma concat_registry (ps : list maliciousPackageService.Package) :
  length (List.filter is_registry_fetch (concat (fullDataCalls' <$> ps))) = length ps.
Proof.
  induction ps as [|p ps IH]; csimpl; [reflexivity|].
  rewrite List.filter_app, length_app, fullDataCalls_registry, IH. reflexivity.
Qed.

Lemma concat_static (ps : list maliciousPackageService.Package) :
  List.filter is_static_analysis (concat (fullDataCalls' <$> ps)) = [].
Proof.
  induction ps as [|p ps IH]; csimpl; [reflexivity|].
  rewrite List.filter_app, fullDataCalls_static, IH. reflexivity.
Qed.
End TrainingCallProofs.

(** X15.  When both package services answer, [collectLabeledTrainingData]
    calls each of them once and first, the benign one with [benignCount],
    and then collects packages one after the other: the registry is asked about at
    most 60 packages (the first 10 malicious and the first 50 benign ones of
    the result), however many were returned, and the static analysis is
    never run. *)
Theorem collectLabeledTrainingData_call_budget
    (fetchFromNpmRegistry : string -> string -> JsError + metadataService.Metadata)
    (fetchDependencies : string -> string -> JsError + Orchestrator.Payload)
    (getVulnerabilities : string -> string -> string -> JsError + Orchestrator.Payload)
    (getPackageGitHubData : metadataService.Metadata -> JsError + Orchestrator.Payload)
    (extractStaticAnalysisFeatures :
       string -> string -> string -> JsError + Orchestrator.Payload)
    (collectAllMaliciousPackages : JsError + list maliciousPackageService.Package)
    (collectAllBenignPackages : Z -> JsError + list maliciousPackageService.Package)
    (now : string) (db : bool)
    (options : Orchestrator.TrainingOptions)
    (ms bs : list maliciousPackageService.Package) (t : list Orchestrator.Call) :
  collectAllMaliciousPackages = inr ms →
  collectAllBenignPackages (Orchestrator.benignCount options) = inr bs →
  ∃ res calls,
    Orchestrator.collectLabeledTrainingData fetchFromNpmRegistry fetchDependencies
      getVulnerabilities getPackageGitHubData extractStaticAnalysisFeatures
      collectAllMaliciousPackages collectAllBenignPackages now db options t
    = (inr res,
       t ++ Orchestrator.CollectAllMaliciousPackages
            :: Orchestrator.CollectAllBenignPackages (Orchestrator.benignCount options)
            :: calls)
    ∧ length (List.filter OrchestratorCalls.is_registry_fetch calls)
      = (Nat.min (length (Orchestrator.malicious res)) 10
         + Nat.min (length (Orchestrator.benign res)) 50)%nat
    ∧ (length (List.filter OrchestratorCalls.is_registry_fetch calls) <= 60)%nat
    ∧ List.filter OrchestratorCalls.is_static_analysis calls = []
    ∧ List.filter OrchestratorCalls.is_package_service calls = [].
Proof.
  intros Hms Hbs.
  unfold Orchestrator.collectLabeledTrainingData, Orchestrator.try_catch,
    Orchestrator.bind.
  unfold Orchestrator.await at 1. rewrite Hms.
  unfold Orchestrator.await at 1. rewrite Hbs.
  rewrite (enrichFirst_run _ _ _ _ _ _ _ 10%nat).
  rewrite (enrichFirst_run _ _ _ _ _ _ _ 50%nat).
  unfold Orchestrator.ret.
  set (malicious := js_slice 0 (Orchestrator.maliciousCount options) ms).
  eexists. exists (concat (Orchestrator.fullDataCalls fetchFromNpmRegistry
                             fetchDependencies getVulnerabilities getPackageGitHubData
                             extractStaticAnalysisFeatures now db <$> take 10 malicious)
                   ++ concat (Orchestrator.fullDataCalls fetchFromNpmRegistry
                                fetchDependencies getVulnerabilities getPackageGitHubData
                                extractStaticAnalysisFeatures now db <$> take 50 bs)).
  split; [rewrite <- !app_assoc; reflexivity|].
  cbn [Orchestrator.malicious Orchestrator.benign].
  assert (Hcount : length (List.filter OrchestratorCalls.is_registry_fetch
                     (concat (Orchestrator.fullDataCalls fetchFromNpmRegistry
                                fetchDependencies getVulnerabilities getPackageGitHubData
                                extractStaticAnalysisFeatures now db <$> take 10 malicious)
                      ++ concat (Orchestrator.fullDataCalls fetchFromNpmRegistry
                                   fetchDependencies getVulnerabilities
                                   getPackageGitHubData extractStaticAnalysisFeatures
                                   now db <$> take 50 bs)))
                   = (Nat.min (length malicious) 10 + Nat.min (length bs) 50)%nat).
  { rewrite List.filter_app, length_app, !concat_registry, !length_take. lia. }
  assert (Hlen : ∀ n ps,
            length (Orchestrator.enriched fetchFromNpmRegistry fetchDependencies
                      getVulnerabilities getPackageGitHubData
                      extractStaticAnalysisFeatures now db n ps) = length ps).
  { intros n ps. unfold Orchestrator.enriched.
    rewrite length_app, !length_fmap, <- length_app, take_drop. reflexivity. }
  rewrite !Hlen.
  split; [exact Hcount|]. split; [rewrite Hcount; lia|].
  split; [rewrite List.filter_app, !concat_static; reflexivity|].
  rewrite List.filter_app, !concat_service. reflexivity.
Qed.

Lemma collectLabeledTrainingData_call_budget_witness :
  ∃ res calls,
    Scenario.trainingRun (Orchestrator.mkTrainingOptions None None) []
    = (inr res,
       [] ++ Orchestrator.CollectAllMaliciousPackages
          :: Orchestrator.CollectAllBenignPackages
               (Orchestrator.benignCount (Orchestrator.mkTrainingOptions None None))
          :: calls)
    ∧ length (List.filter OrchestratorCalls.is_registry_fetch calls)
      = (Nat.min (length (Orchestrator.malicious res)) 10
         + Nat.min (length (Orchestrator.benign res)) 50)%nat
    ∧ (length (List.filter OrchestratorCalls.is_registry_fetch calls) <= 60)%nat
    ∧ List.filter OrchestratorCalls.is_static_analysis calls = []
    ∧ List.filter OrchestratorCalls.is_package_service calls = [].
Proof.
  unfold Scenario.trainingRun.
  eapply collectLabeledTrainingData_call_budget; reflexivity.
Defined.

(** ** [batchCollectPackages]: the step of the loop *)

Section BatchStepProofs.
Import metadataService Orchestrator.
Variable fetchFromNpmRegistry : string -> string -> JsError + Metadata.
Variable fetchDependencies : string -> string -> JsError + Payload.
Variable getVulnerabilities : string -> string -> string -> JsError + Payload.
Variable getPackageGitHubData : Metadata -> JsError + Payload.
Variable extractStaticAnalysisFeatures : string -> string -> string -> JsError + Payload.
Variable now : string.
Variable db : bool.
Variable schedule : Z -> list nat.

(** With a step that is not positive the index never passes the end of a
    non-empty list. *)
Lemma batchLoop_stuck (packageList : list Item) (options : BatchOptions)
    (fuel : nat) : ∀ i acc t,
  concurrency options <= 0 →
  i < Z.of_nat (length packageList) →
  batchLoop fetchFromNpmRegistry fetchDependencies getVulnerabilities
    getPackageGitHubData extractStaticAnalysisFeatures now db schedule
    fuel packageList options i acc t = None.
Proof.
  induction fuel as [|fuel IH]; intros i acc t Hc Hi; [reflexivity|].
  cbn [batchLoop]. destruct (Z.ltb_spec i (Z.of_nat (length packageList))); [|lia].
  destruct (allSettled _ _ t) as [batchResults t1].
  apply IH; [exact Hc|lia].
Qed.
End BatchStepProofs.

(** X16.  [batchCollectPackages] relies on a positive [concurrency]: with
    a concurrency of zero or below and at least one package the loop index
    never reaches the end of the list, so the call never completes and no
    result is returned, whatever the order in which answers arrive.  An empty list is answered at once, with an empty
    summary and without any call, whatever the concurrency. *)
Theorem batchCollectPackages_needs_positive_concurrency
    (fetchFromNpmRegistry : string -> string -> JsError + metadataService.Metadata)
    (fetchDependencies : string -> string -> JsError + Orchestrator.Payload)
    (getVulnerabilities : string -> string -> string -> JsError + Orchestrator.Payload)
    (getPackageGitHubData : metadataService.Metadata -> JsError + Orchestrator.Payload)
    (extractStaticAnalysisFeatures :
       string -> string -> string -> JsError + Orchestrator.Payload)
    (now : string) (db : bool) (schedule : Z -> list nat)
    (options : Orchestrator.BatchOptions) (t : list Orchestrator.Call) :
  (∀ items fuel,
     Orchestrator.concurrency options <= 0 →
     items ≠ [] →
     Orchestrator.batchCollectPackages fetchFromNpmRegistry fetchDependencies
       getVulnerabilities getPackageGitHubData extractStaticAnalysisFeatures now db
       schedule fuel items options t = None)
  ∧ (∀ fuel,
       Orchestrator.batchCollectPackages fetchFromNpmRegistry fetchDependencies
         getVulnerabilities getPackageGitHubData extractStaticAnalysisFeatures now db
         schedule (S fuel) [] options t
       = Some (Orchestrator.mkBatchResult [] [] (Orchestrator.mkBatchSummary 0 0 0), t)).
Proof.
  split.
  - intros items fuel Hc Hitems. unfold Orchestrator.batchCollectPackages.
    rewrite batchLoop_stuck; [reflexivity|exact Hc|].
    destruct items; [contradiction|simpl; lia].
  - intros fuel. reflexivity.
Qed.

Lemma batchCollectPackages_needs_positive_concurrency_witness :
  Scenario.batchOf 1000 Scenario.fiveItems
    (Orchestrator.mkBatchOptions (Some 0) Scenario.everythingOn) = None.
Proof.
  unfold Scenario.batchOf.
  destruct (batchCollectPackages_needs_positive_concurrency
              Scenario.registryWithoutC
              (λ _ _, inr "{dependencies: []}"%string)
              (λ _ _ _, inr "{vulnerabilities: []}"%string)
              (λ _, inr "{stars: 1}"%string)
              (λ _ _ _, inr "{features: []}"%string)
              "2024-01-01T00:00:00.000Z" false Scenario.secondFirst
              (Orchestrator.mkBatchOptions (Some 0) Scenario.everythingOn) [])
    as [H _].
  apply H.
  - unfold Orchestrator.concurrency. simpl. lia.
  - discriminate.
Defined.

(** ** [collectAllBenignPackages] *)

Section BenignProofs.
Import maliciousPackageService benignPackageService.
Variable downloads : string -> JsError + option Z.
Variable latest : string -> JsError + option string.

Local Abbreviation top := (getTopDownloadedPackages downloads latest).
Local Abbreviation org := (getVerifiedOrgPackages latest).
Local Abbreviation curated := (getCuratedSafePackages latest).

Local Abbreviation wellFormed' := (wellFormed latest).

Lemma Forall_sublist {A} (P : A → Prop) (l1 l2 : list A) :
  l1 `sublist_of` l2 → Forall P l2 → Forall P l1.
Proof.
  intros Hsub H. apply Forall_forall. intros x Hx.
  rewrite Forall_forall in H. apply H. exact (elem_of_sublist _ _ _ Hx Hsub).
Qed.

Lemma js_slice_sublist {A} (start stop : Z) (l : list A) :
  js_slice start stop l `sublist_of` l.
Proof.
  unfold js_slice. etrans; [apply sublist_take|apply sublist_drop].
Qed.

Lemma js_slice_length {A} (n : Z) (l : list A) :
  0 <= n → (Z.of_nat (length (js_slice 0 n l)) <= n).
Proof.
  intros Hn. rewrite js_slice_prefix by exact Hn. rewrite length_take. lia.
Qed.

Lemma keepFirst_sublist (l : list Package) : ∀ seen,
  keepFirst seen l `sublist_of` l.
Proof.
  induction l as [|p l IH]; intros seen; cbn [keepFirst]; [reflexivity|].
  destruct (bool_decide _).
  - apply sublist_cons, IH.
  - apply sublist_skip, IH.
Qed.

Lemma keepFirst_fresh (l : list Package) : ∀ seen p,
  p ∈ keepFirst seen l → key p ∉ seen.
Proof.
  induction l as [|q l IH]; intros seen p; cbn [keepFirst].
  - intros H. apply elem_of_nil in H. contradiction.
  - destruct (bool_decide_reflect (key q ∈ seen)) as [Hin|Hout].
    + apply IH.
    + intros H. apply elem_of_cons in H as [->|H]; [exact Hout|].
      apply IH in H. intros Hs. apply H, elem_of_union. right. exact Hs.
Qed.

Lemma keepFirst_NoDup (l : list Package) : ∀ seen,
  NoDup (key <$> keepFirst seen l).
Proof.
  induction l as [|q l IH]; intros seen; cbn [keepFirst]; [constructor|].
  destruct (bool_decide _); [apply IH|].
  csimpl. apply NoDup_cons. split; [|apply IH].
  intros H. apply list_elem_of_fmap in H as (p & Hk & Hp).
  apply keepFirst_fresh in Hp. rewrite <- Hk in Hp.
  apply Hp, elem_of_union. left. apply elem_of_singleton. reflexivity.
Qed.

Lemma keepFirst_seen (l : list Package) : ∀ seen,
  (∀ p, p ∈ l → key p ∈ seen) → keepFirst seen l = [].
Proof.
  induction l as [|q l IH]; intros seen H; cbn [keepFirst]; [reflexivity|].
  rewrite bool_decide_eq_true_2 by (apply H; left).
  apply IH. intros p Hp. apply H. right. exact Hp.
Qed.

Lemma seen_cons (k : string) (ks : list string) (seen : gset string) :
  list_to_set (k :: ks) ∪ seen = list_to_set ks ∪ ({[ k ]} ∪ seen).
Proof.
  rewrite list_to_set_cons. apply set_eq. intros x.
  rewrite !elem_of_union. tauto.
Qed.

Lemma seen_again (k : string) (ks : list string) (seen : gset string) :
  k ∈ seen → list_to_set (k :: ks) ∪ seen = list_to_set ks ∪ seen.
Proof.
  intros Hk. rewrite list_to_set_cons. apply set_eq. intros x.
  rewrite !elem_of_union, elem_of_singleton. split; [|tauto].
  intros [[->|H]|H]; auto.
Qed.

Lemma keepFirst_app (l d : list Package) : ∀ seen,
  keepFirst seen (l ++ d)
  = keepFirst seen l ++ keepFirst (list_to_set (key <$> l) ∪ seen) d.
Proof.
  induction l as [|q l IH]; intros seen; cbn [keepFirst app].
  - rewrite fmap_nil, list_to_set_nil, (left_id_L ∅ (∪)). reflexivity.
  - rewrite fmap_cons.
    destruct (bool_decide_reflect (key q ∈ seen)) as [Hin|Hout].
    + rewrite IH, (seen_again _ _ _ Hin). reflexivity.
    + cbn [app]. rewrite IH, seen_cons. reflexivity.
Qed.

Lemma assoc_elem {A} (k : string) (m : list (string * list A)) (x : A) :
  x ∈ default [] (assoc k m) → x ∈ m ≫= snd.
Proof.
  induction m as [|[k' v] m IH]; csimpl.
  - intros H. apply elem_of_nil in H. contradiction.
  - destruct (String.eqb k k'); csimpl; intros H; apply elem_of_app; auto.
Qed.

Lemma top_wellFormed (limit : Z) : Forall wellFormed' (top limit).
Proof.
  unfold getTopDownloadedPackages. apply Forall_fmap, Forall_forall.
  intros n Hn. unfold wellFormed.
  repeat (split; [reflexivity|]).
  apply elem_of_app. left.
  exact (elem_of_sublist _ _ _ Hn (js_slice_sublist _ _ _)).
Qed.

Lemma org_wellFormed (limit : Z) : Forall wellFormed' (org limit).
Proof.
  unfold getVerifiedOrgPackages.
  eapply Forall_sublist; [apply js_slice_sublist|].
  apply Forall_forall. intros p Hp.
  apply list_elem_of_bind in Hp as (o & Hp & _).
  apply list_elem_of_fmap in Hp as (n & -> & Hn).
  unfold wellFormed. repeat (split; [reflexivity|]).
  apply elem_of_app. right. apply elem_of_app. left.
  apply (assoc_elem o). 
  exact (elem_of_sublist _ _ _ Hn (js_slice_sublist _ _ _)).
Qed.

Lemma curated_wellFormed : Forall wellFormed' curated.
Proof.
  unfold getCuratedSafePackages. apply Forall_fmap, Forall_forall.
  intros n Hn. unfold wellFormed.
  repeat (split; [reflexivity|]).
  apply elem_of_app. right. apply elem_of_app. right. exact Hn.
Qed.

Lemma collectAllBenignPackages_wellFormed (count : Z) :
  Forall wellFormed' (collectAllBenignPackages downloads latest count).
Proof.
  unfold collectAllBenignPackages. cbv zeta.
  eapply Forall_sublist; [apply js_slice_sublist|].
  eapply Forall_sublist; [apply keepFirst_sublist|].
  repeat (apply Forall_app; split);
    [apply top_wellFormed|apply org_wellFormed|apply curated_wellFormed|].
  destruct (0 <? _); [apply top_wellFormed|constructor].
Qed.

Lemma collectAllBenignPackages_NoDup (count : Z) :
  NoDup (key <$> collectAllBenignPackages downloads latest count).
Proof.
  unfold collectAllBenignPackages. cbv zeta.
  eapply sublist_NoDup; [apply keepFirst_NoDup|].
  apply fmap_sublist, js_slice_sublist.
Qed.

Lemma distinct_in_order_elem (ks : list string) : ∀ seen x,
  x ∈ ks → x ∈ seen ∨ x ∈ maliciousCollectors.distinct_in_order seen ks.
Proof.
  induction ks as [|k ks IH]; intros seen x Hx; cbn [maliciousCollectors.distinct_in_order].
  - apply elem_of_nil in Hx. contradiction.
  - apply elem_of_cons in Hx as [->|Hx].
    + destruct (includes k seen) eqn:Hk.
      * left. apply includes_spec, Hk.
      * right. left.
    + destruct (includes k seen).
      * apply IH, Hx.
      * destruct (IH (seen ++ [k]) x Hx) as [H|H].
        -- apply elem_of_app in H as [H|H]; [left; exact H|].
           apply list_elem_of_singleton in H. subst. right. left.
        -- right. right. exact H.
Qed.

Lemma collectAllBenignPackages_names (count : Z) :
  (length (collectAllBenignPackages downloads latest count)
   <= length knownNames)%nat.
Proof.
  pose proof (collectAllBenignPackages_wellFormed count) as Hwf.
  pose proof (collectAllBenignPackages_NoDup count) as Hnd.
  set (r := collectAllBenignPackages downloads latest count) in *.
  rewrite <- (length_fmap name r).
  apply submseteq_length, NoDup_submseteq.
  - assert (Hkey : key <$> r
                   = (λ n, n +:+ "@" +:+ getLatestVersion latest n)%string
                       <$> (name <$> r)).
    { rewrite <- list_fmap_compose. apply Forall_fmap_ext_1.
      eapply Forall_impl; [exact Hwf|]. intros p (Hv & _).
      unfold key. simpl. rewrite Hv. reflexivity. }
    rewrite Hkey in Hnd. exact (NoDup_fmap_1 _ _ Hnd).
  - intros n Hn. apply list_elem_of_fmap in Hn as (p & -> & Hp).
    rewrite Forall_forall in Hwf. destruct (Hwf p Hp) as (_ & _ & _ & Hname).
    destruct (distinct_in_order_elem _ [] _ Hname) as [H|H]; [|exact H].
    apply elem_of_nil in H. contradiction.
Qed.

(** The packages added to fill up the list are all among the top packages
    collected first. *)
Lemma fill_covered (count : Z) (lenOrg : nat) :
  let topPackages := top (floor_of_two_fifths count) in
  let remaining :=
    count - Z.of_nat (length topPackages) - Z.of_nat lenOrg
    - Z.of_nat (length curated) in
  0 < remaining →
  ∀ p, p ∈ top remaining → p ∈ topPackages.
Proof.
  cbv zeta. unfold getTopDownloadedPackages, getCuratedSafePackages, floor_of_two_fifths.
  rewrite !length_fmap.
  change (length curatedSafePackages) with 18%nat.
  pose proof (sublist_length _ _ (js_slice_sublist 0 (2 * count / 5) popularPackages))
    as Hlen.
  intros Hrem.
  assert (Hcount : 19 <= count) by lia.
  assert (Hq : 0 <= 2 * count / 5) by (apply Z.div_pos; lia).
  revert Hrem. rewrite (js_slice_prefix (2 * count / 5)) by exact Hq.
  rewrite length_take. change (length popularPackages) with 27%nat.
  intros Hrem p Hp. rewrite js_slice_prefix in Hp by lia.
  apply list_elem_of_fmap in Hp as (n & -> & Hn). apply list_elem_of_fmap_2.
  pose proof (Z.mul_div_le (2 * count) 5 ltac:(lia)) as Hlow.
  pose proof (Z.mul_succ_div_gt (2 * count) 5 ltac:(lia)) as Hhigh.
  apply elem_of_take in Hn as (i & Hi & Hlt).
  apply elem_of_take. exists i. split; [exact Hi|].
  apply lookup_lt_Some in Hi. change (length popularPackages) with 27%nat in Hi. lia.
Qed.

Lemma collectAllBenignPackages_fill (count : Z) :
  collectAllBenignPackages downloads latest count
  = withoutFill downloads latest count.
Proof.
  unfold collectAllBenignPackages, withoutFill. cbv zeta. f_equal.
  set (A := top (floor_of_two_fifths count)).
  set (B := org (floor_of_one_fifth count)).
  match goal with |- context [if ?c then ?x else ?y] => set (D := if c then x else y) end.
  assert (HD : ∀ p, p ∈ D → p ∈ A).
  { intros p Hp. subst D.
    destruct (Z.ltb_spec 0 (count - Z.of_nat (length A) - Z.of_nat (length B)
                            - Z.of_nat (length curated))) as [Hrem|_];
      [|apply elem_of_nil in Hp; contradiction].
    exact (fill_covered count (length B) Hrem p Hp). }
  clearbody D.
  replace (A ++ B ++ curated ++ D) with ((A ++ B ++ curated) ++ D)
    by (rewrite <- !app_assoc; reflexivity).
  rewrite keepFirst_app, (keepFirst_seen D), app_nil_r; [reflexivity|].
  intros p Hp. apply elem_of_union. left. apply elem_of_list_to_set.
  apply list_elem_of_fmap_2. apply elem_of_app. left. apply HD, Hp.
Qed.
End BenignProofs.

(** X17.  Whatever the registry answers and whatever count is asked for,
    [collectAllBenignPackages] returns records labelled benign whose keys
    name@version are pairwise different, never more than [count] of them
    (for a count that is not negative) and never more than 55, the number of
    distinct package names the service knows: a larger count cannot be
    reached. *)
Theorem collectAllBenignPackages_distinct_and_bounded
    (downloads : string -> JsError + option Z)
    (latest : string -> JsError + option string) (count : Z) :
  let packages := benignPackageService.collectAllBenignPackages downloads latest count in
  NoDup (maliciousPackageService.key <$> packages)
  ∧ (length packages <= 55)%nat
  ∧ (0 <= count → Z.of_nat (length packages) <= count)
  ∧ Forall (benignPackageService.wellFormed latest) packages.
Proof.
  cbv zeta. split; [apply collectAllBenignPackages_NoDup|].
  split; [exact (collectAllBenignPackages_names downloads latest count)|].
  split; [|apply collectAllBenignPackages_wellFormed].
  intros Hcount. unfold benignPackageService.collectAllBenignPackages. cbv zeta.
  apply js_slice_length, Hcount.
Qed.

Lemma collectAllBenignPackages_distinct_and_bounded_witness :
  0 <= 5
  ∧ Z.of_nat (length (benignPackageService.collectAllBenignPackages
                        Sample.downloadCounts Sample.latestVersions 5)) <= 5.
Proof.
  split; [lia|].
  destruct (collectAllBenignPackages_distinct_and_bounded
              Sample.downloadCounts Sample.latestVersions 5) as (_ & _ & H & _).
  apply H. lia.
Defined.

(** X18.  The step that fills the list up with more top packages never
    adds a package, as long as the registry answers the same question the
    same way: the packages it fetches are among the top packages collected
    first, and the filter drops them again. *)
Theorem collectAllBenignPackages_fill_adds_nothing
    (downloads : string -> JsError + option Z)
    (latest : string -> JsError + option string) (count : Z) :
  benignPackageService.collectAllBenignPackages downloads latest count
  = benignPackageService.withoutFill downloads latest count.
Proof.
  apply collectAllBenignPackages_fill.
Qed.

(** ** The batch endpoint *)

Section ControllerProofs.
Import metadataService Orchestrator.
Variable fetchFromNpmRegistry : string -> string -> JsError + Metadata.
Variable fetchDependencies : string -> string -> JsError + Payload.
Variable getVulnerabilities : string -> string -> string -> JsError + Payload.
Variable getPackageGitHubData : Metadata -> JsError + Payload.
Variable extractStaticAnalysisFeatures : string -> string -> string -> JsError + Payload.
Variable now : string.
Variable db : bool.

End ControllerProofs.



(** ** [collectAllMaliciousPackages] *)

Section PrecedenceProofs.
Import maliciousPackageService.

(** The first record of a key in a concatenation lies in the first list
    when that list has a record of the key. *)
Lemma first_of_key_app (p g : Package) (l1 l2 : list Package) :
  first_of_key p (l1 ++ l2) → g ∈ l1 → key g = key p → first_of_key p l1.
Proof.
  intros (pre & post & Hsplit & Hfresh) Hg Hkey.
  symmetry in Hsplit. apply app_eq_app in Hsplit as [m [[H1 H2]|[H1 H2]]].
  - subst pre. exfalso. apply (Hfresh g); [|exact Hkey].
    apply elem_of_app. left. exact Hg.
  - destruct m as [|x m].
    + rewrite app_nil_r in H1. subst pre.
      exfalso. exact (Hfresh g Hg Hkey).
    + injection H2 as <- _. exists pre, m. split; [exact H1|exact Hfresh].
Qed.
End PrecedenceProofs.

(** X20.  [collectAllMaliciousPackages] returns records with pairwise
    different keys; every record of the three collectors is represented by
    the record of its key, which lists its source; and for a package that
    GitHub reports, the record returned is GitHub's first record of that key
    (name, version, label, source and details), whatever OSV and the research
    lists say about it. *)
Theorem collectAllMaliciousPackages_prefers_github
    (github osv research : list maliciousPackageService.Package) :
  let packages :=
    maliciousPackageService.collectAllMaliciousPackages github osv research in
  NoDup (maliciousPackageService.key <$> packages)
  ∧ (∀ q, q ∈ github ++ osv ++ research →
       ∃ p ss,
         p ∈ packages
         ∧ maliciousPackageService.key p = maliciousPackageService.key q
         ∧ maliciousPackageService.sources p = Some ss
         ∧ maliciousPackageService.source q ∈ ss)
  ∧ (∀ p g,
       p ∈ packages → g ∈ github →
       maliciousPackageService.key g = maliciousPackageService.key p →
       ∃ g',
         maliciousPackageService.first_of_key g' github
         ∧ maliciousPackageService.key g' = maliciousPackageService.key p
         ∧ maliciousPackageService.name p = maliciousPackageService.name g'
         ∧ maliciousPackageService.version p = maliciousPackageService.version g'
         ∧ maliciousPackageService.label p = maliciousPackageService.label g'
         ∧ maliciousPackageService.source p = maliciousPackageService.source g'
         ∧ maliciousPackageService.details p = maliciousPackageService.details g').
Proof.
  cbv zeta. unfold maliciousPackageService.collectAllMaliciousPackages. cbv zeta.
  set (combined := github ++ osv ++ research).
  split; [apply dedup_keys_NoDup|]. split.
  - intros q Hq.
    assert (Hk : maliciousPackageService.key q
                 ∈ maliciousPackageService.key
                     <$> maliciousPackageService.deduplicatePackages combined).
    { apply dedup_keys. exists q. split; [exact Hq|reflexivity]. }
    apply list_elem_of_fmap in Hk as (p & Hkey & Hp).
    pose proof (dedup_elem_merged _ _ Hp) as Hm.
    destruct (merged_spec _ _ _ Hm)
      as (p0 & ss & _ & _ & _ & _ & _ & _ & _ & Hss & _ & _ & Hall & _).
    exists p, ss. split; [exact Hp|]. split; [symmetry; exact Hkey|].
    split; [exact Hss|]. apply Hall. exists q.
    split; [exact Hq|]. split; [exact Hkey|reflexivity].
  - intros p g Hp Hg Hkey.
    pose proof (dedup_elem_merged _ _ Hp) as Hm.
    destruct (merged_spec _ _ _ Hm)
      as (p0 & ss & Hfirst & Hk0 & Hn & Hv & Hl & Hs & Hd & _).
    exists p0. split.
    + apply (first_of_key_app p0 g github (osv ++ research) Hfirst Hg). congruence.
    + repeat (split; [assumption|]). exact Hd.
Qed.

(** ** [RateLimiter]: callers that share a limiter *)

Section SharedProofs.
Import RateLimiterJs RateLimiterShared.

Lemma canMakeRequest_again (l : Limiter) :
  canMakeRequest (canMakeRequest l).2 = canMakeRequest l.
Proof.
  destruct l as [cap win rs now sl]. unfold canMakeRequest, set_requests.
  cbn [requests clock windowMs requestsPerWindow slept fst snd].
  assert (Hidem : List.filter (λ timestamp, now - timestamp <? win)
                    (List.filter (λ timestamp, now - timestamp <? win) rs)
                  = List.filter (λ timestamp, now - timestamp <? win) rs).
  { induction rs as [|r rs IH]; simpl; [reflexivity|].
    destruct (now - r <? win) eqn:Hr; simpl; [rewrite Hr, IH|]; auto. }
  rewrite Hidem. reflexivity.
Qed.

Lemma check_free (l : Limiter) :
  (canMakeRequest l).1 = true → check l = (Passed, (canMakeRequest l).2).
Proof.
  unfold check. destruct (canMakeRequest l) as [ok l1]. simpl. intros ->. reflexivity.
Qed.

Lemma run_app (es1 es2 : list Event) (s : Shared) :
  run (es1 ++ es2) s = run es2 (run es1 s).
Proof. apply fold_left_app. Qed.

(** The callers that are still to run their test all pass it, as long as
    nobody has recorded. *)
Lemma run_tests (n : nat) : ∀ (pre : list Caller) (l : Limiter),
  (canMakeRequest l).1 = true →
  (canMakeRequest l).2 = l →
  run (Resume <$> seq (length pre) n) (mkShared l (pre ++ replicate n Checking))
  = mkShared l (pre ++ replicate n Passed).
Proof.
  induction n as [|n IH]; intros pre l Hfree Hfixed; [reflexivity|].
  cbn [seq fmap list_fmap run fold_left step callers replicate].
  rewrite list_lookup_middle by reflexivity.
  unfold enter. cbn [limiter callers]. rewrite (check_free l Hfree), Hfixed.
  replace (<[length pre := Passed]> (pre ++ Checking :: replicate n Checking))
    with ((pre ++ [Passed]) ++ replicate n Checking).
  - replace (S (length pre)) with (length (pre ++ [Passed]))
      by (rewrite length_app; simpl; lia).
    change (fold_left step ?es ?s) with (run es s).
    rewrite (IH (pre ++ [Passed]) l Hfree Hfixed), <- app_assoc. reflexivity.
  - rewrite <- app_assoc. cbn [replicate app].
    rewrite (insert_app_r_alt pre _ (length pre)) by lia.
    rewrite Nat.sub_diag. reflexivity.
Qed.

(** The callers that passed all record, one after the other. *)
Lemma run_records (n : nat) : ∀ (pre : list Caller) (l : Limiter),
  run (Resume <$> seq (length pre) n) (mkShared l (pre ++ replicate n Passed))
  = mkShared (set_requests (requests l ++ replicate n (clock l)) l)
      (pre ++ replicate n Recorded).
Proof.
  induction n as [|n IH]; intros pre l.
  - cbn [seq fmap list_fmap run fold_left replicate]. rewrite !app_nil_r.
    destruct l; reflexivity.
  - cbn [seq fmap list_fmap run fold_left step callers replicate].
    rewrite list_lookup_middle by reflexivity. cbn [limiter callers].
    replace (<[length pre := Recorded]> (pre ++ Passed :: replicate n Passed))
      with ((pre ++ [Recorded]) ++ replicate n Passed).
    + replace (S (length pre)) with (length (pre ++ [Recorded]))
        by (rewrite length_app; simpl; lia).
      change (fold_left step ?es ?s) with (run es s).
      rewrite (IH (pre ++ [Recorded]) (recordRequest l)), <- app_assoc.
      destruct l as [cap win rs now sl]. unfold recordRequest, set_requests.
      cbn [requests clock windowMs requestsPerWindow slept replicate app].
      rewrite <- app_assoc. reflexivity.
    + rewrite <- app_assoc. cbn [replicate app].
      rewrite (insert_app_r_alt pre _ (length pre)) by lia.
      rewrite Nat.sub_diag. reflexivity.
Qed.

(** A caller alone on the limiter, followed through the event loop while
    time passes as long as each of its sleeps asks. *)
Lemma waitUntilCanRequest_alone (fuel : nat) : ∀ (l l1 : Limiter) (c : Caller),
  waitUntilCanRequest fuel l = Some l1 →
  c = Checking ∨ (∃ wake, c = Sleeping (Some wake) ∧ wake <= clock l) →
  ∃ events, run events (mkShared l [c]) = mkShared l1 [Passed].
Proof.
  induction fuel as [|fuel IH]; intros l l1 c Hwait Hc; [discriminate Hwait|].
  cbn [waitUntilCanRequest] in Hwait.
  assert (Hstep : step (mkShared l [c]) (Resume 0) = enter 0 (mkShared l [c])).
  { destruct Hc as [->|(wake & -> & Hwake)]; cbn [step callers limiter lookup];
      simpl; [reflexivity|].
    destruct (Z.leb_spec wake (clock l)); [reflexivity|lia]. }
  unfold enter, check in Hstep. cbn [limiter callers] in Hstep.
  destruct (canMakeRequest l) as [ok la] eqn:Hcan. destruct ok.
  - injection Hwait as <-. exists [Resume 0]. cbn [run fold_left].
    rewrite Hstep. reflexivity.
  - destruct (getTimeUntilNextRequest la) as [[ms|] lb] eqn:Htime; [|discriminate Hwait].
    destruct (Z.ltb_spec 0 ms) as [Hpos|Hzero].
    + destruct (IH (limiterSleep ms lb) l1 (Sleeping (Some (clock lb + ms))) Hwait)
        as (events & Hrun).
      { right. eexists. split; [reflexivity|]. destruct lb; simpl. lia. }
      exists (Resume 0 :: Elapse ms :: events). cbn [run fold_left].
      rewrite Hstep. cbn [step limiter callers].
      replace (elapse ms (noteSleep ms lb)) with (limiterSleep ms lb)
        by (destruct lb; reflexivity).
      exact Hrun.
    + destruct (IH lb l1 Checking Hwait) as (events & Hrun); [left; reflexivity|].
      exists (Resume 0 :: events). cbn [run fold_left].
      rewrite Hstep. exact Hrun.
Qed.
End SharedProofs.

(** X21.  Calls of [makeRequest] issued together on a limiter that has a
    free slot are all admitted at once, however many they are: every caller
    runs its test before any of them records, so that nobody sleeps and the
    window receives one timestamp per caller.  With more callers than
    [requestsPerWindow] the window ends up holding more timestamps than the
    limit. *)
Theorem sharedLimiter_admits_callers_issued_together
    (l : RateLimiterJs.Limiter) (k : nat) :
  (RateLimiterJs.canMakeRequest l).1 = true →
  (0 < k)%nat →
  let s :=
    RateLimiterShared.run (RateLimiterShared.issuedTogether k)
      (RateLimiterShared.mkShared l (replicate k RateLimiterShared.Checking)) in
  RateLimiterShared.callers s = replicate k RateLimiterShared.Recorded
  ∧ RateLimiterJs.requests (RateLimiterShared.limiter s)
    = RateLimiterJs.requests (RateLimiterJs.canMakeRequest l).2
      ++ replicate k (RateLimiterJs.clock l)
  ∧ RateLimiterJs.slept (RateLimiterShared.limiter s) = RateLimiterJs.slept l
  ∧ RateLimiterJs.clock (RateLimiterShared.limiter s) = RateLimiterJs.clock l
  ∧ (RateLimiterJs.requestsPerWindow l < Z.of_nat k →
     RateLimiterJs.requestsPerWindow l
     < Z.of_nat (length (RateLimiterJs.requests (RateLimiterShared.limiter s)))).
Proof.
  intros Hfree Hk. cbv zeta. unfold RateLimiterShared.issuedTogether.
  rewrite run_app.
  set (l1 := (RateLimiterJs.canMakeRequest l).2).
  assert (Hfree1 : (RateLimiterJs.canMakeRequest l1).1 = true)
    by (subst l1; rewrite canMakeRequest_again; exact Hfree).
  assert (Hfixed1 : (RateLimiterJs.canMakeRequest l1).2 = l1)
    by (subst l1; rewrite canMakeRequest_again; reflexivity).
  assert (Hfirst : RateLimiterShared.run (RateLimiterShared.Resume <$> seq 0 k)
                     (RateLimiterShared.mkShared l
                        (replicate k RateLimiterShared.Checking))
                   = RateLimiterShared.mkShared l1
                       (replicate k RateLimiterShared.Passed)).
  { destruct k as [|k]; [lia|].
    cbn [seq fmap list_fmap RateLimiterShared.run fold_left RateLimiterShared.step
         RateLimiterShared.callers replicate lookup].
    simpl lookup. unfold RateLimiterShared.enter.
    cbn [RateLimiterShared.limiter RateLimiterShared.callers].
    rewrite (check_free l Hfree). fold l1.
    change (fold_left RateLimiterShared.step ?es ?s) with (RateLimiterShared.run es s).
    exact (run_tests k [RateLimiterShared.Passed] l1 Hfree1 Hfixed1). }
  rewrite Hfirst.
  pose proof (run_records k [] l1) as Hrecords.
  cbn [app length] in Hrecords. rewrite Hrecords.
  cbn [RateLimiterShared.callers RateLimiterShared.limiter].
  assert (Hsame : RateLimiterJs.clock l1 = RateLimiterJs.clock l
                  ∧ RateLimiterJs.slept l1 = RateLimiterJs.slept l
                  ∧ RateLimiterJs.requestsPerWindow l1 = RateLimiterJs.requestsPerWindow l)
    by (subst l1; destruct l; repeat split).
  destruct Hsame as (Hclock & Hslept & Hcap).
  destruct l1 as [cap1 win1 rs1 now1 sl1]. cbn in Hclock, Hslept, Hcap |- *.
  subst. repeat (split; [reflexivity|]).
  intros Hmore. rewrite length_app, length_replicate. lia.
Qed.

Lemma sharedLimiter_admits_callers_issued_together_witness :
  let s :=
    RateLimiterShared.run (RateLimiterShared.issuedTogether 3)
      (RateLimiterShared.mkShared (RateLimiterJs.newRateLimiter 1 1000 0)
         (replicate 3 RateLimiterShared.Checking)) in
  RateLimiterShared.callers s = replicate 3 RateLimiterShared.Recorded
  ∧ RateLimiterJs.requests (RateLimiterShared.limiter s) = [0; 0; 0]
  ∧ RateLimiterJs.slept (RateLimiterShared.limiter s) = []
  ∧ 1 < Z.of_nat (length (RateLimiterJs.requests (RateLimiterShared.limiter s))).
Proof.
  cbv zeta.
  destruct (sharedLimiter_admits_callers_issued_together
              (RateLimiterJs.newRateLimiter 1 1000 0) 3)
    as (Hcallers & Hrequests & Hslept & _ & Hover); [reflexivity|lia|].
  split; [exact Hcallers|]. split; [exact Hrequests|]. split; [exact Hslept|].
  apply Hover. simpl. lia.
Defined.

(** X22.  For a caller that is alone on the limiter, the admission
    computed by [acquireSlot] is a run of the shared limiter: the caller
    runs its test, time passes as long as each sleep asks, and it records as
    soon as it has passed. *)
Theorem acquireSlot_is_run_of_one_caller (fuel : nat)
    (l l' : RateLimiterJs.Limiter) :
  RateLimiterJs.acquireSlot fuel l = Some l' →
  ∃ events,
    RateLimiterShared.run events
      (RateLimiterShared.mkShared l [RateLimiterShared.Checking])
    = RateLimiterShared.mkShared l' [RateLimiterShared.Recorded].
Proof.
  unfold RateLimiterJs.acquireSlot. intros Hslot.
  destruct (RateLimiterJs.waitUntilCanRequest fuel l) as [l1|] eqn:Hwait;
    [|discriminate Hslot].
  injection Hslot as <-.
  destruct (waitUntilCanRequest_alone fuel l l1 RateLimiterShared.Checking Hwait)
    as (events & Hrun); [left; reflexivity|].
  exists (events ++ [RateLimiterShared.Resume 0]).
  rewrite run_app, Hrun. reflexivity.
Qed.

Lemma acquireSlot_is_run_of_one_caller_witness :
  ∃ l' events,
    RateLimiterJs.acquireSlot 3 Sample.fullLimiter = Some l'
    ∧ RateLimiterShared.run events
        (RateLimiterShared.mkShared Sample.fullLimiter [RateLimiterShared.Checking])
      = RateLimiterShared.mkShared l' [RateLimiterShared.Recorded].
Proof.
  destruct (RateLimiterJs.acquireSlot 3 Sample.fullLimiter) as [l'|] eqn:Hslot;
    [|vm_compute in Hslot; discriminate Hslot].
  destruct (acquireSlot_is_run_of_one_caller 3 Sample.fullLimiter l' Hslot)
    as (events & Hrun).
  exists l', events. split; [reflexivity|exact Hrun].
Defined.
